(** * DownloaderModule (src/modules/downloader.js): a shallow embedding

    The module is a JavaScript class whose methods take loosely typed JSON
    from one HTTP API, format a caption and relay media through the host
    bot.  The embedding keeps that shape:

    - [Str]: the string primitives the methods call ([includes], [split],
      [encodeURIComponent]); strings are UTF-8 byte strings, and
      [encodeURIComponent] is partial as in the engine: it has no result
      on a lone surrogate;
    - [Num]: ECMAScript Numbers as IEEE 754 binary64, on the Standard
      Library's [SpecFloat], with [Number.prototype.toString] and
      [Number.prototype.toFixed];
    - [Js]: JSON-shaped values with the coercions [ToBoolean], [ToString],
      [ToNumber], property access, errors and completions; [ToString] and
      [ToNumber] throw where the engine's do, on an object that has an
      own [toString] property (which in a JSON value is never a function)
      and on an array that holds one;
    - [Run]: the trace of observable calls, the outside world that answers
      them, and the monad the async methods run in;
    - [Downloader]: the methods of the class, one definition per method;
    - [Scenario]: concrete worlds and API replies to run the methods on;
    - [Observe]: what is read off a trace (messages sent, errors logged),
      the assumptions on replies and the closed forms of the captions;
    - [Cases]: further worlds and replies.

    The facts follow: [StrFacts], [NumFacts] (integers below 2^53 are exact,
    [toFixed(1)]), [RunFacts] (what a run adds to the trace), then the
    properties of the number formatter ([FormatFacts]), of the media relay
    ([RelayFacts]) and of the command handlers ([HandlerFacts]).  After
    them: the request URL and the description cut ([TextFacts]), counting
    and negative numbers ([IndexFacts]), runs that add no event of a kind
    ([ObserveFacts]), the fetch client ([FetchFacts]), the relay delivery
    by delivery ([DeliveryFacts]), the processing notice ([NoticeFacts]),
    failing and incomplete replies ([FailureFacts]) and what each handler
    picks from a reply ([SelectionFacts]). *)

From Stdlib Require Import ZArith NArith List String Ascii Lia Bool.
From Stdlib Require Import SpecFloat DecimalString DecimalN.
Import ListNotations.
Open Scope string_scope.

(* ------------------------------------------------------------------ *)
(** ** String primitives *)

Module Str.

(** [s.includes(pat)]: some suffix of [s] starts with [pat]. *)
Fixpoint includes (pat s : string) : bool :=
  prefix pat s ||
  match s with
  | EmptyString => false
  | String _ s' => includes pat s'
  end.

(** [s.split(sep)[0]] for a non-empty separator: the part of [s] before
    the first occurrence of [sep], all of [s] when there is none. *)
Fixpoint split_head (sep s : string) : string :=
  if prefix sep s then EmptyString
  else match s with
       | EmptyString => EmptyString
       | String c s' => String c (split_head sep s')
       end.

(** The substring relation the claims speak of. *)
Definition contains (s pat : string) : Prop :=
  exists a b, s = a ++ pat ++ b.

Definition starts_with (s pat : string) : Prop :=
  exists b, s = pat ++ b.

Fixpoint repeat0 (n : nat) : string :=
  match n with
  | O => EmptyString
  | S n' => String "0" (repeat0 n')
  end.

Definition dec (n : N) : string := NilZero.string_of_uint (N.to_uint n).

Definition hex_digit (n : N) : ascii :=
  match n with
  | 0 => "0" | 1 => "1" | 2 => "2" | 3 => "3" | 4 => "4" | 5 => "5"
  | 6 => "6" | 7 => "7" | 8 => "8" | 9 => "9" | 10 => "A" | 11 => "B"
  | 12 => "C" | 13 => "D" | 14 => "E" | _ => "F"
  end%N%char.

Definition in_range (lo hi c : ascii) : bool :=
  (N_of_ascii lo <=? N_of_ascii c)%N && (N_of_ascii c <=? N_of_ascii hi)%N.

(** The characters [encodeURIComponent] leaves alone:
    A-Z a-z 0-9 - _ . ! ~ * ' ( ) *)
Definition uri_unreserved (c : ascii) : bool :=
  in_range "A" "Z" c || in_range "a" "z" c || in_range "0" "9" c ||
  existsb (Ascii.eqb c)
    ["-"; "_"; "."; "!"; "~"; "*"; "'"; "("; ")"]%char.

(** The percent-encoding of the UTF-8 form: every byte that is not an
    unreserved character becomes [%XX]. *)
Fixpoint percent_encode (s : string) : string :=
  match s with
  | EmptyString => EmptyString
  | String c s' =>
      if uri_unreserved c then String c (percent_encode s')
      else
        let n := N_of_ascii c in
        String "%" (String (hex_digit (n / 16)) (String (hex_digit (n mod 16))
          (percent_encode s')))
  end.

(** A surrogate code unit without its partner (U+D800..U+DFFF) is
    written as three bytes, the lead byte 0xED followed by a byte from
    0xA0; in the UTF-8 form of a code point 0xED is followed by a byte
    below 0xA0, and a surrogate pair is one four-byte sequence. *)
Fixpoint lone_surrogate (s : string) : bool :=
  match s with
  | EmptyString => false
  | String c rest =>
      match rest with
      | String d _ => ((N_of_ascii c =? 237) && (160 <=? N_of_ascii d))%N
      | EmptyString => false
      end || lone_surrogate rest
  end.

(** [encodeURIComponent(s)]: the percent-encoding of [s]; [None] stands
    for the URIError the function raises on a lone surrogate. *)
Definition encodeURIComponent (s : string) : option string :=
  if lone_surrogate s then None else Some (percent_encode s).

End Str.

(* ------------------------------------------------------------------ *)
(** ** Numbers: IEEE 754 binary64 *)

Module Num.

Definition prec : Z := 53.
Definition emax : Z := 1024.

Definition number := spec_float.

Definition of_Z (z : Z) : number := binary_normalize prec emax z 0 false.
Definition of_nat (n : nat) : number := of_Z (Z.of_nat n).

Definition div : number -> number -> number := SFdiv prec emax.
Definition sub : number -> number -> number := SFsub prec emax.
Definition add : number -> number -> number := SFadd prec emax.
Definition ltb : number -> number -> bool := SFltb.
Definition eqb : number -> number -> bool := SFeqb.

Definition isNaN (x : number) : bool :=
  match x with S754_nan => true | _ => false end.

(** The value [num / den] of a positive decimal literal, rounded once to
    the nearest double (ties to even). *)
Definition of_ratio (num den : positive) : number :=
  SFdiv prec emax (S754_finite false num 0) (S754_finite false den 0).

(** [s * 10^p] as a double. *)
Definition of_decimal (s : positive) (p : Z) : number :=
  if (0 <=? p)%Z then of_Z (Zpos s * 10 ^ p)
  else of_ratio s (Z.to_pos (10 ^ (- p))).

(** The exact value [m * 2^e] as a fraction [(a, b)]. *)
Definition exact (m : positive) (e : Z) : Z * Z :=
  if (0 <=? e)%Z then (Zpos m * 2 ^ e, 1)%Z else (Zpos m, 2 ^ (- e))%Z.

(** [a / b < 10 ^ n] *)
Definition lt_pow10 (a b n : Z) : bool :=
  if (0 <=? n)%Z then (a <? b * 10 ^ n)%Z else (a * 10 ^ (- n) <? b)%Z.

Fixpoint find_exp10 (a b n : Z) (fuel : nat) : Z :=
  match fuel with
  | O => n
  | S f => if lt_pow10 a b n then n else find_exp10 a b (n + 1)%Z f
  end.

(** The least [n] with [a / b < 10 ^ n], for a positive double.  The
    search starts below it: [2 ^ t <= a / b] for
    [t = log2 a - log2 b - 1], so [n > t * log10 2], and
    [0.30102 < log10 2 < 0.30103]. *)
Definition exp10 (a b : Z) : Z :=
  let t := (Z.log2 a - Z.log2 b - 1)%Z in
  let start := if (0 <=? t)%Z then (30102 * t / 100000)%Z
               else (30103 * t / 100000)%Z in
  find_exp10 a b start 640.

(** [floor ((a / b) / 10 ^ p)] *)
Definition scaled_floor (a b p : Z) : Z :=
  if (0 <=? p)%Z then (a / (b * 10 ^ p))%Z else ((a * 10 ^ (- p)) / b)%Z.

(** Is [a / b] nearer to [s * 10^p] than to [(s + 1) * 10^p]?  A tie goes
    to the even one. *)
Definition nearer_low (a b s p : Z) : bool :=
  let '(l, r) :=
    if (0 <=? p)%Z then (2 * a, (2 * s + 1) * 10 ^ p * b)%Z
    else (2 * a * 10 ^ (- p), (2 * s + 1) * b)%Z in
  match (l ?= r)%Z with
  | Lt => true
  | Eq => Z.even s
  | Gt => false
  end.

Definition same (x y : number) : bool :=
  match x, y with
  | S754_finite s1 m1 e1, S754_finite s2 m2 e2 =>
      Bool.eqb s1 s2 && Pos.eqb m1 m2 && Z.eqb e1 e2
  | _, _ => false
  end.

(** Shortest decimal [s * 10^p] that reads back as the double [m * 2^e]:
    the digit count [k] grows from 1; 17 digits always suffice. *)
Fixpoint shortest (m : positive) (e n0 : Z) (k : Z) (fuel : nat) : Z * Z :=
  let '(a, b) := exact m e in
  let p := (n0 - k)%Z in
  let lo := scaled_floor a b p in
  let hi := (lo + 1)%Z in
  let x := S754_finite false m e in
  let ok_lo := (0 <? lo)%Z && same (of_decimal (Z.to_pos lo) p) x in
  let ok_hi := same (of_decimal (Z.to_pos hi) p) x in
  match fuel with
  | O => (lo, p)
  | S f =>
      if ok_lo && ok_hi then (if nearer_low a b lo p then lo else hi, p)
      else if ok_lo then (lo, p)
      else if ok_hi then (hi, p)
      else shortest m e n0 (k + 1)%Z f
  end.

(** Drop the trailing zeros of [s], counting them in the exponent. *)
Fixpoint strip_zeros (s p : Z) (fuel : nat) : Z * Z :=
  match fuel with
  | O => (s, p)
  | S f => if ((s mod 10 =? 0) && (0 <? s))%Z
           then strip_zeros (s / 10)%Z (p + 1)%Z f else (s, p)
  end.

Definition take (n : nat) (s : string) : string := substring 0 n s.
Definition drop (n : nat) (s : string) : string :=
  substring n (String.length s - n) s.

(** Steps 6-11 of Number::toString: lay out the [k] digits [d] of a
    number in [10^(n-1), 10^n). *)
Definition layout (d : string) (n : Z) : string :=
  let k := Z.of_nat (String.length d) in
  if ((k <=? n) && (n <=? 21))%Z then d ++ Str.repeat0 (Z.to_nat (n - k))
  else if ((0 <? n) && (n <=? 21))%Z then
    take (Z.to_nat n) d ++ "." ++ drop (Z.to_nat n) d
  else if ((-6 <? n) && (n <=? 0))%Z then
    "0." ++ Str.repeat0 (Z.to_nat (- n)) ++ d
  else
    let e1 := (n - 1)%Z in
    let sign := if (e1 <? 0)%Z then "-" else "+" in
    let mant := if (k =? 1)%Z then d else take 1 d ++ "." ++ drop 1 d in
    mant ++ "e" ++ sign ++ Str.dec (Z.to_N (Z.abs e1)).

(** The integer a finite double stands for, when it is one. *)
Definition integer_of (m : positive) (e : Z) : option Z :=
  let '(a, b) := exact m e in
  if (a mod b =? 0)%Z then Some (a / b)%Z else None.

(** Number::toString of a positive finite double, by the shortest-digits
    search. *)
Definition shortest_toString (m : positive) (e : Z) : string :=
  let '(a, b) := exact m e in
  let '(s, p) := shortest m e (exp10 a b) 1 17 in
  let '(s', p') := strip_zeros s p 400 in
  let d := Str.dec (Z.to_N s') in
  layout d (Z.of_nat (String.length d) + p').

(** Integers below 2^53 print as their decimal numeral: their shortest
    digits are their own digits (see [shortest_on_integers] for a check);
    every other double goes through the search. *)
Definition pos_toString (m : positive) (e : Z) : string :=
  match integer_of m e with
  | Some z => if (z <? 2 ^ 53)%Z then Str.dec (Z.to_N z)
              else shortest_toString m e
  | None => shortest_toString m e
  end.

(** [Number.prototype.toString()] (radix 10). *)
Definition toString (x : number) : string :=
  match x with
  | S754_nan => "NaN"
  | S754_zero _ => "0"
  | S754_infinity s => if s then "-Infinity" else "Infinity"
  | S754_finite s m e => (if s then "-" else "") ++ pos_toString m e
  end.

(** The integer nearest to [10 * m * 2^e], the larger one on a tie. *)
Definition tenths (m : positive) (e : Z) : Z :=
  if (0 <=? e)%Z then (10 * Zpos m * 2 ^ e)%Z
  else ((20 * Zpos m + 2 ^ (- e)) / (2 * 2 ^ (- e)))%Z.

(** [m * 2^e >= 10^21] *)
Definition ge_1e21 (m : positive) (e : Z) : bool :=
  let '(a, b) := exact m e in (b * 10 ^ 21 <=? a)%Z.

(** A numeral with one decimal place: [t] tenths. *)
Definition one_decimal (t : Z) : string :=
  Str.dec (Z.to_N (t / 10)) ++ "." ++ Str.dec (Z.to_N (t mod 10)).

(** [Number.prototype.toFixed(1)]: not a number and the infinities print
    as [toString] has them; a magnitude from 10^21 prints as [toString]
    has it; any other as the nearest tenth, the sign in front. *)
Definition toFixed1 (x : number) : string :=
  match x with
  | S754_nan => "NaN"
  | S754_infinity s => if s then "-Infinity" else "Infinity"
  | S754_zero _ => "0.0"
  | S754_finite s m e =>
      let sign := if s then "-" else "" in
      if ge_1e21 m e then sign ++ pos_toString m e
      else sign ++ one_decimal (tenths m e)
  end.

(** [t] is the integer nearest to ten times [q] (the larger one on a tie),
    for a [q] that is zero or positive: [t - 1/2 <= 10 q < t + 1/2]. *)
Definition nearest_tenth (q : number) (t : Z) : Prop :=
  match q with
  | S754_zero _ => t = 0%Z
  | S754_finite false m e =>
      let '(a, b) := exact m e in
      (2 * t * b - b <= 20 * a < 2 * t * b + b)%Z
  | _ => False
  end.

(** Zero, or positive, finite and below 10^21: where [toFixed] prints
    plain digits. *)
Definition fixed_range (q : number) : bool :=
  match q with
  | S754_zero _ => true
  | S754_finite false m e => negb (ge_1e21 m e)
  | _ => false
  end.

(** The double of a positive integer of at most 53 bits: the mantissa
    shifted to 53 bits, the exponent lowered to match. *)
Definition dbl (p : positive) : number :=
  let e := (Zpos (digits2_pos p) - 53)%Z in
  S754_finite false (fst (shl_align p 0 e)) e.

End Num.


(* ------------------------------------------------------------------ *)
(** ** JSON-shaped values and their coercions *)

Set Warnings "-register-all".

Module Js.

(** What [JSON.parse] can produce, and [undefined] for an absent
    property. *)
Inductive value :=
| VUndefined
| VNull
| VBool (b : bool)
| VNum (x : Num.number)
| VStr (s : string)
| VArr (items : list value)
| VObj (fields : list (string * value)).

(** ToBoolean *)
Definition truthy (v : value) : bool :=
  match v with
  | VUndefined | VNull => false
  | VBool b => b
  | VNum (S754_zero _) | VNum S754_nan => false
  | VNum _ => true
  | VStr s => negb (s =? "")
  | VArr _ | VObj _ => true
  end.

(** *** Errors and completions *)

(** What a [throw] or a rejected promise carries: an [Error] object, of
    which the module reads only [message]. *)
Inductive exn := Error (message : string).

Definition message_of (e : exn) : string := let 'Error m := e in m.

Inductive completion (A : Type) :=
| Normal (a : A)
| Throw (e : exn).
Arguments Normal {A} a.
Arguments Throw {A} e.

(** One step after another, the first throw ending the sequence. *)
Definition and_then {A B} (c : completion A) (k : A -> completion B)
  : completion B :=
  match c with
  | Normal a => k a
  | Throw e => Throw e
  end.

(** *** ToString and ToNumber *)

(** Does the object have an own property [key]? *)
Definition has_own (key : string) (fields : list (string * value)) : bool :=
  existsb (fun kv => fst kv =? key) fields.

(** The TypeError of ToPrimitive when no method gives a primitive. *)
Definition not_primitive : exn :=
  Error "Cannot convert object to primitive value".

(** ToString.  An array prints as [join(",")], where [null] and
    [undefined] elements print as nothing and every other element is
    converted in turn.  An object goes through ToPrimitive: without an own
    [toString] it prints as [Object.prototype.toString] has it; an own
    [toString] is a JSON value, hence not callable, and [valueOf] (own and
    not callable, or inherited and returning the object) gives no
    primitive either, so the conversion throws. *)
Fixpoint ToString (v : value) : completion string :=
  match v with
  | VUndefined => Normal "undefined"
  | VNull => Normal "null"
  | VBool b => Normal (if b then "true" else "false")
  | VNum x => Normal (Num.toString x)
  | VStr s => Normal s
  | VArr items =>
      (fix join (l : list value) : completion string :=
         match l with
         | [] => Normal ""
         | x :: rest =>
             match match x with
                   | VUndefined | VNull => Normal ""
                   | _ => ToString x
                   end with
             | Throw e => Throw e
             | Normal sx =>
                 match rest with
                 | [] => Normal sx
                 | _ :: _ =>
                     match join rest with
                     | Throw e => Throw e
                     | Normal sr => Normal (sx ++ "," ++ sr)
                     end
                 end
             end
         end) items
  | VObj fields =>
      if has_own "toString" fields then Throw not_primitive
      else Normal "[object Object]"
  end.

(** The values whose conversion to a string completes, and their text. *)
Definition convertible (v : value) : bool :=
  match ToString v with Normal _ => true | Throw _ => false end.

Definition text_of (v : value) : string :=
  match ToString v with Normal s => s | Throw _ => "" end.

(** *** StringToNumber *)

Definition bytes (s : string) : list N := map N_of_ascii (list_ascii_of_string s).

(** One leading WhiteSpace or LineTerminator code point, in UTF-8:
    TAB LF VT FF CR SP, U+00A0, U+1680, U+2000-200A, U+2028, U+2029,
    U+202F, U+205F, U+3000, U+FEFF. *)
Definition ws_head (l : list N) : option (list N) :=
  match l with
  | (9 | 10 | 11 | 12 | 13 | 32) :: r => Some r
  | 194 :: 160 :: r => Some r
  | 225 :: 154 :: 128 :: r => Some r
  | 226 :: 128 :: c :: r =>
      if ((128 <=? c) && (c <=? 138) || (c =? 168) || (c =? 169) || (c =? 175))
      then Some r else None
  | 226 :: 129 :: 159 :: r => Some r
  | 227 :: 128 :: 128 :: r => Some r
  | 239 :: 187 :: 191 :: r => Some r
  | _ => None
  end%N.

(** The same, read from the end of the reversed string. *)
Definition ws_last (l : list N) : option (list N) :=
  match l with
  | (9 | 10 | 11 | 12 | 13 | 32) :: r => Some r
  | 160 :: 194 :: r => Some r
  | 128 :: 154 :: 225 :: r => Some r
  | c :: 128 :: 226 :: r =>
      if ((128 <=? c) && (c <=? 138) || (c =? 168) || (c =? 169) || (c =? 175))
      then Some r else None
  | 159 :: 129 :: 226 :: r => Some r
  | 128 :: 128 :: 227 :: r => Some r
  | 191 :: 187 :: 239 :: r => Some r
  | _ => None
  end%N.

Fixpoint strip (step : list N -> option (list N)) (fuel : nat) (l : list N)
  : list N :=
  match fuel with
  | O => l
  | S f => match step l with
           | Some r => strip step f r
           | None => l
           end
  end.

Definition trim (l : list N) : list N :=
  let l1 := strip ws_head (List.length l) l in
  rev (strip ws_last (List.length l1) (rev l1)).

(** Value of a digit in a radix up to 16. *)
Definition digit_val (radix c : N) : option N :=
  let v :=
    if ((48 <=? c) && (c <=? 57))%N then Some (c - 48)%N
    else if ((97 <=? c) && (c <=? 102))%N then Some (c - 87)%N
    else if ((65 <=? c) && (c <=? 70))%N then Some (c - 55)%N
    else None in
  match v with
  | Some n => if (n <? radix)%N then Some n else None
  | None => None
  end.

(** Reads the longest run of digits: its value, its length, the rest. *)
Fixpoint digits (radix : N) (l : list N) (acc : N) (len : nat)
  : N * nat * list N :=
  match l with
  | c :: r =>
      match digit_val radix c with
      | Some n => digits radix r (acc * radix + n)%N (S len)
      | None => (acc, len, l)
      end
  | [] => (acc, len, l)
  end.

(** A literal of the form [0x..], [0o..] or [0b..]. *)
Definition radix_literal (radix : N) (l : list N) : Num.number :=
  match digits radix l 0%N 0 with
  | (n, S _, []) => Num.of_Z (Z.of_N n)
  | _ => S754_nan
  end.

Definition signed (neg : bool) (x : Num.number) : Num.number :=
  if neg then SFopp x else x.

(** The double nearest to [m * 10^p].  Beyond 10^400 and below 10^-400
    the answer is already Infinity and 0, whatever the digits. *)
Definition decimal_value (m : N) (p : Z) : Num.number :=
  match m with
  | N0 => S754_zero false
  | Npos q =>
      let mag := (Z.of_nat (String.length (Str.dec m)) + p)%Z in
      if (400 <? mag)%Z then S754_infinity false
      else if (mag <? -400)%Z then S754_zero false
      else Num.of_decimal q p
  end.

(** ExponentPart, if any; nothing may follow it. *)
Definition exponent_part (l : list N) : option Z :=
  match l with
  | [] => Some 0%Z
  | (101 | 69) :: r =>
      let '(neg, r') :=
        match r with
        | 43 :: r' => (false, r')
        | 45 :: r' => (true, r')
        | _ => (false, r)
        end in
      match digits 10 r' 0%N 0 with
      | (n, S _, []) => Some (if neg then (- Z.of_N n)%Z else Z.of_N n)
      | _ => None
      end
  | _ => None
  end%N.

(** StrUnsignedDecimalLiteral without the [Infinity] case. *)
Definition unsigned_decimal (l : list N) : Num.number :=
  let '(ip, ilen, r1) := digits 10 l 0%N 0 in
  let '(fp, flen, r2) :=
    match r1 with
    | 46%N :: r => digits 10 r ip 0
    | _ => (ip, O, r1)
    end in
  match ilen, flen with
  | O, O => S754_nan
  | _, _ =>
      match exponent_part r2 with
      | Some ex => decimal_value fp (ex - Z.of_nat flen)
      | None => S754_nan
      end
  end.

Definition infinity_bytes : list N := bytes "Infinity".

Definition list_N_eqb (a b : list N) : bool :=
  (List.length a =? List.length b)%nat &&
  forallb (fun '(x, y) => (x =? y)%N) (combine a b).

Definition signed_decimal (neg : bool) (l : list N) : Num.number :=
  if list_N_eqb l infinity_bytes then S754_infinity neg
  else signed neg (unsigned_decimal l).

Definition StringToNumber (s : string) : Num.number :=
  match trim (bytes s) with
  | [] => S754_zero false
  | 48 :: (120 | 88) :: r => radix_literal 16 r
  | 48 :: (111 | 79) :: r => radix_literal 8 r
  | 48 :: (98 | 66) :: r => radix_literal 2 r
  | 43 :: r => signed_decimal false r
  | 45 :: r => signed_decimal true r
  | l => signed_decimal false l
  end%N.

(** ToNumber.  Arrays and objects go through ToPrimitive: [valueOf]
    gives no primitive, so the number is read from their [toString()],
    and the conversion throws where that one does. *)
Definition ToNumber (v : value) : completion Num.number :=
  match v with
  | VUndefined => Normal S754_nan
  | VNull => Normal (S754_zero false)
  | VBool b => Normal (if b then Num.of_Z 1 else S754_zero false)
  | VNum x => Normal x
  | VStr s => Normal (StringToNumber s)
  | VArr _ | VObj _ =>
      and_then (ToString v) (fun s => Normal (StringToNumber s))
  end.

(** *** Property access *)

(** A canonical array index: the decimal numeral of a natural number. *)
Definition array_index (key : string) : option nat :=
  match NilZero.uint_of_string key with
  | Some u =>
      let n := N.of_uint u in
      if Str.dec n =? key then Some (N.to_nat n) else None
  | None => None
  end.

Fixpoint lookup (key : string) (fields : list (string * value)) : value :=
  match fields with
  | [] => VUndefined
  | (k, v) :: rest => if k =? key then v else lookup key rest
  end.

(** Strings are UTF-8 here and UTF-16 in the engine: a lead byte below
    0xF0 starts one code unit, a lead byte from 0xF0 two (a surrogate
    pair), a continuation byte none. *)
Definition units_of_byte (b : N) : nat :=
  if (b <? 128)%N then 1
  else if (b <? 192)%N then 0
  else if (b <? 240)%N then 1
  else 2.

Definition utf16_length (s : string) : nat :=
  list_sum (map units_of_byte (bytes s)).

Definition string_of_bytes (l : list N) : string :=
  string_of_list_ascii (map ascii_of_N l).

(** A code unit on its own, written as three bytes (lone surrogates
    included). *)
Definition unit_bytes (u : N) : list N :=
  [224 + u / 4096; 128 + (u / 64) mod 64; 128 + u mod 64]%N.

(** The code unit at index [i], as a one-unit string. *)
Fixpoint unit_at (l : list N) (i : nat) : value :=
  match l with
  | [] => VUndefined
  | b :: r =>
      if (b <? 128)%N then
        match i with O => VStr (string_of_bytes [b]) | S j => unit_at r j end
      else if (b <? 192)%N then unit_at r i
      else if (b <? 224)%N then
        match i with O => VStr (string_of_bytes (b :: firstn 1 r)) | S j => unit_at r j end
      else if (b <? 240)%N then
        match i with O => VStr (string_of_bytes (b :: firstn 2 r)) | S j => unit_at r j end
      else
        let cp := ((b mod 8) * 262144 + (nth 0 r 0 mod 64) * 4096 +
                   (nth 1 r 0 mod 64) * 64 + nth 2 r 0 mod 64 - 65536)%N in
        match i with
        | O => VStr (string_of_bytes (unit_bytes (55296 + cp / 1024)))
        | S O => VStr (string_of_bytes (unit_bytes (56320 + cp mod 1024)))
        | S (S j) => unit_at r j
        end
  end.

(** [v.key] and [v[key]] for the property names this module reads (data
    fields, [length], array indices): none of them lives on a prototype,
    so only own properties matter.  Reading a property of [undefined] or
    [null] throws a TypeError (message as V8 words it). *)
Definition get (v : value) (key : string) : completion value :=
  match v with
  | VUndefined =>
      Throw (Error ("Cannot read properties of undefined (reading '" ++ key ++ "')"))
  | VNull =>
      Throw (Error ("Cannot read properties of null (reading '" ++ key ++ "')"))
  | VBool _ | VNum _ => Normal VUndefined
  | VStr s =>
      if key =? "length" then Normal (VNum (Num.of_nat (utf16_length s)))
      else match array_index key with
           | Some i => Normal (unit_at (bytes s) i)
           | None => Normal VUndefined
           end
  | VArr items =>
      if key =? "length" then Normal (VNum (Num.of_nat (List.length items)))
      else match array_index key with
           | Some i => Normal (nth i items VUndefined)
           | None => Normal VUndefined
           end
  | VObj fields => Normal (lookup key fields)
  end.

(** Member access with a computed Number index, as in
    [videos[videos.length - 1]]: the key is [ToString(i)]. *)
Definition get_at (v : value) (i : Num.number) : completion value :=
  get v (Num.toString i).

(** [v === "s"] and [v === x] against a literal. *)
Definition is_string (v : value) (s : string) : bool :=
  match v with VStr s' => s' =? s | _ => false end.

Definition is_number (v : value) (x : Num.number) : bool :=
  match v with VNum y => Num.eqb y x | _ => false end.

(** [v > 0]: the right operand is a Number, so both sides go through
    ToNumber. *)
Definition gt_zero (v : value) : completion bool :=
  and_then (ToNumber v) (fun n => Normal (Num.ltb (Num.of_Z 0) n)).

(** [v - 1] *)
Definition minus_one (v : value) : completion Num.number :=
  and_then (ToNumber v) (fun n => Normal (Num.sub n (Num.of_Z 1))).

(** [v?.key] *)
Definition get_optional (v : value) (key : string) : completion value :=
  match v with
  | VUndefined | VNull => Normal VUndefined
  | _ => get v key
  end.

(** [a || b] *)
Definition or_else (a b : value) : value := if truthy a then a else b.

Definition isArray (v : value) : bool :=
  match v with VArr _ => true | _ => false end.

(** An engine's arrays hold fewer than 2^32 elements. *)
Definition array_length_ok (l : list value) : Prop :=
  (Z.of_nat (List.length l) < 2 ^ 32)%Z.

End Js.

(* ------------------------------------------------------------------ *)
(** ** Running a method: completions, the trace, the outside world *)

Module Run.
Import Js.

(** [msg.key]: the two fields the module reads. *)
Record msg_key := { fromMe : value; remoteJid : value }.

(** The message object the host bot hands to a command. *)
Record message := { key : msg_key }.

(** The object given to [bot.sendMessage]: the buffer sits under the key
    [video], [audio] or [image]. *)
Inductive media_kind := video | audio | image.

Record media_message := {
  kind : media_kind;
  buffer : list N;
  caption : value;
  mimetype : string }.

(** The object given to [bot.sock.sendMessage]. *)
Record text_message := { text : string; edit : msg_key }.

(** What a run leaves behind: the calls that go out of the module
    ([fetch], the two [sendMessage], [console.error]), and marks at the
    entry of [_fetchDownload] and at the entry and exit of
    [_downloadAndSendMedia], by which their calls are counted. *)
Inductive event :=
| Fetch (url : string)
| SockSendMessage (jid : value) (m : text_message)
| BotSendMessage (jid : value) (m : media_message)
| ConsoleError (label : string) (e : exn)
| Enter_fetchDownload (endpoint : string) (url : value)
| Enter_downloadAndSendMedia (mediaUrl caption type : value)
| Leave_downloadAndSendMedia (result : string).

Definition trace := list event.

(** A [Response]: [ok] is derived from the status; [json()] and
    [arrayBuffer()] may reject. *)
Record response := {
  status : Z;
  json : completion value;
  arrayBuffer : completion (list N) }.

Definition ok (r : response) : bool :=
  ((200 <=? status r) && (status r <=? 299))%Z.

(** The outside world answers each call, knowing all that happened
    before it. *)
Record world := {
  on_fetch : trace -> string -> completion response;
  on_sock_send : trace -> value -> text_message -> completion unit;
  on_bot_send : trace -> value -> media_message -> completion unit }.

(** An async method: from the trace so far to a completion and the
    extended trace.  One invocation runs its awaits in sequence. *)
Definition M (A : Type) : Type := trace -> completion A * trace.

Definition ret {A} (a : A) : M A := fun t => (Normal a, t).

Definition throw {A} (e : exn) : M A := fun t => (Throw e, t).

Definition lift {A} (c : completion A) : M A := fun t => (c, t).

Definition bind {A B} (m : M A) (k : A -> M B) : M B :=
  fun t =>
    match m t with
    | (Normal a, t') => k a t'
    | (Throw e, t') => (Throw e, t')
    end.

(** [try { m } catch (error) { h error }] *)
Definition try_catch {A} (m : M A) (h : exn -> M A) : M A :=
  fun t =>
    match m t with
    | (Normal a, t') => (Normal a, t')
    | (Throw e, t') => h e t'
    end.

Definition emit (e : event) : M unit := fun t => (Normal tt, (t ++ [e])%list).

Definition call {A} (e : event) (answer : trace -> completion A) : M A :=
  fun t => (answer t, (t ++ [e])%list).

Declare Scope run_scope.
Delimit Scope run_scope with run.
Notation "x <- m ;; k" := (bind m (fun x => k))
  (at level 61, m at next level, right associativity) : run_scope.
Notation "m ;; k" := (bind m (fun _ => k))
  (at level 61, right associativity) : run_scope.

(** Chained member access [v.k1.k2...], left to right. *)
Fixpoint path (v : value) (keys : list string) : completion value :=
  match keys with
  | [] => Normal v
  | k :: rest =>
      match get v k with
      | Normal v' => path v' rest
      | Throw e => Throw e
      end
  end.

Section World.
Variable w : world.

(** The global [fetch]: its argument is turned into a string first, and
    when that conversion throws the promise rejects with no request
    made. *)
Definition fetch (url : value) : M response :=
  bind (lift (ToString url))
       (fun s => call (Fetch s) (fun t => on_fetch w t s)).

Definition sock_sendMessage (jid : value) (m : text_message) : M unit :=
  call (SockSendMessage jid m) (fun t => on_sock_send w t jid m).

Definition bot_sendMessage (jid : value) (m : media_message) : M unit :=
  call (BotSendMessage jid m) (fun t => on_bot_send w t jid m).

Definition console_error (label : string) (e : exn) : M unit :=
  emit (ConsoleError label e).
End World.

(** The calls of the fetch client and of the media relay in a trace. *)
Definition fetchDownload_calls (t : trace) : list (string * value) :=
  flat_map (fun e => match e with
                     | Enter_fetchDownload ep u => [(ep, u)]
                     | _ => []
                     end) t.

Definition relay_calls (t : trace) : list (value * value * value) :=
  flat_map (fun e => match e with
                     | Enter_downloadAndSendMedia u c k => [(u, c, k)]
                     | _ => []
                     end) t.

Definition relay_results (t : trace) : list string :=
  flat_map (fun e => match e with
                     | Leave_downloadAndSendMedia r => [r]
                     | _ => []
                     end) t.

Definition network_calls (t : trace) : list string :=
  flat_map (fun e => match e with Fetch u => [u] | _ => [] end) t.

Definition sent_media (t : trace) : list media_message :=
  flat_map (fun e => match e with BotSendMessage _ m => [m] | _ => [] end) t.

(** *** Properties of runs *)

(** What a run adds to the trace. *)
Definition extends {A} (m : M A) (P : completion A -> trace -> Prop) : Prop :=
  forall t, exists d, m t = (fst (m t), (t ++ d)%list) /\ P (fst (m t)) d.

Definition no_relay (d : trace) : Prop :=
  relay_calls d = [] /\ relay_results d = [].

(** The run leaves the media relay alone. *)
Definition silent {A} (m : M A) : Prop := extends m (fun _ d => no_relay d).

(** *** Assumptions on the world *)

(** Every fetch of [url] fails: the promise rejects or the status is not
    2xx. *)
Definition fetch_fails (w : world) (url : string) : Prop :=
  forall h, match on_fetch w h url with
            | Throw _ => True
            | Normal r => ok r = false
            end.

(** Every fetch of [url] answers with a 2xx status and the JSON body
    [result]. *)
Definition api_answers (w : world) (url : string) (result : value) : Prop :=
  forall h, exists r,
    on_fetch w h url = Normal r /\ ok r = true /\ json r = Normal result.

(** The processing notice, when one is due, is delivered. *)
Definition notice_ok (w : world) (msg : message) : Prop :=
  truthy (fromMe (key msg)) = true ->
  forall h m, on_sock_send w h (remoteJid (key msg)) m = Normal tt.

End Run.

(* ------------------------------------------------------------------ *)
(** ** The class DownloaderModule *)

Module Downloader.
Import Js Run.
Local Open Scope run_scope.

Definition nl : string := String "010" EmptyString.

Definition apiBaseUrl : string := "https://delirius-apiofc.vercel.app/download".

(** [_convertMiles(num)]; [Number(num)] may throw. *)
Definition _convertMiles (num : value) : completion value :=
  and_then (ToNumber num) (fun number =>
  Normal
    (if Num.isNaN number then num
     else if Num.ltb number (Num.of_Z 1000) then VStr (Num.toString number)
     else if Num.ltb number (Num.of_Z 1000000) then
       VStr (Num.toFixed1 (Num.div number (Num.of_Z 1000)) ++ "k")
     else VStr (Num.toFixed1 (Num.div number (Num.of_Z 1000000)) ++ "M"))).

(** The text [_convertMiles(num)] contributes to a caption, for a [num]
    that converts. *)
Definition miles_text (num : value) : string :=
  match and_then (_convertMiles num) ToString with
  | Normal s => s
  | Throw _ => ""
  end.

(** [params[i]] *)
Definition param (params : list string) (i : nat) : value :=
  match nth_error params i with
  | Some s => VStr s
  | None => VUndefined
  end.

(** [v.k1.k2...] inside a method. *)
Definition read (v : value) (keys : list string) : M value :=
  lift (path v keys).

(** A substitution of a template literal, [${v}], and one that goes
    through the formatter, [${this._convertMiles(v)}]. *)
Definition interpolate (v : value) : M string := lift (ToString v).

Definition interpolate_miles (v : value) : M string :=
  lift (and_then (_convertMiles v) ToString).

(** The request URL of [_fetchDownload], when the target can be
    encoded. *)
Definition api_url (endpoint url : string) : completion string :=
  match Str.encodeURIComponent url with
  | Some query => Normal (apiBaseUrl ++ "/" ++ endpoint ++ "?url=" ++ query)
  | None => Throw (Error "URI malformed")
  end.

(** The API answers the request for [url] at [endpoint] with the JSON
    body [result]. *)
Definition api_serves (w : world) (endpoint url : string) (result : value)
  : Prop :=
  forall request,
    api_url endpoint url = Normal request -> api_answers w request result.

(** [url.includes(pat)] *)
Definition call_includes (v : value) (pat : string) : M bool :=
  match v with
  | VStr s => ret (Str.includes pat s)
  | VArr items => ret (existsb (fun x => is_string x pat) items)
  | VUndefined | VNull =>
      lift (match get v "includes" with
            | Normal _ => Normal false
            | Throw e => Throw e
            end)
  | _ => throw (Error "url.includes is not a function")
  end.

(** [data.description.split(sep)[0]] *)
Definition call_split_head (v : value) (sep : string) : M string :=
  match v with
  | VStr s => ret (Str.split_head sep s)
  | VUndefined | VNull =>
      lift (match get v "split" with
            | Normal _ => Normal ""
            | Throw e => Throw e
            end)
  | _ => throw (Error "data.description.split is not a function")
  end.

Section Methods.
Variable w : world.

(** [_fetchDownload(endpoint, url)] *)
Definition _fetchDownload (endpoint : string) (url : value) : M value :=
  emit (Enter_fetchDownload endpoint url) ;;
  target <- interpolate url ;;
  apiUrl <- lift (api_url endpoint target) ;;
  response <- fetch w (VStr apiUrl) ;;
  if negb (ok response) then
    throw (Error ("API request failed with status " ++
                  Num.toString (Num.of_Z (status response))))
  else lift (json response).

(** The body of the [try] block of [_downloadAndSendMedia]. *)
Definition send_media (msg : message) (mediaUrl caption type : value)
  : M string :=
  response <- fetch w mediaUrl ;;
  if negb (ok response) then
    throw (Error ("Failed to fetch media: " ++
                  Num.toString (Num.of_Z (status response))))
  else
    bufferData <- lift (arrayBuffer response) ;;
    message <-
      (if is_string type "video" then
         ret {| kind := video; buffer := bufferData;
                caption := caption; mimetype := "video/mp4" |}
       else if is_string type "audio" then
         ret {| kind := audio; buffer := bufferData;
                caption := caption; mimetype := "audio/mpeg" |}
       else if is_string type "image" then
         ret {| kind := image; buffer := bufferData;
                caption := caption; mimetype := "image/jpeg" |}
       else throw (Error "Unsupported media type")) ;;
    bot_sendMessage w (remoteJid (key msg)) message ;;
    ret "".

(** The string the [catch] block of [_downloadAndSendMedia] returns,
    when the caption and the URL convert. *)
Definition fallback (mediaUrl caption : value) : completion string :=
  and_then (ToString caption) (fun caption_text =>
  and_then (ToString mediaUrl) (fun url_text =>
  Normal (caption_text ++ nl ++ nl ++
          "*Failed to send media, here's the URL instead:* " ++ url_text))).

(** [_downloadAndSendMedia(msg, mediaUrl, caption, type)] *)
Definition _downloadAndSendMedia (msg : message)
    (mediaUrl caption type : value) : M string :=
  emit (Enter_downloadAndSendMedia mediaUrl caption type) ;;
  r <- try_catch
         (send_media msg mediaUrl caption type)
         (fun error =>
            kind_text <- interpolate type ;;
            console_error ("Error sending " ++ kind_text ++ ":") error ;;
            lift (fallback mediaUrl caption)) ;;
  emit (Leave_downloadAndSendMedia r) ;;
  ret r.

(** The processing notice, sent only when the message is the owner's. *)
Definition notify_owner (msg : message) (platform : string) : M unit :=
  if truthy (fromMe (key msg)) then
    sock_sendMessage w (remoteJid (key msg))
      {| text := "⏳ *Processing " ++ platform ++ " Download...*" ++ nl ++ nl ++
                 "🔄 Working on your request...";
         edit := key msg |}
  else ret tt.

(** [downloadTikTok(msg, params)] *)
Definition downloadTikTok (msg : message) (params : list string) : M string :=
  let url := param params 0 in
  if negb (truthy url) then ret "Please provide a TikTok URL." else
  notify_owner msg "TikTok" ;;
  result <- _fetchDownload "tiktok" url ;;
  data <- read result ["data"] ;;
  nickname <- read data ["author"; "nickname"] ;;
  nickname <- interpolate nickname ;;
  username <- read data ["author"; "username"] ;;
  username <- interpolate username ;;
  duration <- read data ["duration"] ;;
  duration <- interpolate duration ;;
  repro <- read data ["repro"] ;;
  repro <- interpolate_miles repro ;;
  like <- read data ["like"] ;;
  like <- interpolate_miles like ;;
  share <- read data ["share"] ;;
  share <- interpolate_miles share ;;
  comment <- read data ["comment"] ;;
  comment <- interpolate_miles comment ;;
  download <- read data ["download"] ;;
  download <- interpolate_miles download ;;
  music_title <- read data ["music"; "title"] ;;
  music_title <- interpolate music_title ;;
  music_author <- read data ["music"; "author"] ;;
  music_author <- interpolate music_author ;;
  music_duration <- read data ["music"; "duration"] ;;
  music_duration <- interpolate music_duration ;;
  let caption :=
    "╭  ✦ TikTok Download ✦  ╮" ++ nl ++ nl ++
    "*◦ Name:* " ++ nickname ++ nl ++
    "*◦ Username:* " ++ username ++ nl ++
    "*◦ Duration:* " ++ duration ++ "s" ++ nl ++
    "*◦ Plays:* " ++ repro ++ nl ++
    "*◦ Likes:* " ++ like ++ nl ++
    "*◦ Shares:* " ++ share ++ nl ++
    "*◦ Comments:* " ++ comment ++ nl ++
    "*◦ Downloads:* " ++ download ++ nl ++ nl ++
    "╭  ✦ Music Info ✦  ╮" ++ nl ++ nl ++
    "*◦ Music:* " ++ music_title ++ nl ++
    "*◦ Author:* " ++ music_author ++ nl ++
    "*◦ Duration:* " ++ music_duration ++ "s" in
  hd <- read data ["meta"; "media"; "0"; "hd"] ;;
  mediaUrl <- (if truthy hd then ret hd
               else read data ["meta"; "media"; "0"; "org"]) ;;
  _downloadAndSendMedia msg mediaUrl (VStr caption) (VStr "video") ;;
  ret "".

(** The callback of [media.forEach] in [downloadInstagram], run over
    the items in order; each substitution of the line is read and
    converted before the next one. *)
Fixpoint instagram_lines (items : list value) (index : nat)
    (responseText : string) : completion string :=
  match items with
  | [] => Normal responseText
  | item :: rest =>
      let label := Num.toString (Num.add (Num.of_nat index) (Num.of_Z 1)) in
      and_then (get item "type") (fun type =>
      and_then (ToString type) (fun type =>
      and_then (get item "url") (fun url =>
      and_then (ToString url) (fun url =>
      instagram_lines rest (S index)
        (responseText ++ "*› Media " ++ label ++
         " [" ++ type ++ "]:* " ++ url ++ nl)))))
  end.

(** [downloadInstagram(msg, params)] *)
Definition downloadInstagram (msg : message) (params : list string)
  : M string :=
  let url := param params 0 in
  if negb (truthy url) then ret "Please provide an Instagram URL." else
  notify_owner msg "Instagram" ;;
  stories <- call_includes url "/stories/" ;;
  let endpoint := if stories : bool then "igstories" else "instagram" in
  result <- _fetchDownload endpoint url ;;
  media <- read result ["data"] ;;
  let responseText := "*亗 I N S T A G R A M*" ++ nl ++ nl in
  match media with
  | VArr items => lift (instagram_lines items 0 responseText)
  | VUndefined | VNull => _ <- read media ["forEach"] ;; ret responseText
  | _ => throw (Error "media.forEach is not a function")
  end.

(** [downloadSoundCloud(msg, params)] *)
Definition downloadSoundCloud (msg : message) (params : list string)
  : M string :=
  let url := param params 0 in
  if negb (truthy url) then ret "Please provide a SoundCloud URL." else
  notify_owner msg "SoundCloud" ;;
  result <- _fetchDownload "soundcloud" url ;;
  res <- read result ["data"] ;;
  title <- read res ["title"] ;;
  title <- interpolate title ;;
  author <- read res ["author"] ;;
  author <- interpolate author ;;
  playbacks <- read res ["playbacks"] ;;
  playbacks <- interpolate_miles playbacks ;;
  likes <- read res ["likes"] ;;
  likes <- interpolate_miles likes ;;
  comments <- read res ["comments"] ;;
  comments <- interpolate_miles comments ;;
  let caption :=
    "╭  ✦ Soundcloud Download ✦  ╮" ++ nl ++ nl ++
    "*◦ Title:* " ++ title ++ nl ++
    "*◦ Artist:* " ++ author ++ nl ++
    "*◦ Plays:* " ++ playbacks ++ nl ++
    "*◦ Likes:* " ++ likes ++ nl ++
    "*◦ Comments:* " ++ comments in
  download <- read res ["download"] ;;
  _downloadAndSendMedia msg download (VStr caption) (VStr "audio") ;;
  ret "".

(** [!result.urls || !Array.isArray(result.urls) ||
     result.urls.length === 0] *)
Definition no_urls (result : value) : M bool :=
  urls <- read result ["urls"] ;;
  if negb (truthy urls) then ret true
  else if negb (isArray urls) then ret true
  else
    length <- read result ["urls"; "length"] ;;
    ret (is_number length (Num.of_Z 0)).

(** [result.urls[0].hd || result.urls[1]?.sd] *)
Definition facebook_mediaUrl (result : value) : M value :=
  hd <- read result ["urls"; "0"; "hd"] ;;
  if truthy hd then ret hd
  else
    second <- read result ["urls"; "1"] ;;
    lift (get_optional second "sd").

(** [downloadFacebook(msg, params)] *)
Definition downloadFacebook (msg : message) (params : list string)
  : M string :=
  let url := param params 0 in
  if negb (truthy url) then ret "Please provide a Facebook URL." else
  notify_owner msg "Facebook" ;;
  try_catch
    (result <- _fetchDownload "facebook" url ;;
     bad <- no_urls result ;;
     if bad : bool then
       throw (Error "Invalid API response: No media URLs found")
     else
       title <- read result ["title"] ;;
       title <- interpolate (or_else title (VStr "No title available")) ;;
       let caption :=
         "╭  ✦ Facebook video Download ✦  ╮" ++ nl ++ nl ++
         "*◦ Title:* " ++ title in
       mediaUrl <- facebook_mediaUrl result ;;
       if negb (truthy mediaUrl) then
         throw (Error "No valid media URL found in API response")
       else
         _downloadAndSendMedia msg mediaUrl (VStr caption) (VStr "video") ;;
         ret "")
    (fun error =>
       ret ("❌ Failed to download Facebook video: " ++ message_of error)).

(** [media.videos && media.videos.length > 0] *)
Definition has_videos (media : value) : M bool :=
  videos <- read media ["videos"] ;;
  if truthy videos then
    length <- read media ["videos"; "length"] ;;
    lift (gt_zero length)
  else ret false.

(** [downloadTwitter(msg, params)] *)
Definition downloadTwitter (msg : message) (params : list string)
  : M string :=
  let url := param params 0 in
  if negb (truthy url) then ret "Please provide a Twitter/X URL." else
  notify_owner msg "Twitter" ;;
  try_catch
    (result <- _fetchDownload "twitterv2" url ;;
     data <- read result ["data"] ;;
     all_media <- read data ["media"] ;;
     if negb (truthy all_media) then
       ret "This tweet does not contain any media."
     else
     media <- read data ["media"; "0"] ;;
     if negb (truthy media) then
       ret "This tweet does not contain any media."
     else
     username <- read data ["author"; "username"] ;;
     username <- interpolate username ;;
     description <- read data ["description"] ;;
     description0 <- call_split_head description "https://" ;;
     view <- read data ["view"] ;;
     view <- interpolate_miles view ;;
     favorite <- read data ["favorite"] ;;
     favorite <- interpolate_miles favorite ;;
     retweet <- read data ["retweet"] ;;
     retweet <- interpolate_miles retweet ;;
     let caption :=
       "╭  ✦ Twitter Download ✦  ╮" ++ nl ++ nl ++
       "*◦ Author:* @" ++ username ++ nl ++
       "*◦ Description:* " ++ description0 ++ nl ++
       "*◦ Views:* " ++ view ++ nl ++
       "*◦ Likes:* " ++ favorite ++ nl ++
       "*◦ Retweets:* " ++ retweet in
     type <- read media ["type"] ;;
     is_video <- (if is_string type "video" then has_videos media
                  else ret false) ;;
     if is_video : bool then
       videos <- read media ["videos"] ;;
       length <- read media ["videos"; "length"] ;;
       bestVideo <- lift (and_then (minus_one length) (get_at videos)) ;;
       bestUrl <- read bestVideo ["url"] ;;
       _downloadAndSendMedia msg bestUrl (VStr caption) (VStr "video") ;;
       ret ""
     else
     is_photo <- (if is_string type "photo" then
                    image <- read media ["image"] ;; ret (truthy image)
                  else ret false) ;;
     if is_photo : bool then
       image <- read media ["image"] ;;
       _downloadAndSendMedia msg image (VStr caption) (VStr "image") ;;
       ret ""
     else
     is_gif <- (if is_string type "gif" then has_videos media
                else ret false) ;;
     if is_gif : bool then
       gifUrl <- read media ["videos"; "0"; "url"] ;;
       _downloadAndSendMedia msg gifUrl (VStr caption) (VStr "video") ;;
       ret ""
     else ret "Unsupported media type or media not available.")
    (fun error =>
       ret ("❌ Failed to download Twitter media: " ++ message_of error)).

(** [this.commands]: command name and [execute]. *)
Definition handler : Type := message -> list string -> M string.

Definition commands : list (string * handler) :=
  [ ("tiktok", downloadTikTok);
    ("instagram", downloadInstagram);
    ("soundcloud", downloadSoundCloud);
    ("twitter", downloadTwitter);
    ("facebook", downloadFacebook) ].

End Methods.

(** The relay was entered and did not return: its [catch] block raised,
    which, called with a string for [type] as the handlers call it, it
    does only when the fallback string cannot be built. *)
Definition relay_raised (d : trace) : Prop :=
  relay_results d = [] /\
  forall u c k, In (u, c, k) (relay_calls d) ->
    exists e, fallback u c = Throw e.

(** The method never reached the relay, or it returned the empty string,
    or its call of the relay raised. *)
Definition discards (m : M string) : Prop :=
  extends m (fun c d => no_relay d \/ c = Normal "" \/ relay_raised d).

End Downloader.

(* ------------------------------------------------------------------ *)
(** ** Concrete worlds and replies, to run the methods on *)

Module Scenario.
Import Js Run Downloader.

Definition num (z : Z) : value := VNum (Num.of_Z z).

(** A message that is not the owner's: [{key: {fromMe: false}}]. *)
Definition guest_msg : message :=
  {| key := {| fromMe := VBool false; remoteJid := VUndefined |} |}.

(** A world in which every fetch answers 200 with the JSON body [body]
    and three bytes, and every send succeeds. *)
Definition serving (body : value) : world :=
  {| on_fetch := fun _ _ =>
       Normal {| status := 200; json := Normal body;
                 arrayBuffer := Normal [1; 2; 3]%N |};
     on_sock_send := fun _ _ _ => Normal tt;
     on_bot_send := fun _ _ _ => Normal tt |}.

(** A world in which the API answers with [body] and every other fetch
    is refused with status 404. *)
Definition media_missing (api : string) (body : value) : world :=
  {| on_fetch := fun _ url =>
       if url =? api then
         Normal {| status := 200; json := Normal body;
                   arrayBuffer := Normal [] |}
       else
         Normal {| status := 404; json := Throw (Error "Unexpected token");
                   arrayBuffer := Normal [] |};
     on_sock_send := fun _ _ _ => Normal tt;
     on_bot_send := fun _ _ _ => Normal tt |}.

(** The TikTok reply of the scenario. *)
Definition tiktok_reply : value :=
  VObj [("data", VObj [
    ("author", VObj [("nickname", VStr "A"); ("username", VStr "a")]);
    ("duration", num 10);
    ("repro", num 1500);
    ("like", num 200);
    ("share", num 5);
    ("comment", num 3);
    ("download", num 10);
    ("music", VObj [("title", VStr "T"); ("author", VStr "M");
                    ("duration", num 5)]);
    ("meta", VObj [("media", VArr [VObj [("hd", VStr "http://m/hd.mp4")]])])])].

Definition tiktok_caption : string :=
  "╭  ✦ TikTok Download ✦  ╮" ++ nl ++ nl ++
  "*◦ Name:* A" ++ nl ++
  "*◦ Username:* a" ++ nl ++
  "*◦ Duration:* 10s" ++ nl ++
  "*◦ Plays:* 1.5k" ++ nl ++
  "*◦ Likes:* 200" ++ nl ++
  "*◦ Shares:* 5" ++ nl ++
  "*◦ Comments:* 3" ++ nl ++
  "*◦ Downloads:* 10" ++ nl ++ nl ++
  "╭  ✦ Music Info ✦  ╮" ++ nl ++ nl ++
  "*◦ Music:* T" ++ nl ++
  "*◦ Author:* M" ++ nl ++
  "*◦ Duration:* 5s".

(** A Twitter reply whose first media element has the given type and
    two video variants, [a] and [b]. *)
Definition twitter_reply (type : string) : value :=
  VObj [("data", VObj [
    ("author", VObj [("username", VStr "u")]);
    ("description", VStr "hello https://t.co/x");
    ("view", num 1500);
    ("favorite", num 20);
    ("retweet", num 3);
    ("media", VArr [VObj [
       ("type", VStr type);
       ("videos", VArr [VObj [("url", VStr "a")]; VObj [("url", VStr "b")]])]])])].

(** Facebook replies. *)
Definition facebook_reply (urls : list value) : value :=
  VObj [("title", VStr "clip"); ("urls", VArr urls)].

End Scenario.

(* ------------------------------------------------------------------ *)
(** ** What can be observed of a run, and what the replies must offer *)

Module Observe.
Import Js Run Downloader.

(** The messages handed to [bot.sock.sendMessage], to [bot.sendMessage],
    and the errors logged with [console.error], in order. *)
Definition sock_sends (t : trace) : list (value * text_message) :=
  flat_map (fun e => match e with
                     | SockSendMessage j m => [(j, m)]
                     | _ => []
                     end) t.

Definition bot_sends (t : trace) : list (value * media_message) :=
  flat_map (fun e => match e with
                     | BotSendMessage j m => [(j, m)]
                     | _ => []
                     end) t.

Definition logged_errors (t : trace) : list (string * exn) :=
  flat_map (fun e => match e with
                     | ConsoleError l x => [(l, x)]
                     | _ => []
                     end) t.

(** No event of the kind [bad] is added by the run. *)
Definition avoids (bad : event -> bool) {A} (m : M A) : Prop :=
  extends m (fun _ d => forallb (fun e => negb (bad e)) d = true).

Definition is_sock_send (e : event) : bool :=
  match e with SockSendMessage _ _ => true | _ => false end.

(** What the media relay leaves in the trace. *)
Definition is_delivery (e : event) : bool :=
  match e with
  | BotSendMessage _ _ | Enter_downloadAndSendMedia _ _ _
  | Leave_downloadAndSendMedia _ | ConsoleError _ _ => true
  | _ => false
  end.

(** The [type] argument that selects a kind, and the mimetype that goes
    with it. *)
Definition kind_name (k : media_kind) : string :=
  match k with video => "video" | audio => "audio" | image => "image" end.

Definition mimetype_of (k : media_kind) : string :=
  match k with
  | video => "video/mp4"
  | audio => "audio/mpeg"
  | image => "image/jpeg"
  end.

(** Every fetch of [url] answers 2xx with the bytes [b]. *)
Definition serves_bytes (w : world) (url : string) (b : list N) : Prop :=
  forall h, exists r,
    on_fetch w h url = Normal r /\ ok r = true /\ arrayBuffer r = Normal b.

(** Every fetch, of whatever URL, is answered with the status [st]. *)
Definition answers_status (w : world) (st : Z) : Prop :=
  forall h url, exists r, on_fetch w h url = Normal r /\ status r = st.

(** A status outside 200..299 that is a plain non-negative integer. *)
Definition failure_status (st : Z) : Prop :=
  (0 <= st < 200 \/ 299 < st < 2 ^ 53)%Z.

(** The error [_fetchDownload] raises on the status [st]. *)
Definition api_error (st : Z) : exn :=
  Error ("API request failed with status " ++ Str.dec (Z.to_N st)).

(** The name each command puts in its processing notice. *)
Definition platform_of (command : string) : string :=
  if command =? "tiktok" then "TikTok"
  else if command =? "instagram" then "Instagram"
  else if command =? "soundcloud" then "SoundCloud"
  else if command =? "twitter" then "Twitter"
  else "Facebook".

(** The owner's message: [msg.key.fromMe] is truthy. *)
Definition from_owner (msg : message) : Prop :=
  truthy (fromMe (key msg)) = true.

(** The Instagram listing, line by line: [index] counts from 0, the
    label from 1. *)
Fixpoint listing (entries : list (value * value)) (index : nat) : string :=
  match entries with
  | [] => ""
  | (type, url) :: rest =>
      "*› Media " ++ Str.dec (N.of_nat (S index)) ++
      " [" ++ text_of type ++ "]:* " ++ text_of url ++ nl ++
      listing rest (S index)
  end.

(** The [type] and [url] of an item of the Instagram reply, when they can
    be read. *)
Definition entry_of (item : value) : option (value * value) :=
  match get item "type", get item "url" with
  | Normal type, Normal url => Some (type, url)
  | _, _ => None
  end.

Definition soundcloud_caption (title author playbacks likes comments : value)
  : string :=
  "╭  ✦ Soundcloud Download ✦  ╮" ++ nl ++ nl ++
  "*◦ Title:* " ++ text_of title ++ nl ++
  "*◦ Artist:* " ++ text_of author ++ nl ++
  "*◦ Plays:* " ++ miles_text playbacks ++ nl ++
  "*◦ Likes:* " ++ miles_text likes ++ nl ++
  "*◦ Comments:* " ++ miles_text comments.

Definition twitter_caption (username : value) (description : string)
    (view favorite retweet : value) : string :=
  "╭  ✦ Twitter Download ✦  ╮" ++ nl ++ nl ++
  "*◦ Author:* @" ++ text_of username ++ nl ++
  "*◦ Description:* " ++ Str.split_head "https://" description ++ nl ++
  "*◦ Views:* " ++ miles_text view ++ nl ++
  "*◦ Likes:* " ++ miles_text favorite ++ nl ++
  "*◦ Retweets:* " ++ miles_text retweet.

(** [v.k1.k2...] can be read and its value converts to a string. *)
Definition readable (v : value) (keys : list string) : bool :=
  match path v keys with
  | Normal x => convertible x
  | Throw _ => false
  end.


Definition soundcloud_caption_fields : list (list string) :=
  [["title"]; ["author"]; ["playbacks"]; ["likes"]; ["comments"]].

(** The type and the URL of an Instagram entry convert to strings. *)
Definition entry_converts (e : value * value) : bool :=
  convertible (fst e) && convertible (snd e).

(** The characters of a request URL's query value. *)
Definition uri_safe (c : ascii) : bool :=
  Str.uri_unreserved c || Ascii.eqb c "%".

End Observe.

(* ------------------------------------------------------------------ *)
(** ** More worlds and replies *)

Module Cases.
Import Js Run Downloader Scenario.

(** The owner's message in the chat [jid]. *)
Definition owner_msg : message :=
  {| key := {| fromMe := VBool true; remoteJid := VStr "chat@s.whatsapp.net" |} |}.

(** Every fetch answers 200 with [body] and three bytes; the notice is
    delivered; [bot.sendMessage] rejects with [e]. *)
Definition send_refused (body : value) (e : exn) : world :=
  {| on_fetch := fun _ _ =>
       Normal {| status := 200; json := Normal body;
                 arrayBuffer := Normal [1; 2; 3]%N |};
     on_sock_send := fun _ _ _ => Normal tt;
     on_bot_send := fun _ _ _ => Throw e |}.

(** [bot.sock.sendMessage] rejects with [e]; everything else works. *)
Definition notice_refused (body : value) (e : exn) : world :=
  {| on_fetch := fun _ _ =>
       Normal {| status := 200; json := Normal body;
                 arrayBuffer := Normal [1; 2; 3]%N |};
     on_sock_send := fun _ _ _ => Throw e;
     on_bot_send := fun _ _ _ => Normal tt |}.

(** Every fetch is answered with the status [st] and an HTML body. *)
Definition refusing (st : Z) : world :=
  {| on_fetch := fun _ _ =>
       Normal {| status := st; json := Throw (Error "Unexpected token <");
                 arrayBuffer := Normal [] |};
     on_sock_send := fun _ _ _ => Normal tt;
     on_bot_send := fun _ _ _ => Normal tt |}.


Definition soundcloud_reply : value :=
  VObj [("data", VObj [
    ("title", VStr "Song"); ("author", VStr "Band");
    ("playbacks", num 2500000); ("likes", num 1500); ("comments", num 12);
    ("download", VStr "http://m/song.mp3")])].

Definition instagram_reply : value :=
  VObj [("data", VArr [
    VObj [("type", VStr "image"); ("url", VStr "http://m/1.jpg")];
    VObj [("type", VStr "video"); ("url", VStr "http://m/2.mp4")]])].

(** A Twitter reply with the given list of media. *)
Definition twitter_reply_with (media : value) : value :=
  VObj [("data", VObj [
    ("author", VObj [("username", VStr "u")]);
    ("description", VStr "hello https://t.co/x");
    ("view", num 1500);
    ("favorite", num 20);
    ("retweet", num 3);
    ("media", media)])].

Definition twitter_photo : value :=
  VObj [("type", VStr "photo"); ("image", VStr "http://m/p.jpg")].

End Cases.

(* ------------------------------------------------------------------ *)
(** ** Facts about strings *)

Module StrFacts.
Import Str.

Lemma append_nil_r (s : string) : s ++ "" = s.
Proof. induction s as [|c s IH]; simpl; [reflexivity | now rewrite IH]. Qed.

Lemma append_assoc (a b c : string) : (a ++ b) ++ c = a ++ (b ++ c).
Proof. induction a as [|x a IH]; simpl; [reflexivity | now rewrite IH]. Qed.

Lemma prefix_spec (p s : string) :
  prefix p s = true <-> starts_with s p.
Proof.
  revert s; induction p as [|c p IH]; intros s.
  - destruct s; simpl; split; intros; try reflexivity; now eexists.
  - destruct s as [|c' s]; simpl.
    + split; [discriminate | intros [b H]; discriminate].
    + destruct (Ascii.ascii_dec c c') as [->|Hne].
      * rewrite IH. split; intros [b H]; exists b.
        -- simpl. now rewrite H.
        -- simpl in H. now injection H.
      * split; [discriminate | intros [b H]; simpl in H; congruence].
Qed.

(** [includes] decides the substring relation. *)
Lemma includes_spec (pat s : string) :
  includes pat s = true <-> contains s pat.
Proof.
  induction s as [|c s IH].
  - change (includes pat "") with (prefix pat "" || false).
    rewrite orb_false_r, prefix_spec. split.
    + intros [b H]. exists "", b. exact H.
    + intros [a [b H]]. destruct a; simpl in H; [now exists b | discriminate].
  - change (includes pat (String c s))
      with (prefix pat (String c s) || includes pat s).
    rewrite orb_true_iff, prefix_spec, IH. split.
    + intros [[b H] | [a [b H]]].
      * exists "", b. exact H.
      * exists (String c a), b. simpl. now rewrite H.
    + intros [a [b H]]. destruct a as [|c' a]; simpl in H.
      * left. now exists b.
      * right. exists a, b. now injection H.
Qed.

Lemma contains_left (a b : string) : contains (a ++ b) a.
Proof. exists "", b. reflexivity. Qed.

Lemma contains_right (a b : string) : contains (a ++ b) b.
Proof. exists a, "". now rewrite append_nil_r. Qed.

Lemma contains_append_r (a s pat : string) :
  contains s pat -> contains (a ++ s) pat.
Proof.
  intros [x [y H]]. exists (a ++ x), y. now rewrite H, append_assoc.
Qed.

Lemma contains_append_l (s b pat : string) :
  contains s pat -> contains (s ++ b) pat.
Proof.
  intros [x [y H]]. exists x, (y ++ b). now rewrite H, !append_assoc.
Qed.

End StrFacts.

(* ------------------------------------------------------------------ *)
(** ** Facts about numbers: integers below 2^53 are exact *)

Module NumFacts.
Import Js.
Local Open Scope Z_scope.

Lemma digits2_size (p : positive) : digits2_pos p = Pos.size p.
Proof. induction p; simpl; congruence. Qed.

Lemma digits2_log2 (p : positive) : Zpos (digits2_pos p) = Z.log2 (Zpos p) + 1.
Proof.
  rewrite digits2_size. destruct p; simpl; lia.
Qed.

Lemma iter_xO_pow (p k : positive) :
  Zpos (Pos.iter xO p k) = Zpos p * 2 ^ Zpos k.
Proof.
  rewrite <- Z.shiftl_mul_pow2 by lia. simpl.
  apply (Pos.iter_swap_gen _ _ Zpos xO (Z.mul 2)). reflexivity.
Qed.

Lemma iter_pos_iter {A} (f : A -> A) (p : positive) (x : A) :
  iter_pos f p x = Pos.iter f x p.
Proof.
  revert x. induction p as [p IH|p IH|]; intros x; simpl.
  - rewrite !IH, !Pos.iter_swap. reflexivity.
  - rewrite !IH. reflexivity.
  - reflexivity.
Qed.

Lemma shr_1_double (m : Z) :
  0 < m ->
  shr_1 {| shr_m := 2 * m; shr_r := false; shr_s := false |} =
  {| shr_m := m; shr_r := false; shr_s := false |}.
Proof. destruct m; try lia. reflexivity. Qed.

Lemma iter_shr_exact (k : positive) (m : Z) :
  0 < m ->
  iter_pos shr_1 k {| shr_m := m * 2 ^ Zpos k; shr_r := false; shr_s := false |} =
  {| shr_m := m; shr_r := false; shr_s := false |}.
Proof.
  intros Hm. rewrite iter_pos_iter. revert m Hm.
  induction k as [|k IH] using Pos.peano_ind; intros m Hm.
  - cbn [Pos.iter]. replace (m * 2 ^ 1) with (2 * m) by lia.
    now apply shr_1_double.
  - rewrite Pos.iter_succ_r.
    replace (m * 2 ^ Zpos (Pos.succ k)) with (2 * (m * 2 ^ Zpos k)).
    + rewrite shr_1_double by (apply Z.mul_pos_pos; [lia | apply Z.pow_pos_nonneg; lia]).
      now apply IH.
    + rewrite Pos2Z.inj_succ, Z.pow_succ_r by lia. lia.
Qed.

Lemma fexp_small (e : Z) : -1021 <= e -> fexp Num.prec Num.emax e = e - 53.
Proof. intros H. unfold fexp, emin, Num.prec, Num.emax. lia. Qed.

Lemma shl_align_value (p : positive) (e e' : Z) :
  e' <= e -> Zpos (fst (shl_align p e e')) = Zpos p * 2 ^ (e - e').
Proof.
  intros H. unfold shl_align.
  destruct (e' - e) eqn:E; cbn [fst].
  - replace (e - e') with 0 by lia. lia.
  - lia.
  - rewrite iter_xO_pow. f_equal. f_equal. lia.
Qed.

Lemma snd_shl_align (p : positive) (e e' : Z) :
  e' <= e -> snd (shl_align p e e') = e'.
Proof.
  intros H. unfold shl_align.
  destruct (e' - e) eqn:E; cbn [snd]; lia.
Qed.

Lemma shl_align_id (p : positive) (e e' : Z) :
  e <= e' -> shl_align p e e' = (p, e).
Proof.
  intros H. unfold shl_align.
  destruct (e' - e) eqn:E; try reflexivity. lia.
Qed.

Lemma digits_mul_pow2 (p q : positive) (k : Z) :
  0 <= k -> Zpos q = Zpos p * 2 ^ k ->
  Zpos (digits2_pos q) = Zpos (digits2_pos p) + k.
Proof.
  intros Hk H. rewrite !digits2_log2, H, Z.log2_mul_pow2 by lia. lia.
Qed.

(** Rounding a canonical mantissa changes nothing. *)
Lemma round_canonical (s : bool) (m : positive) (e : Z) :
  Zpos (digits2_pos m) = 53 -> -1074 <= e <= 971 ->
  binary_round_aux Num.prec Num.emax s (Zpos m) e loc_Exact = S754_finite s m e.
Proof.
  intros Hd He. unfold binary_round_aux, shr_fexp.
  cbn [Zdigits2 shr_record_of_loc]. rewrite Hd.
  rewrite fexp_small by lia.
  replace (53 + e - 53 - e) with 0 by lia.
  cbn [shr shr_m loc_of_shr_record round_nearest_even Zdigits2 shr_record_of_loc].
  rewrite Hd, fexp_small by lia.
  replace (53 + e - 53 - e) with 0 by lia.
  cbn [shr shr_m].
  unfold Num.emax, Num.prec.
  destruct (Z.leb_spec e (1024 - 53)); [reflexivity | lia].
Qed.

(** Rounding is exact on a value that has a canonical form [m' * 2^e']. *)
Lemma round_exact (s : bool) (m : positive) (e : Z) (m' : positive) (e' : Z) :
  Zpos (digits2_pos m') = 53 -> -1074 <= e' <= 971 ->
  (e' <= e /\ Zpos m' = Zpos m * 2 ^ (e - e')) \/
  (e <= e' /\ Zpos m = Zpos m' * 2 ^ (e' - e)) ->
  binary_round Num.prec Num.emax s m e = S754_finite s m' e'.
Proof.
  intros Hd He Hv. unfold binary_round.
  assert (Hdig : Zpos (digits2_pos m) + e = 53 + e').
  { destruct Hv as [[Hle Hv]|[Hle Hv]].
    - apply digits_mul_pow2 in Hv; lia.
    - apply digits_mul_pow2 in Hv; lia. }
  rewrite Hdig, fexp_small by lia.
  replace (53 + e' - 53) with e' by lia.
  destruct (Z.le_gt_cases e' e) as [Hle|Hgt].
  - (* the mantissa is shifted left, or kept *)
    assert (Hm : fst (shl_align m e e') = m').
    { apply Pos2Z.inj. rewrite shl_align_value by lia.
      destruct Hv as [[_ Hv]|[Hle' Hv]]; [now rewrite Hv|].
      replace e' with e in * by lia. rewrite Z.sub_diag in *. lia. }
    rewrite (surjective_pairing (shl_align m e e')), Hm, snd_shl_align by lia.
    now apply round_canonical.
  - (* the mantissa is shifted right by [e' - e] zero bits *)
    destruct Hv as [[Hle _]|[_ Hv]]; [lia|].
    rewrite shl_align_id by lia.
    unfold binary_round_aux, shr_fexp.
    cbn [Zdigits2 shr_record_of_loc]. rewrite Hdig, fexp_small by lia.
    replace (53 + e' - 53 - e) with (e' - e) by lia.
    destruct (e' - e) as [|k|k] eqn:Ek; try lia.
    unfold shr. rewrite Hv, iter_shr_exact by lia.
    cbn [shr_m loc_of_shr_record round_nearest_even Zdigits2 shr_record_of_loc].
    replace (e + Zpos k) with e' by lia.
    rewrite Hd, fexp_small by lia.
    replace (53 + e' - 53 - e') with 0 by lia.
    cbn [shr_m].
    unfold Num.emax, Num.prec.
    destruct (Z.leb_spec e' (1024 - 53)); [reflexivity | lia].
Qed.

Lemma dbl_digits (p : positive) :
  Zpos (digits2_pos p) <= 53 ->
  Zpos (digits2_pos (fst (shl_align p 0 (Zpos (digits2_pos p) - 53)))) = 53.
Proof.
  intros Hd.
  rewrite (digits_mul_pow2 p _ (0 - (Zpos (digits2_pos p) - 53))).
  - lia.
  - lia.
  - apply shl_align_value. lia.
Qed.

Lemma of_Z_small (p : positive) :
  Zpos (digits2_pos p) <= 53 -> Num.of_Z (Zpos p) = Num.dbl p.
Proof.
  intros Hd. unfold Num.of_Z, binary_normalize, Num.dbl.
  pose proof (Pos2Z.is_pos (digits2_pos p)).
  apply round_exact; [now apply dbl_digits | lia |].
  left. split; [lia|]. rewrite shl_align_value by lia. reflexivity.
Qed.

Lemma bits_bound (p : positive) :
  Zpos p < 2 ^ 53 <-> Zpos (digits2_pos p) <= 53.
Proof.
  rewrite digits2_log2, Z.log2_lt_pow2 by lia. lia.
Qed.

Lemma ltb_zero_dbl (p : positive) : Num.ltb (Num.of_Z 0) (Num.dbl p) = true.
Proof. reflexivity. Qed.

Lemma eqb_dbl_zero (p : positive) : Num.eqb (Num.dbl p) (Num.of_Z 0) = false.
Proof. reflexivity. Qed.

Lemma dbl_one : Num.of_Z 1 = Num.dbl 1.
Proof. reflexivity. Qed.

Lemma pred_bits (p : positive) :
  Zpos (digits2_pos p) <= 53 -> Zpos (digits2_pos (Pos.pred p)) <= 53.
Proof.
  rewrite <- !bits_bound. lia.
Qed.

(** [n - 1] on the double of an integer. *)
Lemma sub_one (p : positive) :
  Zpos (digits2_pos p) <= 53 -> p <> 1%positive ->
  Num.sub (Num.dbl p) (Num.of_Z 1) = Num.dbl (Pos.pred p).
Proof.
  intros Hd Hp.
  pose proof (Pos2Z.is_pos (digits2_pos p)) as Hpos.
  pose proof (Pos2Z.is_pos (digits2_pos (Pos.pred p))) as Hpos'.
  pose proof (pred_bits p Hd) as Hd'.
  rewrite dbl_one. unfold Num.dbl at 1 2, Num.sub, SFsub.
  change (Zpos (digits2_pos 1) - 53) with (-52).
  rewrite Z.min_r by lia.
  change (fst (shl_align 1 0 (-52))) with 4503599627370496%positive.
  rewrite (shl_align_id 4503599627370496 (-52) (-52)) by lia.
  cbn [fst cond_Zopp].
  rewrite !shl_align_value by lia.
  replace (Zpos p * 2 ^ (0 - (Zpos (digits2_pos p) - 53)) *
           2 ^ (Zpos (digits2_pos p) - 53 - -52) - 4503599627370496)
    with (Zpos (Pos.pred p) * 2 ^ 52).
  2: { rewrite <- Z.mul_assoc, <- Z.pow_add_r by lia.
       replace (0 - (Zpos (digits2_pos p) - 53) + (Zpos (digits2_pos p) - 53 - -52))
         with 52 by lia.
       change 4503599627370496 with (2 ^ 52). lia. }
  replace (Zpos (Pos.pred p) * 2 ^ 52) with (Zpos (Pos.pred p * 2 ^ 52)) by lia.
  unfold binary_normalize, Num.dbl.
  apply round_exact; [now apply dbl_digits | lia |].
  right. split; [lia|].
  rewrite shl_align_value by lia.
  rewrite <- Z.mul_assoc, <- Z.pow_add_r by lia.
  replace (0 - (Zpos (digits2_pos (Pos.pred p)) - 53) +
           (Zpos (digits2_pos (Pos.pred p)) - 53 - -52)) with 52 by lia.
  lia.
Qed.

Lemma sub_one_one : Num.sub (Num.dbl 1) (Num.of_Z 1) = S754_zero false.
Proof. reflexivity. Qed.

Lemma integer_of_dbl (p : positive) :
  Zpos (digits2_pos p) <= 53 ->
  Num.integer_of (fst (shl_align p 0 (Zpos (digits2_pos p) - 53)))
                 (Zpos (digits2_pos p) - 53) = Some (Zpos p).
Proof.
  intros Hd. unfold Num.integer_of, Num.exact.
  rewrite shl_align_value by lia.
  pose proof (Pos2Z.is_pos (digits2_pos p)) as Hpos.
  replace (0 - (Zpos (digits2_pos p) - 53)) with (- (Zpos (digits2_pos p) - 53)) by lia.
  set (k := - (Zpos (digits2_pos p) - 53)).
  assert (Hk : 0 <= k) by (unfold k; lia).
  assert (H2 : 0 < 2 ^ k) by (apply Z.pow_pos_nonneg; lia).
  destruct (Z.leb_spec 0 (Zpos (digits2_pos p) - 53)) as [H|H].
  - replace k with 0 by (unfold k; lia).
    replace (Zpos (digits2_pos p) - 53) with 0 by lia.
    change (2 ^ 0) with 1. rewrite !Z.mul_1_r, Z.mod_1_r, Z.div_1_r. reflexivity.
  - rewrite Z.mod_mul, Z.div_mul by lia. reflexivity.
Qed.

Lemma toString_dbl (p : positive) :
  Zpos (digits2_pos p) <= 53 -> Num.toString (Num.dbl p) = Str.dec (Npos p).
Proof.
  intros Hd. unfold Num.dbl, Num.toString, Num.pos_toString.
  rewrite integer_of_dbl by exact Hd.
  apply bits_bound in Hd.
  destruct (Z.ltb_spec (Zpos p) (2 ^ 53)); [reflexivity | lia].
Qed.



Lemma array_index_dec (n : N) : array_index (Str.dec n) = Some (N.to_nat n).
Proof.
  unfold array_index, Str.dec.
  rewrite NilZero.usu.
  - rewrite DecimalN.Unsigned.of_to, String.eqb_refl. reflexivity.
  - destruct n; [discriminate | apply DecimalPos.Unsigned.to_uint_nonnil].
Qed.

Lemma dec_not_length (n : N) : (Str.dec n =? "length")%string = false.
Proof.
  destruct (String.eqb_spec (Str.dec n) "length") as [E|]; [|reflexivity].
  pose proof (array_index_dec n) as H. rewrite E in H. discriminate.
Qed.

Lemma get_index (l : list value) (n : N) :
  get (VArr l) (Str.dec n) = Normal (nth (N.to_nat n) l VUndefined).
Proof.
  unfold get. now rewrite dec_not_length, array_index_dec.
Qed.

Lemma of_nat_dbl (n : nat) :
  (0 < n)%nat -> Z.of_nat n < 2 ^ 53 -> Num.of_nat n = Num.dbl (Pos.of_nat n).
Proof.
  intros Hn Hb. unfold Num.of_nat.
  replace (Z.of_nat n) with (Zpos (Pos.of_nat n)) by lia.
  apply of_Z_small, bits_bound. lia.
Qed.

Lemma nth_last (l : list value) :
  l <> [] -> nth (List.length l - 1) l VUndefined = last l VUndefined.
Proof.
  induction l as [|x [|y l] IH]; intros H; [congruence | reflexivity |].
  replace (List.length (x :: y :: l) - 1)%nat
    with (S (List.length (y :: l) - 1)) by (simpl; lia).
  change (last (x :: y :: l) VUndefined) with (last (y :: l) VUndefined).
  rewrite <- IH by discriminate. reflexivity.
Qed.

(** [l.length > 0] on a non-empty array. *)
Lemma length_gt_zero (l : list value) :
  l <> [] -> array_length_ok l ->
  gt_zero (VNum (Num.of_nat (List.length l))) = Normal true.
Proof.
  intros Hl Hb. unfold array_length_ok in Hb.
  unfold gt_zero, ToNumber, and_then.
  rewrite of_nat_dbl; [now rewrite ltb_zero_dbl | | lia].
  destruct l; [congruence | simpl; lia].
Qed.

(** [l.length === 0] on a non-empty array. *)
Lemma length_not_zero (l : list value) :
  l <> [] -> array_length_ok l ->
  is_number (VNum (Num.of_nat (List.length l))) (Num.of_Z 0) = false.
Proof.
  intros Hl Hb. unfold array_length_ok in Hb. unfold is_number.
  rewrite of_nat_dbl; [apply eqb_dbl_zero | | lia].
  destruct l; [congruence | simpl; lia].
Qed.

(** [l[l.length - 1]] is the last element. *)
Lemma get_last (l : list value) :
  l <> [] -> array_length_ok l ->
  and_then (minus_one (VNum (Num.of_nat (List.length l)))) (get_at (VArr l)) =
  Normal (last l VUndefined).
Proof.
  intros Hl Hb. unfold array_length_ok in Hb.
  unfold minus_one, ToNumber, and_then, get_at.
  assert (Hn : (0 < List.length l)%nat) by (destruct l; [congruence | simpl; lia]).
  rewrite of_nat_dbl by lia.
  assert (Hd : Zpos (digits2_pos (Pos.of_nat (List.length l))) <= 53)
    by (apply bits_bound; lia).
  destruct (Pos.eq_dec (Pos.of_nat (List.length l)) 1) as [E|E].
  - rewrite E, sub_one_one.
    change (Num.toString (S754_zero false)) with (Str.dec 0).
    rewrite get_index, <- nth_last by exact Hl.
    f_equal. f_equal. lia.
  - rewrite sub_one, toString_dbl, get_index, <- nth_last
      by (try apply pred_bits; assumption).
    f_equal. f_equal. lia.
Qed.

(** *** The printing and reading of numbers on known cases *)

(** 0.1, 1/3, 1e21, 1e23, 2^60, 0.1 + 0.2, 4.35, 1e-6, 1e-7, the least
    and the greatest double, -2.5, 2^53, 123456.789. *)
Example toString_samples :
  map Num.toString
    [ Num.div (Num.of_Z 1) (Num.of_Z 10);
      Num.div (Num.of_Z 1) (Num.of_Z 3);
      Num.of_Z (10 ^ 21);
      Num.of_Z (10 ^ 23);
      Num.of_Z (2 ^ 60);
      Num.add (Num.div (Num.of_Z 1) (Num.of_Z 10))
              (Num.div (Num.of_Z 2) (Num.of_Z 10));
      Num.div (Num.of_Z 435) (Num.of_Z 100);
      Num.div (Num.of_Z 1) (Num.of_Z 1000000);
      Num.div (Num.of_Z 1) (Num.of_Z 10000000);
      S754_finite false 1 (-1074);
      S754_finite false 9007199254740991 971;
      Num.div (Num.of_Z (-5)) (Num.of_Z 2);
      Num.of_Z (2 ^ 53);
      Num.div (Num.of_Z 123456789) (Num.of_Z 1000) ] =
    [ "0.1"; "0.3333333333333333"; "1e+21"; "1e+23"; "1152921504606847000";
      "0.30000000000000004"; "4.35"; "0.000001"; "1e-7"; "5e-324";
      "1.7976931348623157e+308"; "-2.5"; "9007199254740992";
      "123456.789" ]%string.
Proof. vm_compute. reflexivity. Qed.

(** On integers below 2^53 the shortest-digits search finds the decimal
    numeral, as [Num.pos_toString] takes for granted: checked here on
    1..300 and on some larger ones. *)
Example shortest_on_integers :
  forallb (fun z =>
             match Num.of_Z z with
             | S754_finite false m e =>
                 (Num.shortest_toString m e =? Str.dec (Z.to_N z))%string
             | _ => false
             end)
    (map Z.of_nat (seq 1 300) ++
     [65536; 123456; 999999; 1000000; 4294967295; 4503599627370496;
      4503599627370497; 9007199254740990; 9007199254740991]) = true.
Proof. vm_compute. reflexivity. Qed.

(** 1.5 and 1.25 are doubles; 1.05 and 1.15 are not, and round as their
    nearest doubles do. *)
Example toFixed1_samples :
  map (fun z => Num.toFixed1 (Num.div (Num.of_Z z) (Num.of_Z 1000)))
    [1500; 1250; 1050; 1150; 999949; 999950; 0; -1; 10 ^ 22; 10 ^ 24] =
    [ "1.5"; "1.3"; "1.1"; "1.1"; "999.9"; "1000.0"; "0.0"; "-0.0";
      "10000000000000000000.0"; "1e+21" ]%string.
Proof. vm_compute. reflexivity. Qed.

Example StringToNumber_samples :
  map (fun s => Num.toString (StringToNumber s))
    [ "1500"; ""; "  12  "; "abc"; "0x1F"; "1e3"; ".5"; "5."; "."; "1e";
      "Infinity"; "-Infinity"; "+1.5e-3"; "1e400"; "12px"; "1_000"; "0b101";
      "1 2"; "9007199254740993"; "4.9e-324"; "2e-324"; "+0x10"; "00012" ]%string =
    [ "1500"; "0"; "12"; "NaN"; "31"; "1000"; "0.5"; "5"; "NaN"; "NaN";
      "Infinity"; "-Infinity"; "0.0015"; "Infinity"; "NaN"; "NaN"; "5";
      "NaN"; "9007199254740992"; "5e-324"; "0"; "NaN"; "12" ]%string.
Proof. vm_compute. reflexivity. Qed.

(** *** [toFixed(1)] and the quotient by a thousand *)

Lemma tenths_nearest (m : positive) (e : Z) :
  0 <= Num.tenths m e /\ Num.nearest_tenth (S754_finite false m e) (Num.tenths m e).
Proof.
  unfold Num.nearest_tenth, Num.tenths, Num.exact.
  destruct (Z.leb_spec 0 e) as [He|He].
  - assert (0 < 2 ^ e) by (apply Z.pow_pos_nonneg; lia). split; nia.
  - assert (Hd : 0 < 2 ^ (- e)) by (apply Z.pow_pos_nonneg; lia).
    set (d := 2 ^ (- e)) in *.
    pose proof (Z.div_mod (20 * Zpos m + d) (2 * d) ltac:(lia)) as Hdm.
    pose proof (Z.mod_pos_bound (20 * Zpos m + d) (2 * d) ltac:(lia)) as Hmod.
    set (t := (20 * Zpos m + d) / (2 * d)) in *.
    split.
    + apply Z.div_pos; lia.
    + nia.
Qed.

Lemma toFixed1_spec (q : Num.number) :
  Num.fixed_range q = true ->
  exists t, 0 <= t /\ Num.nearest_tenth q t /\ Num.toFixed1 q = Num.one_decimal t.
Proof.
  destruct q as [s|s| |[|] m e]; simpl; try discriminate; intros H.
  - exists 0. repeat split; reflexivity || lia.
  - exists (Num.tenths m e).
    destruct (tenths_nearest m e) as [H0 Hn].
    split; [exact H0|]. split; [exact Hn|].
    destruct (Num.ge_1e21 m e); [discriminate | reflexivity].
Qed.

Lemma Zdigits2_log2 (m : Z) : 0 < m -> Zdigits2 m = Z.log2 m + 1.
Proof. destruct m; try lia. intros _. apply digits2_log2. Qed.

Lemma Zdigits2_53 (m : Z) : 2 ^ 52 <= m < 2 ^ 53 -> Zdigits2 m = 53.
Proof.
  intros H. rewrite Zdigits2_log2 by lia.
  rewrite (Z.log2_unique m 52); lia.
Qed.

Lemma Zdigits2_54 (m : Z) : 2 ^ 53 <= m < 2 ^ 54 -> Zdigits2 m = 54.
Proof.
  intros H. rewrite Zdigits2_log2 by lia.
  rewrite (Z.log2_unique m 53); lia.
Qed.

Lemma shr_m_of_loc (m : Z) (l : location) : shr_m (shr_record_of_loc m l) = m.
Proof. destruct l as [|[| |]]; reflexivity. Qed.

Lemma shr_m_shr_1 (mrs : shr_record) :
  0 <= shr_m mrs -> shr_m (shr_1 mrs) = Z.div2 (shr_m mrs).
Proof.
  destruct mrs as [m r s]. simpl. destruct m as [|[p|p|]|p]; try reflexivity; lia.
Qed.

Lemma round_nearest_even_bounds (m : Z) (l : location) :
  m <= round_nearest_even m l <= m + 1.
Proof.
  destruct l as [|[| |]]; simpl; try lia. destruct (Z.even m); lia.
Qed.

(** The second half of [binary_round_aux], on a mantissa of 53 bits or on
    2^53. *)
Lemma round_stage2 (s : bool) (m1 e1 : Z) :
  2 ^ 52 <= m1 <= 2 ^ 53 -> -1074 <= e1 <= 960 ->
  exists m e,
    (let '(mrs, e') := shr_fexp Num.prec Num.emax m1 e1 loc_Exact in
     match shr_m mrs with
     | Z0 => S754_zero s
     | Zpos m => if e' <=? Num.emax - Num.prec then S754_finite s m e'
                 else S754_infinity s
     | Zneg _ => S754_nan
     end) = S754_finite s m e /\
    e1 <= e <= e1 + 1 /\ Zpos m < 2 ^ 53.
Proof.
  intros Hm He. unfold shr_fexp.
  destruct (Z.eq_dec m1 (2 ^ 53)) as [->|Hne].
  - change (Zdigits2 (2 ^ 53)) with 54.
    rewrite fexp_small by lia.
    replace (54 + e1 - 53 - e1) with 1 by lia.
    cbn [shr shr_record_of_loc iter_pos].
    change (shr_1 {| shr_m := 2 ^ 53; shr_r := false; shr_s := false |})
      with {| shr_m := 2 ^ 52; shr_r := false; shr_s := false |}.
    cbn [shr_m]. change (2 ^ 52) with (Zpos 4503599627370496).
    cbv iota. unfold Num.emax, Num.prec.
    destruct (Z.leb_spec (e1 + 1) (1024 - 53)); [|lia].
    eexists _, _. split; [reflexivity|]. split; [lia|]. reflexivity.
  - rewrite Zdigits2_53 by lia.
    rewrite fexp_small by lia.
    replace (53 + e1 - 53 - e1) with 0 by lia.
    cbn [shr shr_record_of_loc shr_m].
    destruct m1 as [|p|p]; try lia.
    unfold Num.emax, Num.prec.
    destruct (Z.leb_spec e1 (1024 - 53)); [|lia].
    eexists _, _. split; [reflexivity|]. split; lia.
Qed.

Lemma round_shape (s : bool) (mz ez : Z) (lz : location) :
  2 ^ 52 <= mz < 2 ^ 54 -> -1074 <= ez <= 900 ->
  exists m e,
    binary_round_aux Num.prec Num.emax s mz ez lz = S754_finite s m e /\
    ez <= e <= ez + 2 /\ Zpos m < 2 ^ 53.
Proof.
  intros Hm He. unfold binary_round_aux.
  destruct (Z.lt_ge_cases mz (2 ^ 53)) as [Hlt|Hge].
  - (* 53 bits: no first shift *)
    unfold shr_fexp at 1. rewrite Zdigits2_53 by lia.
    rewrite fexp_small by lia.
    replace (53 + ez - 53 - ez) with 0 by lia.
    cbn [shr].
    rewrite shr_m_of_loc.
    pose proof (round_nearest_even_bounds mz
                  (loc_of_shr_record (shr_record_of_loc mz lz))) as Hr.
    destruct (round_stage2 s (round_nearest_even mz
                (loc_of_shr_record (shr_record_of_loc mz lz))) ez
                ltac:(lia) ltac:(lia)) as [m [e [E [He' Hm']]]].
    exists m, e. split; [exact E|]. split; lia.
  - (* 54 bits: one first shift *)
    unfold shr_fexp at 1. rewrite Zdigits2_54 by lia.
    rewrite fexp_small by lia.
    replace (54 + ez - 53 - ez) with 1 by lia.
    cbn [shr iter_pos].
    assert (H0 : shr_m (shr_1 (shr_record_of_loc mz lz)) = Z.div2 mz).
    { rewrite shr_m_shr_1; rewrite shr_m_of_loc; [reflexivity | lia]. }
    rewrite H0.
    assert (Hd : 2 ^ 52 <= Z.div2 mz < 2 ^ 53).
    { rewrite Z.div2_div. split.
      - apply Z.div_le_lower_bound; lia.
      - apply Z.div_lt_upper_bound; lia. }
    pose proof (round_nearest_even_bounds (Z.div2 mz)
                  (loc_of_shr_record (shr_1 (shr_record_of_loc mz lz)))) as Hr.
    destruct (round_stage2 s (round_nearest_even (Z.div2 mz)
                (loc_of_shr_record (shr_1 (shr_record_of_loc mz lz)))) (ez + 1)
                ltac:(lia) ltac:(lia)) as [m [e [E [He' Hm']]]].
    exists m, e. split; [exact E|]. split; lia.
Qed.

Lemma div_thousand (mx : positive) (ex : Z) :
  Zpos (digits2_pos mx) = 53 -> -43 <= ex <= -33 ->
  Num.fixed_range (Num.div (S754_finite false mx ex) (Num.of_Z 1000)) = true.
Proof.
  intros Hd He.
  change (Num.of_Z 1000) with (S754_finite false 8796093022208000 (-43)).
  unfold Num.div, SFdiv, SFdiv_core_binary.
  cbn [Zdigits2 xorb]. rewrite Hd.
  change (Zpos (digits2_pos 8796093022208000)) with 53.
  replace (53 + ex - (53 + -43)) with (ex + 43) by lia.
  rewrite fexp_small by lia.
  rewrite Z.min_l by lia.
  replace (ex - -43 - (ex + 43 - 53)) with 53 by lia.
  cbv iota.
  rewrite Z.shiftl_mul_pow2 by lia.
  assert (Hmx : 2 ^ 52 <= Zpos mx < 2 ^ 53).
  { rewrite digits2_log2 in Hd.
    pose proof (Z.log2_spec (Zpos mx) ltac:(lia)) as Hs.
    replace (Z.log2 (Zpos mx)) with 52 in Hs by lia. exact Hs. }
  pose proof (Z.div_eucl_eq (Zpos mx * 2 ^ 53) (Zpos 8796093022208000)
                ltac:(lia)) as Heq.
  pose proof (Z.mod_pos_bound (Zpos mx * 2 ^ 53) (Zpos 8796093022208000)
                ltac:(lia)) as Hmod.
  unfold Z.modulo in Hmod.
  destruct (Z.div_eucl (Zpos mx * 2 ^ 53) (Zpos 8796093022208000)) as [q r].
  assert (Hq : 2 ^ 52 <= q < 2 ^ 54) by (change (2 ^ 52) with 4503599627370496 in *;
    change (2 ^ 53) with 9007199254740992 in *;
    change (2 ^ 54) with 18014398509481984; lia).
  destruct (round_shape false q (ex + 43 - 53)
              (new_location (Zpos 8796093022208000) r) Hq ltac:(lia))
    as [m [e [E [Hee Hm]]]].
  rewrite E. unfold Num.fixed_range, Num.ge_1e21, Num.exact.
  destruct (Z.leb_spec 0 e); [lia|].
  apply negb_true_iff, Z.leb_gt.
  assert (2 ^ 41 <= 2 ^ (- e)) by (apply Z.pow_le_mono_r; lia).
  change (2 ^ 41) with 2199023255552 in *.
  change (2 ^ 53) with 9007199254740992 in *.
  change (10 ^ 21) with 1000000000000000000000. lia.
Qed.

Lemma thousands_range (x : Num.number) :
  valid_binary Num.prec Num.emax x = true ->
  Num.ltb x (Num.of_Z 1000) = false ->
  Num.ltb x (Num.of_Z 1000000) = true ->
  exists mx ex, x = S754_finite false mx ex /\
                Zpos (digits2_pos mx) = 53 /\ -43 <= ex <= -33.
Proof.
  change (Num.of_Z 1000) with (S754_finite false 8796093022208000 (-43)).
  change (Num.of_Z 1000000) with (S754_finite false 8589934592000000 (-33)).
  unfold Num.ltb, SFltb.
  destruct x as [s|[|]| |[|] m e]; cbn [SFcompare]; try discriminate.
  intros Hv H3 H6. exists m, e. split; [reflexivity|].
  assert (He : -43 <= e <= -33).
  { destruct (Z.compare_spec e (-43)); destruct (Z.compare_spec e (-33));
      try discriminate; lia. }
  split; [|exact He].
  unfold valid_binary, bounded, canonical_mantissa in Hv.
  apply andb_prop in Hv. destruct Hv as [Hc _].
  apply Z.eqb_eq in Hc. unfold fexp, emin, Num.prec, Num.emax in Hc. lia.
Qed.

End NumFacts.

(* ------------------------------------------------------------------ *)
(** ** Facts about runs *)

Module RunFacts.
Import Js Run Downloader NumFacts.
Local Open Scope run_scope.
Local Open Scope list_scope.

Lemma extends_ret {A} (a : A) (P : completion A -> trace -> Prop) :
  P (Normal a) [] -> extends (ret a) P.
Proof. intros H t. exists []. simpl. now rewrite app_nil_r. Qed.

Lemma extends_throw {A} (e : exn) (P : completion A -> trace -> Prop) :
  P (Throw e) [] -> extends (throw e) P.
Proof. intros H t. exists []. simpl. now rewrite app_nil_r. Qed.

Lemma extends_lift {A} (c : completion A) (P : completion A -> trace -> Prop) :
  P c [] -> extends (lift c) P.
Proof. intros H t. exists []. simpl. now rewrite app_nil_r. Qed.

Lemma extends_call {A} (e : event) (f : trace -> completion A)
    (P : completion A -> trace -> Prop) :
  (forall c, P c [e]) -> extends (call e f) P.
Proof. intros H t. exists [e]. simpl. auto. Qed.

Lemma extends_bind {A B} (m : M A) (k : A -> M B)
    (P : completion A -> trace -> Prop) (Q : completion B -> trace -> Prop)
    (R : completion B -> trace -> Prop) :
  extends m P ->
  (forall a, extends (k a) Q) ->
  (forall e d, P (Throw e) d -> R (Throw e) d) ->
  (forall a d c d', P (Normal a) d -> Q c d' -> R c (d ++ d')) ->
  extends (bind m k) R.
Proof.
  intros Hm Hk Hthrow Hnormal t. unfold bind.
  destruct (Hm t) as [d [E HP]]. rewrite E.
  destruct (fst (m t)) as [a|e].
  - destruct (Hk a (t ++ d)) as [d' [E' HQ]]. rewrite E'.
    exists (d ++ d'). simpl. rewrite app_assoc. eauto.
  - exists d. simpl. eauto.
Qed.

Lemma extends_try_catch {A} (m : M A) (h : exn -> M A)
    (P Q R : completion A -> trace -> Prop) :
  extends m P ->
  (forall e, extends (h e) Q) ->
  (forall a d, P (Normal a) d -> R (Normal a) d) ->
  (forall e d c d', P (Throw e) d -> Q c d' -> R c (d ++ d')) ->
  extends (try_catch m h) R.
Proof.
  intros Hm Hh Hn Ht t. unfold try_catch.
  destruct (Hm t) as [d [E HP]]. rewrite E.
  destruct (fst (m t)) as [a|e].
  - exists d. simpl. eauto.
  - destruct (Hh e (t ++ d)) as [d' [E' HQ]]. rewrite E'.
    exists (d ++ d'). simpl. rewrite app_assoc. eauto.
Qed.

Lemma extends_weaken {A} (m : M A) (P Q : completion A -> trace -> Prop) :
  extends m P -> (forall c d, P c d -> Q c d) -> extends m Q.
Proof. intros H HPQ t. destruct (H t) as [d [E HP]]. eauto. Qed.

(** *** Runs that leave the media relay alone *)

Lemma no_relay_nil : no_relay [].
Proof. split; reflexivity. Qed.

Lemma no_relay_app (d d' : trace) :
  no_relay d -> no_relay d' -> no_relay (d ++ d').
Proof.
  unfold no_relay, relay_calls, relay_results.
  intros [H1 H2] [H3 H4]. rewrite !flat_map_app, H1, H2, H3, H4. auto.
Qed.

Lemma silent_ret {A} (a : A) : silent (ret a).
Proof. apply extends_ret, no_relay_nil. Qed.

Lemma silent_throw {A} (e : exn) : silent (@throw A e).
Proof. apply extends_throw, no_relay_nil. Qed.

Lemma silent_lift {A} (c : completion A) : silent (lift c).
Proof. apply extends_lift, no_relay_nil. Qed.

Lemma silent_call {A} (e : event) (f : trace -> completion A) :
  no_relay [e] -> silent (call e f).
Proof. intros H. apply extends_call. auto. Qed.

Lemma silent_bind {A B} (m : M A) (k : A -> M B) :
  silent m -> (forall a, silent (k a)) -> silent (bind m k).
Proof.
  intros Hm Hk. eapply extends_bind; [exact Hm | exact Hk | |]; simpl.
  - auto.
  - intros. now apply no_relay_app.
Qed.

Lemma relay_raised_app (d d' : trace) :
  no_relay d -> relay_raised d' -> relay_raised (d ++ d').
Proof.
  unfold no_relay, relay_raised, relay_calls, relay_results.
  intros [H1 H2] [H3 H4]. rewrite !flat_map_app, H1, H2. auto.
Qed.

Lemma relay_raised_app_l (d d' : trace) :
  relay_raised d -> no_relay d' -> relay_raised (d ++ d').
Proof.
  unfold no_relay, relay_raised, relay_calls, relay_results.
  intros [H1 H2] [H3 H4]. rewrite !flat_map_app, H1, H3, H4, !app_nil_r.
  split; [reflexivity | exact H2].
Qed.

Lemma discards_silent (m : M string) : silent m -> discards m.
Proof. intros H. eapply extends_weaken; [exact H | auto]. Qed.

Lemma discards_bind {A} (m : M A) (k : A -> M string) :
  silent m -> (forall a, discards (k a)) -> discards (bind m k).
Proof.
  intros Hm Hk. eapply extends_bind; [exact Hm | exact Hk | |]; simpl.
  - auto.
  - intros a d c d' H [H'|[H'|H']];
      [ left; now apply no_relay_app | right; now left
      | right; right; now apply relay_raised_app ].
Qed.

Lemma discards_try_catch (m : M string) (h : exn -> M string) :
  discards m -> (forall e, silent (h e)) -> discards (try_catch m h).
Proof.
  intros Hm Hh. eapply extends_try_catch; [exact Hm | exact Hh | |]; simpl.
  - auto.
  - intros e d c d' [H|[H|H]] H';
      [ left; now apply no_relay_app | discriminate
      | right; right; now apply relay_raised_app_l ].
Qed.

Ltac silence :=
  repeat first
    [ apply silent_ret | apply silent_throw | apply silent_lift
    | apply silent_call; split; reflexivity
    | apply silent_bind; [| intros ?]
    | match goal with
      | |- silent (if ?b then _ else _) => destruct b
      | |- silent (match ?v with _ => _ end) => destruct v
      end ].

(** *** Values that convert *)

Lemma text_of_spec (v : value) :
  convertible v = true -> ToString v = Normal (text_of v).
Proof. unfold convertible, text_of. destruct (ToString v); [reflexivity | discriminate]. Qed.

Lemma convertible_of_text (v : value) (s : string) :
  ToString v = Normal s -> convertible v = true /\ text_of v = s.
Proof. unfold convertible, text_of. now intros ->. Qed.

Lemma ToNumber_convertible (v : value) :
  convertible v = true -> exists n, ToNumber v = Normal n.
Proof.
  intros H. apply text_of_spec in H.
  destruct v; try (eexists; reflexivity);
    unfold ToNumber; rewrite H; eexists; reflexivity.
Qed.

Lemma ToNumber_raises (v : value) (e : exn) :
  ToNumber v = Throw e -> ToString v = Throw e.
Proof.
  destruct v as [| | b | x | s | items | fields]; try discriminate;
    unfold ToNumber, and_then.
  - destruct (ToString (VArr items)); [discriminate | now intros [= ->]].
  - destruct (ToString (VObj fields)); [discriminate | now intros [= ->]].
Qed.

(** What the formatter contributes to a caption. *)
Lemma miles_text_spec (v : value) :
  convertible v = true ->
  and_then (_convertMiles v) ToString = Normal (miles_text v).
Proof.
  intros H. unfold miles_text, _convertMiles.
  destruct (ToNumber_convertible v H) as [n ->]. cbn [and_then].
  destruct (Num.isNaN n); [now rewrite (text_of_spec v H)|].
  destruct (Num.ltb n (Num.of_Z 1000)); [reflexivity|].
  destruct (Num.ltb n (Num.of_Z 1000000)); reflexivity.
Qed.

Section World.
Variable w : world.

Lemma silent_read (v : value) (keys : list string) : silent (read v keys).
Proof. apply silent_lift. Qed.

Lemma silent_interpolate (v : value) : silent (interpolate v).
Proof. apply silent_lift. Qed.

Lemma silent_interpolate_miles (v : value) : silent (interpolate_miles v).
Proof. apply silent_lift. Qed.

Lemma silent_notify (msg : message) (p : string) :
  silent (notify_owner w msg p).
Proof. unfold notify_owner, sock_sendMessage. silence. Qed.

Lemma silent_fetchDownload (ep : string) (url : value) :
  silent (_fetchDownload w ep url).
Proof. unfold _fetchDownload, fetch, emit, interpolate. silence. Qed.

Lemma silent_includes (v : value) (p : string) : silent (call_includes v p).
Proof. unfold call_includes. silence. Qed.

Lemma silent_split_head (v : value) (p : string) :
  silent (call_split_head v p).
Proof. unfold call_split_head. silence. Qed.

Lemma silent_no_urls (r : value) : silent (no_urls r).
Proof. unfold no_urls. pose proof silent_read. silence; auto. Qed.

Lemma silent_facebook_mediaUrl (r : value) : silent (facebook_mediaUrl r).
Proof. unfold facebook_mediaUrl. pose proof silent_read. silence; auto. Qed.

Lemma silent_has_videos (m : value) : silent (has_videos m).
Proof. unfold has_videos. pose proof silent_read. silence; auto. Qed.

(** The [try] block of the relay: it ends in the empty string or in a
    throw, after at most one request and one message. *)
Lemma send_media_run (msg : message) (u c k : value) (t : trace) :
  exists res d,
    send_media w msg u c k t = (res, t ++ d) /\
    no_relay d /\ fetchDownload_calls d = [] /\
    (res = Normal "" \/ exists e, res = Throw e) /\
    network_calls d =
      match ToString u with Normal s => [s] | Throw _ => [] end.
Proof.
  unfold send_media, fetch, bot_sendMessage, bind, call, ret, throw, lift.
  destruct (ToString u) as [s|e].
  2: { exists (Throw e), []. rewrite app_nil_r. repeat split; eauto. }
  destruct (on_fetch w t s) as [resp|e].
  2: { exists (Throw e), [Fetch s]. repeat split; eauto. }
  destruct (ok resp); cbn [negb].
  2: { eexists (Throw _), [Fetch s]. repeat split; eauto. }
  destruct (arrayBuffer resp) as [buf|e].
  2: { exists (Throw e), [Fetch s]. repeat split; eauto. }
  destruct (is_string k "video"); [| destruct (is_string k "audio");
    [| destruct (is_string k "image")]].
  4: { eexists (Throw _), [Fetch s]. repeat split; eauto. }
  all: match goal with
       | |- context [on_bot_send _ ?h ?j ?m] =>
           destruct (on_bot_send w h j m) as [[]|e];
           [ exists (Normal ""), [Fetch s; BotSendMessage j m]
           | exists (Throw e), [Fetch s; BotSendMessage j m] ]
       end;
       rewrite <- !app_assoc; simpl; repeat split; eauto.
Qed.

(** The [catch] block of the relay: the label, the log, the fallback. *)
Lemma relay_catch_run (u c k : value) (error : exn) (t : trace) :
  exists d,
    (bind (interpolate k) (fun kind_text =>
     bind (console_error ("Error sending " ++ kind_text ++ ":") error)
          (fun _ => lift (fallback u c)))) t =
      (and_then (ToString k) (fun _ => fallback u c), t ++ d) /\
    no_relay d /\ fetchDownload_calls d = [] /\ network_calls d = [].
Proof.
  unfold interpolate, console_error, bind, emit, lift.
  destruct (ToString k) as [s|e].
  - eexists [_]. repeat split.
  - exists []. rewrite app_nil_r. repeat split.
Qed.

(** The relay between its marks.  It returns the empty string when the
    [try] block went through; otherwise its result is that of the
    [catch] block, which raises when the kind, the caption or the URL
    cannot be converted.  The exit mark is left only on a return. *)
Lemma relay_shape (msg : message) (u c k : value) (t : trace) :
  exists res d,
    _downloadAndSendMedia w msg u c k t =
      (res,
       t ++ Enter_downloadAndSendMedia u c k :: d ++
            match res with
            | Normal r => [Leave_downloadAndSendMedia r]
            | Throw _ => []
            end) /\
    no_relay d /\ fetchDownload_calls d = [] /\
    (res = Normal "" \/
     res = and_then (ToString k) (fun _ => fallback u c)) /\
    network_calls d =
      match ToString u with Normal s => [s] | Throw _ => [] end.
Proof.
  unfold _downloadAndSendMedia, try_catch.
  unfold bind at 1, emit at 1.
  destruct (send_media_run msg u c k (t ++ [Enter_downloadAndSendMedia u c k]))
    as [res [d [E [Hd [Hf [Hres Hn]]]]]].
  unfold bind at 1. rewrite E.
  destruct Hres as [-> | [e ->]].
  - exists (Normal ""), d. unfold bind, emit, ret.
    rewrite <- !app_assoc. cbn [app]. repeat split; auto; apply Hd.
  - destruct (relay_catch_run u c k e
                ((t ++ [Enter_downloadAndSendMedia u c k]) ++ d))
      as [d' [E' [Hd' [Hf' Hn']]]].
    rewrite E'.
    exists (and_then (ToString k) (fun _ => fallback u c)), (d ++ d').
    destruct (and_then (ToString k) (fun _ => fallback u c)) as [r|e'];
      unfold bind, emit, ret; rewrite ?app_nil_r, <- ?app_assoc; cbn [app];
      (split; [reflexivity|]);
      (split; [now apply no_relay_app|]);
      unfold fetchDownload_calls, network_calls in *;
      rewrite !flat_map_app, Hf, Hf', Hn, Hn', !app_nil_r; repeat split; auto.
Qed.

(** With a kind, a caption and a URL that convert, the relay never
    raises: it returns the empty string or the fallback, between its
    entry and exit marks. *)
Lemma relay_run (msg : message) (u c k : value) (fb : string) (t : trace) :
  convertible k = true -> fallback u c = Normal fb ->
  exists r d,
    _downloadAndSendMedia w msg u c k t =
      (Normal r,
       t ++ Enter_downloadAndSendMedia u c k :: d ++
            [Leave_downloadAndSendMedia r]) /\
    no_relay d /\ fetchDownload_calls d = [] /\
    (r = "" \/ r = fb).
Proof.
  intros Hk Hfb.
  destruct (relay_shape msg u c k t) as [res [d [E [Hd [Hf [Hres _]]]]]].
  rewrite (text_of_spec k Hk), Hfb in Hres. cbn [and_then] in Hres.
  destruct Hres as [-> | ->]; eexists _, d; repeat split; eauto; apply Hd.
Qed.

Lemma relay_calls_run (u c k : value) (d : trace) (r : string) :
  no_relay d ->
  relay_calls (Enter_downloadAndSendMedia u c k :: d ++
               [Leave_downloadAndSendMedia r]) = [(u, c, k)] /\
  relay_results (Enter_downloadAndSendMedia u c k :: d ++
                 [Leave_downloadAndSendMedia r]) = [r].
Proof.
  intros [H1 H2]. unfold relay_calls, relay_results in *. simpl.
  rewrite !flat_map_app, H1, H2. auto.
Qed.

(** A method that ends in [relay ;; return ''] discards: the kind is a
    string there. *)
Lemma discards_relay (msg : message) (u c : value) (kind : string) :
  discards (_downloadAndSendMedia w msg u c (VStr kind) ;; ret "").
Proof.
  intros t. unfold bind, ret.
  destruct (relay_shape msg u c (VStr kind) t)
    as [res [d [E [[Hc Hr] [_ [Hres _]]]]]].
  rewrite E. destruct res as [r|e].
  - eexists. split; [reflexivity | right; now left].
  - eexists. split; [reflexivity|]. right. right.
    destruct Hres as [Hres|Hres]; [discriminate|].
    cbn [ToString and_then] in Hres.
    unfold relay_raised, relay_calls, relay_results in *. cbn [flat_map app].
    rewrite !flat_map_app, Hc, Hr. cbn [flat_map app]. split; [reflexivity|].
    intros u' c' k' [H|[]]. injection H as <- <- <-. eauto.
Qed.

(** The processing notice, when it is delivered, touches neither the
    fetch client nor the relay. *)
Lemma notify_run (msg : message) (p : string) (t : trace) :
  notice_ok w msg ->
  exists d, notify_owner w msg p t = (Normal tt, t ++ d) /\
            no_relay d /\ fetchDownload_calls d = [] /\
            network_calls d = [].
Proof.
  intros Hok. unfold notify_owner, sock_sendMessage, call, ret.
  destruct (truthy (fromMe (key msg))) eqn:E.
  - rewrite (Hok E). eexists. repeat split.
  - exists []. rewrite app_nil_r. repeat split.
Qed.

(** The fetch client makes one request when the request URL can be
    built, and none otherwise, whatever comes back. *)
Lemma fetchDownload_trace (ep : string) (url : value) (t : trace) :
  snd (_fetchDownload w ep url t) =
  t ++ Enter_fetchDownload ep url ::
       match and_then (ToString url) (api_url ep) with
       | Normal request => [Fetch request]
       | Throw _ => []
       end.
Proof.
  unfold _fetchDownload, fetch, interpolate, bind, call, emit, throw, lift.
  destruct (ToString url) as [target|e]; cbn [and_then]; [|reflexivity].
  destruct (api_url ep target) as [request|e]; [|reflexivity].
  cbn [ToString].
  destruct (on_fetch w _ _) as [r|e]; [destruct (ok r)|];
    simpl; now rewrite <- app_assoc.
Qed.

Lemma fetchDownload_run (ep : string) (url : value) (target request : string)
    (result : value) (t : trace) :
  ToString url = Normal target ->
  api_url ep target = Normal request ->
  api_answers w request result ->
  _fetchDownload w ep url t =
  (Normal result, t ++ [Enter_fetchDownload ep url; Fetch request]).
Proof.
  intros Ht Hr H.
  unfold _fetchDownload, fetch, interpolate, bind, call, emit, throw, lift.
  rewrite Ht, Hr. cbn [ToString].
  destruct (H (t ++ [Enter_fetchDownload ep url])) as [r [E [Hok Hj]]].
  rewrite E, Hok, Hj. cbn [negb]. now rewrite <- app_assoc.
Qed.

(** A target that cannot be encoded: nothing is requested. *)
Lemma fetchDownload_malformed (ep : string) (url : value) (target : string)
    (e : exn) (t : trace) :
  ToString url = Normal target ->
  api_url ep target = Throw e ->
  _fetchDownload w ep url t = (Throw e, t ++ [Enter_fetchDownload ep url]).
Proof.
  intros Ht Hr.
  unfold _fetchDownload, fetch, interpolate, bind, call, emit, throw, lift.
  now rewrite Ht, Hr.
Qed.

Ltac quiet :=
  first [ apply silent_read | apply silent_interpolate
        | apply silent_interpolate_miles
        | apply silent_notify | apply silent_fetchDownload
        | apply silent_includes | apply silent_split_head
        | apply silent_no_urls | apply silent_facebook_mediaUrl
        | apply silent_has_videos
        | apply silent_ret | apply silent_throw | apply silent_lift
        | apply silent_bind; [quiet | intros ?; quiet]
        | match goal with
          | |- silent (if ?b then _ else _) => destruct b; quiet
          end ].

Ltac discard :=
  repeat first
    [ apply discards_relay
    | apply discards_bind; [quiet | intros ?]
    | apply discards_try_catch; [| intros ?; quiet]
    | match goal with
      | |- discards (if ?b then _ else _) => destruct b
      end
    | apply discards_silent; quiet ].

Lemma discards_tiktok (msg : message) (params : list string) :
  discards (downloadTikTok w msg params).
Proof. unfold downloadTikTok. discard. Qed.

Lemma discards_soundcloud (msg : message) (params : list string) :
  discards (downloadSoundCloud w msg params).
Proof. unfold downloadSoundCloud. discard. Qed.

Lemma discards_facebook (msg : message) (params : list string) :
  discards (downloadFacebook w msg params).
Proof. unfold downloadFacebook. discard. Qed.

Lemma discards_twitter (msg : message) (params : list string) :
  discards (downloadTwitter w msg params).
Proof. unfold downloadTwitter. discard. Qed.

End World.

Lemma fallback_not_empty (u c : value) (fb : string) :
  fallback u c = Normal fb -> fb <> "".
Proof.
  unfold fallback, and_then, nl.
  destruct (ToString c) as [s|]; [|discriminate].
  destruct (ToString u); [|discriminate].
  intros H. injection H as <-. destruct s; discriminate.
Qed.

(** *** Stepping through a method *)

Lemma bind_run {A B} (m : M A) (k : A -> M B) (t t' : trace) (a : A) :
  m t = (Normal a, t') -> bind m k t = k a t'.
Proof. intros H. unfold bind. now rewrite H. Qed.

Lemma bind_ret {A B} (a : A) (k : A -> M B) (t : trace) :
  bind (ret a) k t = k a t.
Proof. reflexivity. Qed.

Lemma bind_raise {A B} (m : M A) (k : A -> M B) (t t' : trace) (e : exn) :
  m t = (Throw e, t') -> bind m k t = (Throw e, t').
Proof. intros H. unfold bind. now rewrite H. Qed.

Lemma read_run (v : value) (keys : list string) (x : value) (t : trace) :
  path v keys = Normal x -> read v keys t = (Normal x, t).
Proof. intros H. unfold read, lift. now rewrite H. Qed.

Lemma interpolate_run (v : value) (t : trace) :
  convertible v = true -> interpolate v t = (Normal (text_of v), t).
Proof. intros H. unfold interpolate, lift. now rewrite text_of_spec. Qed.

Lemma interpolate_miles_run (v : value) (t : trace) :
  convertible v = true -> interpolate_miles v t = (Normal (miles_text v), t).
Proof. intros H. unfold interpolate_miles, lift. now rewrite miles_text_spec. Qed.

Lemma path_cons (v v' : value) (k : string) (keys : list string) :
  get v k = Normal v' -> path v (k :: keys) = path v' keys.
Proof. intros H. simpl. now rewrite H. Qed.

Lemma path_one (v : value) (k : string) : path v [k] = get v k.
Proof. simpl. now destruct (get v k). Qed.

Lemma get_length (l : list value) :
  get (VArr l) "length" = Normal (VNum (Num.of_nat (List.length l))).
Proof. reflexivity. Qed.

Lemma get_0 (l : list value) : get (VArr l) "0" = Normal (nth 0 l VUndefined).
Proof. exact (get_index l 0). Qed.

Lemma get_1 (l : list value) : get (VArr l) "1" = Normal (nth 1 l VUndefined).
Proof. exact (get_index l 1). Qed.

Lemma get_optional_normal (v : value) (k : string) :
  exists x, get_optional v k = Normal x.
Proof. destruct v; simpl; eauto; destruct (_ =? _)%string; eauto;
       destruct (array_index k); eauto. Qed.

Lemma truthy_nonempty (s : string) : s <> "" -> truthy (VStr s) = true.
Proof.
  intros H. simpl. destruct (String.eqb_spec s ""); [contradiction | reflexivity].
Qed.

Lemma relay_calls_app (a b : trace) :
  relay_calls (a ++ b) = relay_calls a ++ relay_calls b.
Proof. apply flat_map_app. Qed.

Lemma get_total (v x : value) (k k' : string) :
  get v k = Normal x -> exists y, get v k' = Normal y.
Proof.
  destruct v; simpl; try discriminate; intros _; eauto.
  - destruct (k' =? "length")%string; eauto. destruct (array_index k'); eauto.
  - destruct (k' =? "length")%string; eauto. destruct (array_index k'); eauto.
Qed.

(** A target without a lone surrogate has a request URL. *)
Lemma api_url_encodes (ep url : string) :
  Str.lone_surrogate url = false ->
  api_url ep url =
    Normal (apiBaseUrl ++ "/" ++ ep ++ "?url=" ++ Str.percent_encode url)%string.
Proof. intros H. unfold api_url, Str.encodeURIComponent. now rewrite H. Qed.

Lemma api_url_malformed (ep url : string) :
  Str.lone_surrogate url = true ->
  api_url ep url = Throw (Error "URI malformed").
Proof. intros H. unfold api_url, Str.encodeURIComponent. now rewrite H. Qed.

(** The fallback string of a caption that is a string and a URL that
    converts. *)
Lemma fallback_text (u : value) (c : string) :
  convertible u = true ->
  fallback u (VStr c) =
    Normal (c ++ nl ++ nl ++
            "*Failed to send media, here's the URL instead:* " ++
            text_of u)%string.
Proof.
  intros H. unfold fallback. cbn [ToString and_then].
  now rewrite (text_of_spec u H).
Qed.

(** A handler that ends in [relay ;; return ''], called with a URL that
    converts, returns the empty string and adds one call of the relay. *)
Lemma relay_then_empty (w : world) (msg : message) (u : value)
    (c kind : string) (t : trace) :
  convertible u = true ->
  exists t',
    bind (_downloadAndSendMedia w msg u (VStr c) (VStr kind))
         (fun _ => ret "") t = (Normal "", t') /\
    relay_calls t' = relay_calls t ++ [(u, VStr c, VStr kind)].
Proof.
  intros Hu.
  destruct (relay_run w msg u (VStr c) (VStr kind) _ t eq_refl
              (fallback_text u c Hu)) as [r [d [E [Hd _]]]].
  rewrite (bind_run _ _ _ _ _ E). eexists. split; [reflexivity|].
  now rewrite relay_calls_app, (proj1 (relay_calls_run _ _ _ _ _ Hd)).
Qed.

(** The first steps of a handler that was given a URL, a read of one
    property, and the two kinds of substitution. *)
Ltac start_handler Hurl E :=
  cbn [param nth_error]; rewrite (truthy_nonempty _ Hurl); cbn [negb];
  rewrite (bind_run _ _ _ _ _ E).

Ltac step_read x :=
  rewrite (bind_run _ _ _ _ x) by (apply read_run; now rewrite path_one).

Ltac step_text H :=
  rewrite (bind_run _ _ _ _ _ (interpolate_run _ _ H)).

Ltac step_miles H :=
  rewrite (bind_run _ _ _ _ _ (interpolate_miles_run _ _ H)).

(** The request of a handler whose target encodes and whose API
    answers. *)
Ltac step_fetch w ep url Henc Hapi :=
  rewrite (bind_run _ _ _ _ _
             (fetchDownload_run w ep (VStr url) url _ _ _ eq_refl
                (api_url_encodes ep url Henc)
                (Hapi _ (api_url_encodes ep url Henc)))).

Ltac finish_with_relay Hu Hr :=
  match goal with
  | |- context [bind (_downloadAndSendMedia ?w ?msg ?u (VStr ?c) (VStr ?k)) _ ?t] =>
      let t' := fresh "t'" in
      let Et := fresh "Et" in
      let Hcalls := fresh "Hcalls" in
      destruct (relay_then_empty w msg u c k t Hu) as [t' [Et Hcalls]];
      rewrite Et; cbn [fst snd]; rewrite Hcalls, !relay_calls_app, Hr
  end.

End RunFacts.

(* ------------------------------------------------------------------ *)
(** ** The number formatter *)

Module FormatFacts.
Import Js Downloader NumFacts.
Local Open Scope Z_scope.

Lemma small_integers_as_is (n : nat) :
  (n < 1000)%nat ->
  _convertMiles (VNum (Num.of_nat n)) = Normal (VStr (Str.dec (N.of_nat n))).
Proof.
  intros Hn.
  assert (H : forallb (fun k =>
                match _convertMiles (VNum (Num.of_nat k)) with
                | Normal (VStr s) => (s =? Str.dec (N.of_nat k))%string
                | _ => false
                end) (seq 0 1000) = true) by (vm_compute; reflexivity).
  rewrite forallb_forall in H.
  specialize (H n ltac:(apply in_seq; lia)).
  destruct (_convertMiles (VNum (Num.of_nat n))) as [[]|]; try discriminate.
  do 2 f_equal. now apply String.eqb_eq.
Qed.

(** C1, as the code has it.  When [Number(num)] throws, the formatter
    throws the same error.  Otherwise, with [n = Number(num)] a
    well-formed double: when [n] is NaN the input comes back unchanged;
    otherwise the input is formatted as [n], whether or not it was a
    number itself.  Below 1000 the result is [n.toString()] (for the
    integers 0..999, their decimal digits); from 1000 and below 1,000,000
    it is [n / 1000] to the nearest tenth followed by [k]; from 1,000,000
    it is [n / 1000000] to the nearest tenth followed by [M], as long as
    that quotient is finite and below 10^21. *)
Theorem convertMiles_format (num : value) :
  (forall e, ToNumber num = Throw e -> _convertMiles num = Throw e) /\
  forall n, ToNumber num = Normal n ->
  valid_binary Num.prec Num.emax n = true ->
  (Num.isNaN n = true -> _convertMiles num = Normal num) /\
  (Num.isNaN n = false ->
   Num.ltb n (Num.of_Z 1000) = true ->
   _convertMiles num = Normal (VStr (Num.toString n))) /\
  (forall k : nat, (k < 1000)%nat -> num = VNum (Num.of_nat k) ->
   _convertMiles num = Normal (VStr (Str.dec (N.of_nat k)))) /\
  (Num.ltb n (Num.of_Z 1000) = false ->
   Num.ltb n (Num.of_Z 1000000) = true ->
   exists t, 0 <= t /\
     Num.nearest_tenth (Num.div n (Num.of_Z 1000)) t /\
     _convertMiles num = Normal (VStr (Num.one_decimal t ++ "k"))) /\
  (Num.isNaN n = false ->
   Num.ltb n (Num.of_Z 1000000) = false ->
   Num.fixed_range (Num.div n (Num.of_Z 1000000)) = true ->
   exists t, 0 <= t /\
     Num.nearest_tenth (Num.div n (Num.of_Z 1000000)) t /\
     _convertMiles num = Normal (VStr (Num.one_decimal t ++ "M"))).
Proof.
  split; [intros e He; unfold _convertMiles; now rewrite He|].
  intros n Hn Hv. unfold _convertMiles. rewrite Hn. cbn [and_then].
  split; [intros ->; reflexivity|].
  split; [intros -> ->; reflexivity|].
  split.
  { intros k Hk ->. pose proof (small_integers_as_is k Hk) as H.
    unfold _convertMiles in H. cbn [ToNumber and_then] in H.
    cbn [ToNumber] in Hn. injection Hn as <-. exact H. }
  split.
  - intros H3 H6.
    destruct (thousands_range _ Hv H3 H6) as [mx [ex [Ex [Hd He]]]].
    rewrite Ex in *. cbn [Num.isNaN]. rewrite H3, H6.
    destruct (toFixed1_spec _ (div_thousand mx ex Hd He)) as [t [H0 [Hnear Ht]]].
    exists t. rewrite Ht. auto.
  - intros Hnan H6 Hr.
    assert (H3 : Num.ltb n (Num.of_Z 1000) = false).
    { revert H6.
      change (Num.of_Z 1000) with (S754_finite false 8796093022208000 (-43)).
      change (Num.of_Z 1000000) with (S754_finite false 8589934592000000 (-33)).
      unfold Num.ltb, SFltb.
      destruct n as [s|[|]| |[|] m e]; cbn [SFcompare];
        try discriminate; try reflexivity.
      destruct (Z.compare_spec e (-43)); destruct (Z.compare_spec e (-33));
        try discriminate; try reflexivity; lia. }
    rewrite Hnan, H3, H6.
    destruct (toFixed1_spec _ Hr) as [t [H0 [Hnear Ht]]].
    exists t. rewrite Ht. auto.
Qed.

Lemma convertMiles_format_witness :
  exists t, 0 <= t /\
    Num.nearest_tenth (Num.div (Num.of_Z 1500) (Num.of_Z 1000)) t /\
    _convertMiles (VNum (Num.of_Z 1500)) =
      Normal (VStr (Num.one_decimal t ++ "k")).
Proof.
  destruct (proj2 (convertMiles_format (VNum (Num.of_Z 1500)))
              (Num.of_Z 1500) eq_refl eq_refl)
    as [_ [_ [_ [H _]]]].
  apply H; reflexivity.
Defined.

(** C1 as stated fails on a non-numeric input that coerces to a number:
    [null] is formatted as ["0"], not returned unchanged. *)
Lemma convertMiles_null_is_formatted :
  _convertMiles VNull = Normal (VStr "0") /\
  _convertMiles VNull <> Normal VNull.
Proof. split; [reflexivity | discriminate]. Qed.

(** The formatter on sample inputs, the edge cases among them; the last
    one is an object with an own [toString], on which [Number] throws. *)
Example convertMiles_samples :
  map _convertMiles
    [VNum (Num.of_Z 999); VNum (Num.of_Z 1000); VNum (Num.of_Z 1500);
     VNum (Num.of_Z 1250); VNum (Num.of_Z 999950); VNum (Num.of_Z 1000000);
     VNum (Num.of_Z 2500000); VStr "1500"; VStr "abc"; VUndefined;
     VStr ""; VBool true; VArr []; VStr "Infinity";
     VNum (Num.of_Z (10 ^ 27)); VObj [("a", VNull)];
     VObj [("toString", VNum (Num.of_Z 1))]] =
    [Normal (VStr "999"); Normal (VStr "1.0k"); Normal (VStr "1.5k");
     Normal (VStr "1.3k"); Normal (VStr "1000.0k"); Normal (VStr "1.0M");
     Normal (VStr "2.5M"); Normal (VStr "1.5k"); Normal (VStr "abc");
     Normal VUndefined;
     Normal (VStr "0"); Normal (VStr "1"); Normal (VStr "0");
     Normal (VStr "InfinityM");
     Normal (VStr "1e+21M"); Normal (VObj [("a", VNull)]);
     Throw not_primitive].
Proof. vm_compute. reflexivity. Qed.

End FormatFacts.

(* ------------------------------------------------------------------ *)
(** ** The media relay *)

Module RelayFacts.
Import Js Run Downloader Scenario StrFacts RunFacts.
Local Open Scope list_scope.

(** C2.  For a media URL, a caption and a kind that convert to strings:
    when the fetch of [mediaUrl] fails (the promise rejects, or the status
    is not 2xx), [_downloadAndSendMedia] does not raise: it returns the
    fallback string, which contains the caption and the media URL, and it
    sends nothing. *)
Theorem relay_fetch_failure_falls_back
    (w : world) (msg : message) (mediaUrl caption type : value)
    (url_text caption_text : string) :
  ToString mediaUrl = Normal url_text ->
  ToString caption = Normal caption_text ->
  convertible type = true ->
  fetch_fails w url_text ->
  exists s t,
    _downloadAndSendMedia w msg mediaUrl caption type [] = (Normal s, t) /\
    Str.contains s caption_text /\
    Str.contains s url_text /\
    sent_media t = [].
Proof.
  intros Hu Hc Hk Hfail. apply text_of_spec in Hk.
  pose (fb := (caption_text ++ nl ++ nl ++
               "*Failed to send media, here's the URL instead:* " ++
               url_text)%string).
  assert (C1 : Str.contains fb caption_text) by apply contains_left.
  assert (C2 : Str.contains fb url_text)
    by (unfold fb; do 3 apply contains_append_r; apply contains_right).
  exists fb.
  unfold _downloadAndSendMedia, try_catch, send_media, fetch, console_error,
    interpolate, fallback, and_then, bind, call, emit, ret, throw, lift.
  rewrite Hu, Hc, Hk.
  specialize (Hfail ([] ++ [Enter_downloadAndSendMedia mediaUrl caption type])).
  destruct (on_fetch w _ url_text) as [resp|e].
  - rewrite Hfail. cbn [negb]. eexists. split; [reflexivity|].
    split; [exact C1 | split; [exact C2 | reflexivity]].
  - eexists. split; [reflexivity|].
    split; [exact C1 | split; [exact C2 | reflexivity]].
Qed.

Lemma relay_fetch_failure_witness :
  exists s t,
    _downloadAndSendMedia (media_missing "api" VNull) guest_msg
      (VStr "http://m/hd.mp4") (VStr "caption") (VStr "video") [] =
      (Normal s, t) /\
    Str.contains s "caption" /\ Str.contains s "http://m/hd.mp4" /\
    sent_media t = [].
Proof.
  apply (relay_fetch_failure_falls_back (media_missing "api" VNull) guest_msg
           (VStr "http://m/hd.mp4") (VStr "caption") (VStr "video")
           "http://m/hd.mp4" "caption").
  - reflexivity.
  - reflexivity.
  - reflexivity.
  - intros h. reflexivity.
Defined.




(** Where the relay does raise: the [catch] block builds its strings
    from the arguments, so a caption that cannot be converted (an object
    with an own [toString]) makes the relay itself throw, after the
    error was logged. *)
Example relay_raises_on_unconvertible_caption :
  _downloadAndSendMedia (media_missing "api" VNull) guest_msg
    (VStr "http://m/hd.mp4") (VObj [("toString", VNum (Num.of_Z 1))])
    (VStr "video") [] =
  (Throw not_primitive,
   [Enter_downloadAndSendMedia (VStr "http://m/hd.mp4")
      (VObj [("toString", VNum (Num.of_Z 1))]) (VStr "video");
    Fetch "http://m/hd.mp4";
    ConsoleError "Error sending video:" (Error "Failed to fetch media: 404")]).
Proof. vm_compute. reflexivity. Qed.

End RelayFacts.

(* ------------------------------------------------------------------ *)
(** ** The command handlers *)

Module HandlerFacts.
Import Js Run Downloader Scenario StrFacts NumFacts RunFacts.
Local Open Scope list_scope.

Lemma no_urls_run (result : value) (urls : list value) (t : trace) :
  get result "urls" = Normal (VArr urls) -> array_length_ok urls ->
  no_urls result t =
  (Normal (match urls with [] => true | _ :: _ => false end), t).
Proof.
  intros H Hb. unfold no_urls.
  rewrite (bind_run _ _ t t (VArr urls)) by (apply read_run; now rewrite path_one).
  cbn [truthy isArray negb].
  rewrite (bind_run _ _ t t (VNum (Num.of_nat (List.length urls))))
    by (apply read_run; rewrite (path_cons _ _ _ _ H), path_one; apply get_length).
  unfold ret. destruct urls as [|u urls]; [reflexivity|].
  rewrite length_not_zero by (try discriminate; assumption). reflexivity.
Qed.

Lemma facebook_mediaUrl_run (result first hd : value) (others : list value)
    (t : trace) :
  get result "urls" = Normal (VArr (first :: others)) ->
  get first "hd" = Normal hd ->
  exists sd,
    get_optional (nth 1 (first :: others) VUndefined) "sd" = Normal sd /\
    facebook_mediaUrl result t = (Normal (or_else hd sd), t).
Proof.
  intros H Hhd.
  destruct (get_optional_normal (nth 1 (first :: others) VUndefined) "sd")
    as [sd Hsd].
  exists sd. split; [exact Hsd|]. unfold facebook_mediaUrl.
  rewrite (bind_run _ _ t t hd).
  2: { apply read_run. rewrite (path_cons _ _ _ _ H).
       rewrite (path_cons _ _ _ _ (get_0 _)). cbn [nth]. now rewrite path_one. }
  unfold or_else. destruct (truthy hd); [reflexivity|].
  rewrite (bind_run _ _ t t (nth 1 (first :: others) VUndefined)).
  2: { apply read_run. rewrite (path_cons _ _ _ _ H), path_one. apply get_1. }
  unfold lift. now rewrite Hsd.
Qed.

Lemma has_videos_run (media : value) (videos : list value) (t : trace) :
  get media "videos" = Normal (VArr videos) ->
  videos <> [] -> array_length_ok videos ->
  has_videos media t = (Normal true, t).
Proof.
  intros H Hne Hb. unfold has_videos.
  rewrite (bind_run _ _ t t (VArr videos)) by (apply read_run; now rewrite path_one).
  cbn [truthy].
  rewrite (bind_run _ _ t t (VNum (Num.of_nat (List.length videos))))
    by (apply read_run; rewrite (path_cons _ _ _ _ H), path_one; apply get_length).
  unfold lift. now rewrite length_gt_zero.
Qed.

(** C4.  Called without a parameter, each of the five registered
    handlers returns its own non-empty guidance string and does nothing
    else: the trace stays empty, so neither the fetch client nor the
    network is reached. *)
Theorem handlers_without_url_give_guidance (w : world) (msg : message) :
  map (fun c => (fst c, snd c msg [] [])) (commands w) =
    [ ("tiktok", (Normal "Please provide a TikTok URL.", []));
      ("instagram", (Normal "Please provide an Instagram URL.", []));
      ("soundcloud", (Normal "Please provide a SoundCloud URL.", []));
      ("twitter", (Normal "Please provide a Twitter/X URL.", []));
      ("facebook", (Normal "Please provide a Facebook URL.", [])) ] /\
  forall name h, In (name, h) (commands w) ->
    exists s, h msg [] [] = (Normal s, []) /\ s <> "" /\
              fetchDownload_calls (snd (h msg [] [])) = [] /\
              network_calls (snd (h msg [] [])) = [].
Proof.
  split; [reflexivity|].
  intros name h Hin. simpl in Hin.
  repeat (destruct Hin as [Hin|Hin]; [injection Hin as <- <- |]);
    try contradiction;
    (eexists; split; [reflexivity | split; [discriminate | split; reflexivity]]).
Qed.

(** C5.  The TikTok scenario: the message is not the owner's, the API
    answers the request for the scenario's URL with [tiktok_reply].  The
    handler returns the empty string and calls the relay exactly once,
    with the HD URL, the caption built from the reply and the kind
    [video]. *)
Theorem tiktok_scenario (w : world) :
  api_serves w "tiktok" "https://tiktok.com/x" tiktok_reply ->
  fst (downloadTikTok w guest_msg ["https://tiktok.com/x"] []) = Normal "" /\
  relay_calls (snd (downloadTikTok w guest_msg ["https://tiktok.com/x"] [])) =
    [(VStr "http://m/hd.mp4", VStr tiktok_caption, VStr "video")].
Proof.
  intros Hapi.
  pose proof (api_url_encodes "tiktok" "https://tiktok.com/x" eq_refl) as Hreq.
  set (request := (apiBaseUrl ++ "/" ++ "tiktok" ++ "?url=" ++
                   Str.percent_encode "https://tiktok.com/x")%string) in Hreq.
  set (t1 := [Enter_fetchDownload "tiktok" (VStr "https://tiktok.com/x");
              Fetch request]).
  assert (Hrun : downloadTikTok w guest_msg ["https://tiktok.com/x"] [] =
                 bind (_downloadAndSendMedia w guest_msg (VStr "http://m/hd.mp4")
                         (VStr tiktok_caption) (VStr "video"))
                      (fun _ => ret "") t1).
  { unfold downloadTikTok. cbn [param nth_error].
    change (negb (truthy (VStr "https://tiktok.com/x"))) with false. cbv iota.
    change (notify_owner w guest_msg "TikTok") with (@ret unit tt).
    rewrite bind_ret.
    rewrite (bind_run _ _ _ _ _
               (fetchDownload_run w "tiktok" (VStr "https://tiktok.com/x")
                  "https://tiktok.com/x" request tiktok_reply _ eq_refl Hreq
                  (Hapi _ Hreq))).
    reflexivity. }
  rewrite Hrun.
  destruct (relay_then_empty w guest_msg (VStr "http://m/hd.mp4") tiktok_caption
              "video" t1 eq_refl) as [t' [Et Hcalls]].
  rewrite Et. cbn [fst snd]. split; [reflexivity|].
  rewrite Hcalls. reflexivity.
Qed.

Lemma tiktok_scenario_witness :
  fst (downloadTikTok (serving tiktok_reply) guest_msg
         ["https://tiktok.com/x"] []) = Normal "" /\
  relay_calls (snd (downloadTikTok (serving tiktok_reply) guest_msg
                      ["https://tiktok.com/x"] [])) =
    [(VStr "http://m/hd.mp4", VStr tiktok_caption, VStr "video")].
Proof.
  apply (tiktok_scenario (serving tiktok_reply)).
  intros request _ h. eexists. repeat split.
Defined.

(** C6, as the code has it.  The target URL can be encoded; the reply
    is well formed: its author name and its three counters can be read
    and convert to strings, its description is a string; its first media
    element has a non-empty [videos] array, and the chosen variant has a
    [url] that converts to a string.  For the type [video] the handler
    relays the URL of the last variant; for the type [gif] it relays the
    URL of the first one. *)
Theorem twitter_relays_video_variant
    (w : world) (msg : message) (url : string) (rest : list string)
    (result data media username view favorite retweet chosen mediaUrl : value)
    (others videos : list value) (description type : string) :
  url <> "" -> Str.lone_surrogate url = false -> notice_ok w msg ->
  api_serves w "twitterv2" url result ->
  get result "data" = Normal data ->
  get data "media" = Normal (VArr (media :: others)) ->
  truthy media = true ->
  path data ["author"; "username"] = Normal username ->
  convertible username = true ->
  get data "description" = Normal (VStr description) ->
  get data "view" = Normal view -> convertible view = true ->
  get data "favorite" = Normal favorite -> convertible favorite = true ->
  get data "retweet" = Normal retweet -> convertible retweet = true ->
  get media "type" = Normal (VStr type) ->
  get media "videos" = Normal (VArr videos) ->
  videos <> [] -> array_length_ok videos ->
  (type = "video" /\ chosen = last videos VUndefined \/
   type = "gif" /\ chosen = hd VUndefined videos) ->
  get chosen "url" = Normal mediaUrl ->
  convertible mediaUrl = true ->
  fst (downloadTwitter w msg (url :: rest) []) = Normal "" /\
  exists caption,
    relay_calls (snd (downloadTwitter w msg (url :: rest) [])) =
      [(mediaUrl, VStr caption, VStr "video")].
Proof.
  intros Hurl Henc Hok Hapi Hdata Hmedia Htruthy Huser Hcu Hdesc
    Hview Hcv Hfav Hcf Hret Hcr Htype Hvideos Hne Hlen Hchoice Hchosen Hcm.
  destruct (notify_run w msg "Twitter" [] Hok) as [d [E [[Hr _] _]]].
  destruct (get_total _ _ _ "image" Htype) as [image Himage].
  unfold downloadTwitter. start_handler Hurl E. unfold try_catch.
  step_fetch w "twitterv2" url Henc Hapi.
  step_read data. step_read (VArr (media :: others)).
  cbn [truthy negb].
  rewrite (bind_run _ _ _ _ media)
    by (apply read_run; rewrite (path_cons _ _ _ _ Hmedia), path_one; apply get_0).
  rewrite Htruthy. cbn [negb].
  rewrite (bind_run _ _ _ _ _ (read_run _ _ _ _ Huser)). step_text Hcu.
  step_read (VStr description). cbn [call_split_head]. rewrite bind_ret.
  step_read view. step_miles Hcv.
  step_read favorite. step_miles Hcf.
  step_read retweet. step_miles Hcr.
  step_read (VStr type).
  destruct Hchoice as [[-> ->]|[-> ->]].
  - (* video: the last variant *)
    change (is_string (VStr "video") "video") with true. cbv iota.
    rewrite (bind_run _ _ _ _ _ (has_videos_run media videos _ Hvideos Hne Hlen)).
    step_read (VArr videos).
    rewrite (bind_run _ _ _ _ (VNum (Num.of_nat (List.length videos))))
      by (apply read_run; rewrite (path_cons _ _ _ _ Hvideos), path_one;
          apply get_length).
    rewrite (bind_run _ _ _ _ (last videos VUndefined))
      by (unfold lift; now rewrite get_last).
    step_read mediaUrl.
    finish_with_relay Hcm Hr.
    split; [reflexivity | eexists; reflexivity].
  - (* gif: the first variant *)
    change (is_string (VStr "gif") "video") with false. cbv iota.
    rewrite bind_ret.
    change (is_string (VStr "gif") "photo") with false. cbv iota.
    rewrite bind_ret.
    change (is_string (VStr "gif") "gif") with true. cbv iota.
    rewrite (bind_run _ _ _ _ _ (has_videos_run media videos _ Hvideos Hne Hlen)).
    rewrite (bind_run _ _ _ _ mediaUrl)
      by (apply read_run; rewrite (path_cons _ _ _ _ Hvideos);
          rewrite (path_cons _ _ _ _ (get_0 _)), path_one;
          destruct videos; [contradiction | exact Hchosen]).
    finish_with_relay Hcm Hr.
    split; [reflexivity | eexists; reflexivity].
Qed.

Lemma twitter_relays_video_variant_witness :
  fst (downloadTwitter (serving (twitter_reply "video")) guest_msg
         ["https://x.com/i/status/1"] []) = Normal "" /\
  exists caption,
    relay_calls (snd (downloadTwitter (serving (twitter_reply "video"))
                        guest_msg ["https://x.com/i/status/1"] [])) =
      [(VStr "b", VStr caption, VStr "video")].
Proof.
  apply (twitter_relays_video_variant
           (serving (twitter_reply "video")) guest_msg
           "https://x.com/i/status/1" []
           (twitter_reply "video")
           (lookup "data" (match twitter_reply "video" with
                           | VObj f => f | _ => [] end))
           (VObj [("type", VStr "video");
                  ("videos", VArr [VObj [("url", VStr "a")];
                                   VObj [("url", VStr "b")]])])
           (VStr "u") (num 1500) (num 20) (num 3)
           (VObj [("url", VStr "b")]) (VStr "b")
           [] [VObj [("url", VStr "a")]; VObj [("url", VStr "b")]]
           "hello https://t.co/x" "video");
    try reflexivity; try discriminate.
  - intros request _ h. eexists. repeat split.
  - left. split; reflexivity.
Defined.

(** C6 as stated fails for animated images: with the type [gif] and the
    variants [a], [b] the relayed URL is [a], the first one, not [b]. *)
Lemma twitter_gif_relays_first_variant :
  map (fun c => fst (fst c))
      (relay_calls (snd (downloadTwitter (serving (twitter_reply "gif"))
                           guest_msg ["https://x.com/i/status/1"] []))) =
    [VStr "a"] /\
  map (fun c => fst (fst c))
      (relay_calls (snd (downloadTwitter (serving (twitter_reply "gif"))
                           guest_msg ["https://x.com/i/status/1"] []))) <>
    [VStr "b"].
Proof. vm_compute. split; [reflexivity | discriminate]. Qed.



(** C8.  When the target URL can be encoded and the API reply has an
    empty [urls] list, the handler returns a string that starts with the
    failure glyph and contains "No media URLs found", and the relay is not
    called. *)
Theorem facebook_empty_urls
    (w : world) (msg : message) (url : string) (rest : list string)
    (result : value) :
  url <> "" -> Str.lone_surrogate url = false -> notice_ok w msg ->
  api_serves w "facebook" url result ->
  get result "urls" = Normal (VArr []) ->
  exists s,
    fst (downloadFacebook w msg (url :: rest) []) = Normal s /\
    Str.starts_with s "❌" /\
    Str.contains s "No media URLs found" /\
    relay_calls (snd (downloadFacebook w msg (url :: rest) [])) = [].
Proof.
  intros Hurl Henc Hok Hapi Hurls.
  destruct (notify_run w msg "Facebook" [] Hok) as [d [E [[Hr _] _]]].
  assert (Hrun : exists t,
    downloadFacebook w msg (url :: rest) [] =
    (Normal "❌ Failed to download Facebook video: Invalid API response: No media URLs found",
     d ++ t) /\ relay_calls t = []).
  { unfold downloadFacebook. start_handler Hurl E. unfold try_catch.
    step_fetch w "facebook" url Henc Hapi.
    rewrite (bind_run _ _ _ _ _ (no_urls_run result [] _ Hurls ltac:(unfold array_length_ok; simpl; lia))).
    eexists. split; reflexivity. }
  destruct Hrun as [t [Hrun Ht]].
  rewrite Hrun. cbn [fst snd]. eexists. split; [reflexivity|].
  split; [eexists; reflexivity|]. split.
  - apply includes_spec. reflexivity.
  - now rewrite relay_calls_app, Hr, Ht.
Qed.

Lemma facebook_empty_urls_witness :
  exists s,
    fst (downloadFacebook (serving (facebook_reply [])) guest_msg
           ["https://fb.watch/x"] []) = Normal s /\
    Str.starts_with s "❌" /\
    Str.contains s "No media URLs found" /\
    relay_calls (snd (downloadFacebook (serving (facebook_reply []))
                        guest_msg ["https://fb.watch/x"] [])) = [].
Proof.
  apply (facebook_empty_urls (serving (facebook_reply [])) guest_msg
           "https://fb.watch/x" [] (facebook_reply []));
    try reflexivity; try discriminate.
  intros request _ h. eexists. repeat split.
Defined.

(** C9.  With a URL argument, the Instagram handler calls the fetch
    client once: with the endpoint [igstories] when the URL contains
    "/stories/", with [instagram] when it does not.  The one network
    request goes to the request URL of that endpoint; a target that
    cannot be encoded has no request URL, and then nothing is
    requested. *)
Theorem instagram_endpoint_choice
    (w : world) (msg : message) (url : string) (rest : list string) :
  url <> "" -> notice_ok w msg ->
  exists endpoint,
    fetchDownload_calls (snd (downloadInstagram w msg (url :: rest) [])) =
      [(endpoint, VStr url)] /\
    network_calls (snd (downloadInstagram w msg (url :: rest) [])) =
      match api_url endpoint url with
      | Normal request => [request]
      | Throw _ => []
      end /\
    (Str.contains url "/stories/" -> endpoint = "igstories") /\
    (~ Str.contains url "/stories/" -> endpoint = "instagram").
Proof.
  intros Hurl Hok.
  set (ep := if Str.includes "/stories/" url then "igstories" else "instagram").
  exists ep.
  destruct (notify_run w msg "Instagram" [] Hok) as [d [E [_ [Hd Hn]]]].
  assert (Hsnd : snd (downloadInstagram w msg (url :: rest) []) =
                 d ++ Enter_fetchDownload ep (VStr url) ::
                      match api_url ep url with
                      | Normal request => [Fetch request]
                      | Throw _ => []
                      end).
  { unfold downloadInstagram. cbn [param nth_error].
    rewrite (truthy_nonempty url Hurl). cbn [negb call_includes].
    unfold bind at 1. rewrite E. unfold bind at 1, ret at 1. unfold bind at 1.
    fold ep.
    pose proof (fetchDownload_trace w ep (VStr url) ([] ++ d)) as Ht.
    cbn [ToString and_then] in Ht.
    destruct (_fetchDownload w ep (VStr url) ([] ++ d)) as [[result|e] t2];
      cbn [snd] in Ht; subst t2; [|reflexivity].
    unfold bind at 1. unfold read at 1. unfold lift at 1.
    destruct (path result ["data"]) as [[| | | | | |]|]; reflexivity. }
  rewrite Hsnd. unfold fetchDownload_calls, network_calls in *.
  rewrite !flat_map_app, Hd, Hn.
  split; [destruct (api_url ep url); reflexivity|].
  split; [destruct (api_url ep url); reflexivity|].
  unfold ep. destruct (Str.includes "/stories/" url) eqn:Ei.
  - apply includes_spec in Ei. split; [reflexivity | contradiction].
  - split; [|reflexivity]. intros Hc. apply includes_spec in Hc. congruence.
Qed.

Lemma instagram_endpoint_choice_witness :
  exists endpoint,
    fetchDownload_calls
      (snd (downloadInstagram (serving VNull) guest_msg
              ["https://instagram.com/stories/u/1"] [])) =
      [(endpoint, VStr "https://instagram.com/stories/u/1")] /\
    network_calls
      (snd (downloadInstagram (serving VNull) guest_msg
              ["https://instagram.com/stories/u/1"] [])) =
      match api_url endpoint "https://instagram.com/stories/u/1" with
      | Normal request => [request]
      | Throw _ => []
      end /\
    (Str.contains "https://instagram.com/stories/u/1" "/stories/" ->
     endpoint = "igstories") /\
    (~ Str.contains "https://instagram.com/stories/u/1" "/stories/" ->
     endpoint = "instagram").
Proof.
  apply (instagram_endpoint_choice (serving VNull) guest_msg
           "https://instagram.com/stories/u/1" []).
  - discriminate.
  - discriminate.
Defined.

(** C10.  In the four handlers that call the relay, once the relay has
    been called with a media URL and a caption from which its fallback
    string can be built, the handler's result is the empty string: the
    relay's return value is dropped, so the fallback string is never the
    handler's result. *)
Theorem handlers_discard_relay_result
    (w : world) (msg : message) (params : list string) (h : handler)
    (mediaUrl caption type : value) (fb : string) :
  In h [downloadTikTok w; downloadSoundCloud w;
        downloadFacebook w; downloadTwitter w] ->
  In (mediaUrl, caption, type) (relay_calls (snd (h msg params []))) ->
  fallback mediaUrl caption = Normal fb ->
  fst (h msg params []) = Normal "" /\
  fst (h msg params []) <> Normal fb.
Proof.
  intros Hh Hcall Hfb.
  assert (D : discards (h msg params)).
  { simpl in Hh.
    destruct Hh as [<-|[<-|[<-|[<-|[]]]]];
      [ apply discards_tiktok | apply discards_soundcloud
      | apply discards_facebook | apply discards_twitter ]. }
  destruct (D []) as [d [E [[Hnone _]|[Hret|[_ Hraised]]]]].
  - rewrite E in Hcall. simpl in Hcall. rewrite Hnone in Hcall. destruct Hcall.
  - split; [exact Hret|]. rewrite Hret. intros H. injection H as H.
    symmetry in H. exact (fallback_not_empty _ _ _ Hfb H).
  - rewrite E in Hcall. simpl in Hcall.
    destruct (Hraised _ _ _ Hcall) as [e He]. congruence.
Qed.

Lemma handlers_discard_relay_result_witness :
  fst (downloadTikTok
         (media_missing "https://delirius-apiofc.vercel.app/download/tiktok?url=https%3A%2F%2Ftiktok.com%2Fx" tiktok_reply)
         guest_msg ["https://tiktok.com/x"] []) = Normal "" /\
  fst (downloadTikTok
         (media_missing "https://delirius-apiofc.vercel.app/download/tiktok?url=https%3A%2F%2Ftiktok.com%2Fx" tiktok_reply)
         guest_msg ["https://tiktok.com/x"] []) <>
    Normal (tiktok_caption ++ nl ++ nl ++
            "*Failed to send media, here's the URL instead:* " ++
            "http://m/hd.mp4")%string.
Proof.
  apply (handlers_discard_relay_result
           (media_missing "https://delirius-apiofc.vercel.app/download/tiktok?url=https%3A%2F%2Ftiktok.com%2Fx" tiktok_reply)
           guest_msg ["https://tiktok.com/x"]
           (downloadTikTok
              (media_missing "https://delirius-apiofc.vercel.app/download/tiktok?url=https%3A%2F%2Ftiktok.com%2Fx"
                 tiktok_reply))
           (VStr "http://m/hd.mp4") (VStr tiktok_caption) (VStr "video")).
  - left. reflexivity.
  - vm_compute. left. reflexivity.
  - reflexivity.
Defined.

End HandlerFacts.

(* ------------------------------------------------------------------ *)
(** ** The request URL and the description cut *)

Module TextFacts.
Import Str Js Downloader Observe StrFacts.

Lemma hex_digit_unreserved (n : N) : uri_unreserved (hex_digit n) = true.
Proof.
  destruct n as [|p]; [reflexivity|].
  do 4 (destruct p as [p|p|]; try reflexivity).
Qed.

Lemma hex_digit_inj (a b : N) :
  (a < 16)%N -> (b < 16)%N -> hex_digit a = hex_digit b -> a = b.
Proof.
  intros Ha Hb.
  destruct a as [|p]; [|do 4 (try (destruct p as [p|p|]; try lia))];
    (destruct b as [|q]; [|do 4 (try (destruct q as [q|q|]; try lia))]);
    intros H; try reflexivity; discriminate H.
Qed.

Lemma percent_reserved : uri_unreserved "%" = false.
Proof. reflexivity. Qed.

Lemma N_of_ascii_inj (c d : ascii) : N_of_ascii c = N_of_ascii d -> c = d.
Proof.
  intros H. rewrite <- (ascii_N_embedding c), <- (ascii_N_embedding d).
  now rewrite H.
Qed.

Lemma encode_head (c : ascii) (s : string) :
  percent_encode (String c s) =
  if uri_unreserved c then String c (percent_encode s)
  else String "%" (String (hex_digit (N_of_ascii c / 16))
         (String (hex_digit (N_of_ascii c mod 16)) (percent_encode s))).
Proof. reflexivity. Qed.

Lemma percent_encode_inj (s s' : string) :
  percent_encode s = percent_encode s' -> s = s'.
Proof.
  revert s'. induction s as [|c s IH]; intros [|c' s'].
  - reflexivity.
  - rewrite encode_head. destruct (uri_unreserved c'); discriminate.
  - rewrite encode_head. destruct (uri_unreserved c); discriminate.
  - rewrite !encode_head.
    destruct (uri_unreserved c) eqn:Ec; destruct (uri_unreserved c') eqn:Ec';
      intros H.
    + injection H as -> H. f_equal. now apply IH.
    + injection H as -> _. rewrite percent_reserved in Ec. discriminate.
    + injection H as <- _. rewrite percent_reserved in Ec'. discriminate.
    + injection H as H1 H2 H. f_equal; [|now apply IH].
      apply N_of_ascii_inj.
      pose proof (N_ascii_bounded c). pose proof (N_ascii_bounded c').
      apply hex_digit_inj in H1; [|apply N.Div0.div_lt_upper_bound; lia..].
      apply hex_digit_inj in H2; [|apply N.mod_lt; lia..].
      rewrite (N.div_mod (N_of_ascii c) 16), (N.div_mod (N_of_ascii c') 16) by lia.
      now rewrite H1, H2.
Qed.

Lemma append_cancel (a x y : string) : a ++ x = a ++ y -> x = y.
Proof.
  induction a as [|c a IH]; simpl; intros H; [exact H|].
  injection H as H. now apply IH.
Qed.

Lemma api_url_shape (endpoint url request : string) :
  api_url endpoint url = Normal request ->
  request = apiBaseUrl ++ "/" ++ endpoint ++ "?url=" ++ percent_encode url.
Proof.
  unfold api_url, encodeURIComponent.
  destruct (lone_surrogate url); [discriminate|]. now intros [= <-].
Qed.

(** X2.  The fetch client sends distinct target URLs to distinct request
    URLs: two targets with the same request URL are equal, the
    percent-encoding loses nothing. *)
Theorem api_url_injective (endpoint url url' request : string) :
  api_url endpoint url = Normal request ->
  api_url endpoint url' = Normal request ->
  url = url'.
Proof.
  intros H H'. apply api_url_shape in H. apply api_url_shape in H'.
  rewrite H in H'. do 4 apply append_cancel in H'.
  now apply percent_encode_inj.
Qed.

Lemma api_url_injective_witness :
  "https://tiktok.com/x?a=1&b=2" = "https://tiktok.com/x?a=1&b=2".
Proof.
  apply (api_url_injective "tiktok" "https://tiktok.com/x?a=1&b=2"
           "https://tiktok.com/x?a=1&b=2"
           (apiBaseUrl ++ "/" ++ "tiktok" ++ "?url=" ++
            percent_encode "https://tiktok.com/x?a=1&b=2")).
  - reflexivity.
  - reflexivity.
Defined.

(** X3.  The query value of a request URL is made of unreserved
    characters and percent signs only, so that the target URL cannot add
    a parameter or a fragment of its own; a target made of unreserved
    characters is sent as it is. *)
Theorem api_url_query_is_safe (endpoint url request : string) :
  api_url endpoint url = Normal request ->
  exists q,
    request = apiBaseUrl ++ "/" ++ endpoint ++ "?url=" ++ q /\
    forallb uri_safe (list_ascii_of_string q) = true /\
    (forallb uri_unreserved (list_ascii_of_string url) = true -> q = url).
Proof.
  intros H. apply api_url_shape in H.
  exists (percent_encode url). split; [exact H|]. clear H. split.
  - induction url as [|c url IH]; [reflexivity|].
    rewrite encode_head. destruct (uri_unreserved c) eqn:Ec.
    + cbn [list_ascii_of_string forallb]. unfold uri_safe at 1.
      now rewrite Ec, IH.
    + cbn [list_ascii_of_string forallb]. unfold uri_safe at 1 2 3.
      now rewrite !hex_digit_unreserved, IH.
  - induction url as [|c url IH]; [reflexivity|].
    cbn [list_ascii_of_string forallb]. rewrite andb_true_iff.
    intros [Hc Hr]. rewrite encode_head, Hc. f_equal. now apply IH.
Qed.

Lemma api_url_query_is_safe_witness :
  exists q,
    (apiBaseUrl ++ "/" ++ "tiktok" ++ "?url=" ++
     percent_encode "https://tiktok.com/x?a=1&b=2") =
      apiBaseUrl ++ "/" ++ "tiktok" ++ "?url=" ++ q /\
    forallb uri_safe (list_ascii_of_string q) = true /\
    (forallb uri_unreserved
       (list_ascii_of_string "https://tiktok.com/x?a=1&b=2") = true ->
     q = "https://tiktok.com/x?a=1&b=2").
Proof.
  apply (api_url_query_is_safe "tiktok" "https://tiktok.com/x?a=1&b=2"
           (apiBaseUrl ++ "/" ++ "tiktok" ++ "?url=" ++
            percent_encode "https://tiktok.com/x?a=1&b=2")).
  reflexivity.
Defined.






End TextFacts.

(* ------------------------------------------------------------------ *)
(** ** Counting from one, and numbers below zero *)

Module IndexFacts.
Import Js Downloader NumFacts.
Local Open Scope Z_scope.

(** [n + 1] on the double of an integer. *)
Lemma add_one (p : positive) :
  Zpos (digits2_pos (Pos.succ p)) <= 53 ->
  Num.add (Num.dbl p) (Num.of_Z 1) = Num.dbl (Pos.succ p).
Proof.
  intros Hd'.
  assert (Hd : Zpos (digits2_pos p) <= 53) by (rewrite <- bits_bound in *; lia).
  pose proof (Pos2Z.is_pos (digits2_pos p)) as Hpos.
  pose proof (Pos2Z.is_pos (digits2_pos (Pos.succ p))) as Hpos'.
  rewrite dbl_one. unfold Num.dbl at 1 2, Num.add, SFadd.
  change (Zpos (digits2_pos 1) - 53) with (-52).
  rewrite Z.min_r by lia.
  change (fst (shl_align 1 0 (-52))) with 4503599627370496%positive.
  rewrite (shl_align_id 4503599627370496 (-52) (-52)) by lia.
  cbn [fst cond_Zopp].
  rewrite !shl_align_value by lia.
  replace (Zpos p * 2 ^ (0 - (Zpos (digits2_pos p) - 53)) *
           2 ^ (Zpos (digits2_pos p) - 53 - -52) + 4503599627370496)
    with (Zpos (Pos.succ p) * 2 ^ 52).
  2: { rewrite <- Z.mul_assoc, <- Z.pow_add_r by lia.
       replace (0 - (Zpos (digits2_pos p) - 53) + (Zpos (digits2_pos p) - 53 - -52))
         with 52 by lia.
       change 4503599627370496 with (2 ^ 52). lia. }
  replace (Zpos (Pos.succ p) * 2 ^ 52) with (Zpos (Pos.succ p * 2 ^ 52)) by lia.
  unfold binary_normalize, Num.dbl.
  apply round_exact; [now apply dbl_digits | lia |].
  right. split; [lia|].
  rewrite shl_align_value by lia.
  rewrite <- Z.mul_assoc, <- Z.pow_add_r by lia.
  replace (0 - (Zpos (digits2_pos (Pos.succ p)) - 53) +
           (Zpos (digits2_pos (Pos.succ p)) - 53 - -52)) with 52 by lia.
  lia.
Qed.

(** The label [index + 1] of the Instagram listing prints as the decimal
    numeral of the successor. *)
Lemma label_of_index (index : nat) :
  Z.of_nat index < 2 ^ 32 ->
  Num.toString (Num.add (Num.of_nat index) (Num.of_Z 1)) =
  Str.dec (N.of_nat (S index)).
Proof.
  intros Hb. destruct index as [|n]; [reflexivity|].
  rewrite of_nat_dbl by lia.
  assert (Hs : Zpos (digits2_pos (Pos.succ (Pos.of_nat (S n)))) <= 53)
    by (apply bits_bound; lia).
  rewrite add_one, toString_dbl by exact Hs.
  f_equal. lia.
Qed.

Lemma of_Z_negative (p : positive) :
  Zpos (digits2_pos p) <= 53 ->
  Num.of_Z (Zneg p) =
  S754_finite true (fst (shl_align p 0 (Zpos (digits2_pos p) - 53)))
    (Zpos (digits2_pos p) - 53).
Proof.
  intros Hd. unfold Num.of_Z, binary_normalize.
  pose proof (Pos2Z.is_pos (digits2_pos p)).
  apply round_exact; [now apply dbl_digits | lia |].
  left. split; [lia|]. rewrite shl_align_value by lia. reflexivity.
Qed.

(** X1.  The formatter never abbreviates a number below zero: a negative
    integer comes back as its plain decimal numeral, whatever its
    magnitude ([-5000000] as ["-5000000"]). *)
Theorem convertMiles_negative_in_full (p : positive) :
  Zpos p < 2 ^ 53 ->
  _convertMiles (VNum (Num.of_Z (Zneg p))) =
    Normal (VStr ("-" ++ Str.dec (Npos p))).
Proof.
  intros Hb. apply bits_bound in Hb.
  unfold _convertMiles, ToNumber, and_then.
  rewrite of_Z_negative by exact Hb.
  cbn [Num.isNaN].
  change (Num.of_Z 1000) with (S754_finite false 8796093022208000 (-43)).
  unfold Num.ltb, SFltb. cbn [SFcompare].
  unfold Num.toString, Num.pos_toString.
  rewrite integer_of_dbl by exact Hb.
  apply bits_bound in Hb.
  destruct (Z.ltb_spec (Zpos p) (2 ^ 53)); [reflexivity | lia].
Qed.

Lemma convertMiles_negative_in_full_witness :
  _convertMiles (VNum (Num.of_Z (-5000000))) = Normal (VStr "-5000000").
Proof.
  apply (convertMiles_negative_in_full 5000000). reflexivity.
Defined.

End IndexFacts.

(* ------------------------------------------------------------------ *)
(** ** Runs that add no event of a kind *)

Module ObserveFacts.
Import Js Run Downloader Observe RunFacts.
Local Open Scope list_scope.

Section Avoid.
Variable bad : event -> bool.

Lemma avoids_ret {A} (a : A) : avoids bad (ret a).
Proof. apply extends_ret. reflexivity. Qed.

Lemma avoids_throw {A} (e : exn) : avoids bad (@throw A e).
Proof. apply extends_throw. reflexivity. Qed.

Lemma avoids_lift {A} (c : completion A) : avoids bad (lift c).
Proof. apply extends_lift. reflexivity. Qed.

Lemma avoids_call {A} (e : event) (f : trace -> completion A) :
  bad e = false -> avoids bad (call e f).
Proof. intros H. apply extends_call. intros _. simpl. now rewrite H. Qed.

Lemma avoids_emit (e : event) : bad e = false -> avoids bad (emit e).
Proof. intros H t. exists [e]. simpl. now rewrite H. Qed.

Lemma avoids_bind {A B} (m : M A) (k : A -> M B) :
  avoids bad m -> (forall a, avoids bad (k a)) -> avoids bad (bind m k).
Proof.
  intros Hm Hk. eapply extends_bind; [exact Hm | exact Hk | |]; simpl.
  - auto.
  - intros a d c d' H H'. rewrite forallb_app, H, H'. reflexivity.
Qed.

Lemma avoids_try_catch {A} (m : M A) (h : exn -> M A) :
  avoids bad m -> (forall e, avoids bad (h e)) -> avoids bad (try_catch m h).
Proof.
  intros Hm Hh. eapply extends_try_catch; [exact Hm | exact Hh | |]; simpl.
  - auto.
  - intros e d c d' H H'. rewrite forallb_app, H, H'. reflexivity.
Qed.

Lemma avoids_spec {A} (m : M A) (t : trace) :
  avoids bad m ->
  exists d, m t = (fst (m t), t ++ d) /\ forall e, In e d -> bad e = false.
Proof.
  intros H. destruct (H t) as [d [E Hd]]. exists d. split; [exact E|].
  intros e He. rewrite forallb_forall in Hd. apply Hd in He.
  now apply negb_true_iff.
Qed.

End Avoid.

Ltac avoid :=
  repeat first
    [ apply avoids_ret | apply avoids_throw | apply avoids_lift
    | apply avoids_call; reflexivity
    | apply avoids_emit; reflexivity
    | apply avoids_bind; [| intros ?]
    | apply avoids_try_catch; [| intros ?]
    | match goal with
      | |- avoids _ (if ?b then _ else _) => destruct b
      | |- avoids _ (match ?v with _ => _ end) => destruct v
      end ].

Ltac open_methods :=
  unfold downloadTikTok, downloadInstagram, downloadSoundCloud,
    downloadFacebook, downloadTwitter, _downloadAndSendMedia, send_media,
    _fetchDownload, no_urls, facebook_mediaUrl, has_videos, call_includes,
    call_split_head, read, interpolate, interpolate_miles, fetch,
    bot_sendMessage, console_error.

Lemma sends_nil (d : trace) :
  (forall e, In e d -> is_sock_send e = false) -> sock_sends d = [].
Proof.
  induction d as [|e d IH]; intros H; [reflexivity|].
  unfold sock_sends in *. simpl. rewrite IH by (intros x Hx; apply H; now right).
  specialize (H e (or_introl eq_refl)). destruct e; try discriminate; reflexivity.
Qed.

Lemma delivery_nil (d : trace) :
  (forall e, In e d -> is_delivery e = false) ->
  relay_calls d = [] /\ bot_sends d = [] /\ logged_errors d = [].
Proof.
  induction d as [|e d IH]; intros H; [repeat split|].
  destruct IH as [I1 [I2 I3]]; [intros x Hx; apply H; now right|].
  specialize (H e (or_introl eq_refl)).
  unfold relay_calls, bot_sends, logged_errors in *. simpl.
  rewrite I1, I2, I3. destruct e; try discriminate; repeat split.
Qed.

(** A run's trace only grows, whatever the method does. *)
Lemma grows_of_avoids {A} (bad : event -> bool) (m : M A) (t : trace) :
  avoids bad m -> exists d, snd (m t) = t ++ d.
Proof. intros H. destruct (H t) as [d [E _]]. exists d. now rewrite E. Qed.

End ObserveFacts.

(* ------------------------------------------------------------------ *)
(** ** The fetch client *)

Module FetchFacts.
Import Js Run Downloader Scenario Observe Cases NumFacts RunFacts.
Local Open Scope list_scope.

Lemma status_text (st : Z) :
  (0 <= st < 2 ^ 53)%Z -> Num.toString (Num.of_Z st) = Str.dec (Z.to_N st).
Proof.
  intros H. destruct st as [|p|p]; [reflexivity | | lia].
  assert (Hd : (Zpos (digits2_pos p) <= 53)%Z) by (apply bits_bound; lia).
  now rewrite of_Z_small, toString_dbl.
Qed.

Lemma failure_not_ok (r : response) : failure_status (status r) -> ok r = false.
Proof.
  unfold failure_status, ok. intros [H|H].
  - destruct (Z.leb_spec 200 (status r)); [lia | reflexivity].
  - destruct (Z.leb_spec (status r) 299); [lia | apply andb_false_r].
Qed.

Lemma failure_in_range (st : Z) : failure_status st -> (0 <= st < 2 ^ 53)%Z.
Proof. unfold failure_status. lia. Qed.

(** The fetch client on a failure status, from any trace, for a target
    that can be encoded. *)
Lemma fetchDownload_refused (w : world) (ep url : string) (st : Z)
    (t : trace) :
  Str.lone_surrogate url = false ->
  answers_status w st -> failure_status st ->
  exists request,
    _fetchDownload w ep (VStr url) t =
    (Throw (api_error st),
     t ++ [Enter_fetchDownload ep (VStr url); Fetch request]).
Proof.
  intros Henc Hw Hst. eexists.
  unfold _fetchDownload, fetch, interpolate, bind, call, emit, throw, lift.
  cbn [ToString]. rewrite (api_url_encodes ep url Henc). cbn [ToString].
  match goal with
  | |- context [on_fetch w ?h ?u] => destruct (Hw h u) as [r [E Hr]]
  end.
  rewrite E. subst st. rewrite (failure_not_ok r Hst). cbn [negb].
  rewrite status_text by now apply failure_in_range.
  rewrite <- app_assoc. reflexivity.
Qed.

(** X5.  When the request URL can be built and the API answers with a
    status outside 200..299, the fetch client raises an error whose
    message ends in the decimal status; the body is not looked at. *)
Theorem fetchDownload_rejects_status
    (w : world) (endpoint : string) (url : value) (target request : string)
    (r : response) :
  ToString url = Normal target ->
  api_url endpoint target = Normal request ->
  on_fetch w [Enter_fetchDownload endpoint url] request = Normal r ->
  failure_status (status r) ->
  fst (_fetchDownload w endpoint url []) =
    Throw (Error ("API request failed with status " ++
                  Str.dec (Z.to_N (status r)))%string).
Proof.
  intros Ht Hreq E Hst.
  unfold _fetchDownload, fetch, interpolate, bind, call, emit, throw, lift.
  rewrite Ht, Hreq. cbn [ToString].
  change ([] ++ [Enter_fetchDownload endpoint url])
    with [Enter_fetchDownload endpoint url].
  rewrite E, (failure_not_ok r Hst). cbn [negb fst].
  rewrite status_text by now apply failure_in_range. reflexivity.
Qed.

Lemma fetchDownload_rejects_status_witness :
  fst (_fetchDownload (refusing 404) "tiktok" (VStr "https://tiktok.com/x") []) =
    Throw (Error "API request failed with status 404").
Proof.
  apply (fetchDownload_rejects_status (refusing 404) "tiktok"
           (VStr "https://tiktok.com/x") "https://tiktok.com/x"
           (apiBaseUrl ++ "/" ++ "tiktok" ++ "?url=" ++
            Str.percent_encode "https://tiktok.com/x")
           {| status := 404; json := Throw (Error "Unexpected token <");
              arrayBuffer := Normal [] |}).
  - reflexivity.
  - reflexivity.
  - reflexivity.
  - right. simpl. lia.
Defined.

(** X4.  Whatever the world answers, the fetch client makes exactly one
    network request when its request URL can be built (the target
    converts to a string and can be encoded), to that URL, and none
    otherwise; it does nothing else: no message is sent, nothing is
    logged. *)
Theorem fetchDownload_one_request
    (w : world) (endpoint : string) (url : value) :
  network_calls (snd (_fetchDownload w endpoint url [])) =
    match and_then (ToString url) (api_url endpoint) with
    | Normal request => [request]
    | Throw _ => []
    end /\
  sock_sends (snd (_fetchDownload w endpoint url [])) = [] /\
  bot_sends (snd (_fetchDownload w endpoint url [])) = [] /\
  logged_errors (snd (_fetchDownload w endpoint url [])) = [].
Proof.
  rewrite fetchDownload_trace.
  destruct (and_then (ToString url) (api_url endpoint)); repeat split.
Qed.

(** X6.  When the request URL can be built, a rejected request and an
    unreadable body are raised as they are: the fetch client wraps
    neither. *)
Theorem fetchDownload_passes_rejections
    (w : world) (endpoint : string) (url : value) (target request : string)
    (e : exn) :
  ToString url = Normal target ->
  api_url endpoint target = Normal request ->
  on_fetch w [Enter_fetchDownload endpoint url] request = Throw e \/
  (exists r, on_fetch w [Enter_fetchDownload endpoint url] request =
               Normal r /\
             ok r = true /\ json r = Throw e) ->
  fst (_fetchDownload w endpoint url []) = Throw e.
Proof.
  intros Ht Hreq H.
  unfold _fetchDownload, fetch, interpolate, bind, call, emit, throw, lift.
  rewrite Ht, Hreq. cbn [ToString].
  change ([] ++ [Enter_fetchDownload endpoint url])
    with [Enter_fetchDownload endpoint url].
  destruct H as [E|[r [E [Hok Hj]]]]; rewrite E; [reflexivity|].
  rewrite Hok, Hj. reflexivity.
Qed.

Lemma fetchDownload_passes_rejections_witness :
  fst (_fetchDownload
         {| on_fetch := fun _ _ => Throw (Error "fetch failed");
            on_sock_send := fun _ _ _ => Normal tt;
            on_bot_send := fun _ _ _ => Normal tt |}
         "tiktok" (VStr "https://tiktok.com/x") []) =
    Throw (Error "fetch failed").
Proof.
  apply (fetchDownload_passes_rejections
           {| on_fetch := fun _ _ => Throw (Error "fetch failed");
              on_sock_send := fun _ _ _ => Normal tt;
              on_bot_send := fun _ _ _ => Normal tt |}
           "tiktok" (VStr "https://tiktok.com/x") "https://tiktok.com/x"
           (apiBaseUrl ++ "/" ++ "tiktok" ++ "?url=" ++
            Str.percent_encode "https://tiktok.com/x")
           (Error "fetch failed")).
  - reflexivity.
  - reflexivity.
  - left. reflexivity.
Defined.

(** A target with a lone surrogate: the fetch client raises the URIError
    of [encodeURIComponent] and requests nothing. *)
Example fetchDownload_malformed_target :
  _fetchDownload (serving VNull) "tiktok"
    (VStr (String (ascii_of_N 237) (String (ascii_of_N 160)
             (String (ascii_of_N 128) "")))) [] =
  (Throw (Error "URI malformed"),
   [Enter_fetchDownload "tiktok"
      (VStr (String (ascii_of_N 237) (String (ascii_of_N 160)
               (String (ascii_of_N 128) ""))))]).
Proof. reflexivity. Qed.

End FetchFacts.

(* ------------------------------------------------------------------ *)
(** ** The media relay, delivery by delivery *)

Module DeliveryFacts.
Import Js Run Downloader Scenario Observe Cases RunFacts.
Local Open Scope list_scope.

(** X7.  For a media URL, a caption and a kind that convert to strings,
    the relay completes normally in every world, after exactly one
    network request, to the media URL.  The empty string goes with one
    message handed to the bot, for the chat of the command, and nothing
    logged; the fallback string goes with one logged error, labelled with
    the kind that was asked for. *)
Theorem relay_always_returns
    (w : world) (msg : message) (mediaUrl caption type : value)
    (url_text fb : string) :
  ToString mediaUrl = Normal url_text ->
  convertible type = true ->
  fallback mediaUrl caption = Normal fb ->
  exists r t,
    _downloadAndSendMedia w msg mediaUrl caption type [] = (Normal r, t) /\
    network_calls t = [url_text] /\
    ((r = "" /\ logged_errors t = [] /\
      exists m, bot_sends t = [(remoteJid (key msg), m)]) \/
     (r = fb /\
      exists e, logged_errors t =
                  [(("Error sending " ++ text_of type ++ ":")%string, e)])).
Proof.
  intros Hu Hk Hfb. apply text_of_spec in Hk.
  unfold _downloadAndSendMedia, try_catch, send_media, fetch,
    bot_sendMessage, console_error, interpolate,
    bind, call, emit, ret, throw, lift.
  rewrite Hu, Hk, Hfb.
  destruct (on_fetch w _ url_text) as [resp|e].
  2: { eexists _, _. split; [reflexivity|]. split; [reflexivity|].
       right. split; [reflexivity|]. eexists. reflexivity. }
  destruct (ok resp); cbn [negb].
  2: { eexists _, _. split; [reflexivity|]. split; [reflexivity|].
       right. split; [reflexivity|]. eexists. reflexivity. }
  destruct (arrayBuffer resp) as [buf|e].
  2: { eexists _, _. split; [reflexivity|]. split; [reflexivity|].
       right. split; [reflexivity|]. eexists. reflexivity. }
  destruct (is_string type "video"); [| destruct (is_string type "audio");
    [| destruct (is_string type "image")]].
  4: { eexists _, _. split; [reflexivity|]. split; [reflexivity|].
       right. split; [reflexivity|]. eexists. reflexivity. }
  all: match goal with
       | |- context [on_bot_send _ ?h ?j ?m] =>
           destruct (on_bot_send w h j m) as [[]|e]
       end;
       eexists _, _; (split; [reflexivity|]); (split; [reflexivity|]);
       [ left; split; [reflexivity|]; split; [reflexivity|]; eexists; reflexivity
       | right; split; [reflexivity|]; eexists; reflexivity ].
Qed.

Lemma relay_always_returns_witness :
  exists r t,
    _downloadAndSendMedia (serving VNull) owner_msg (VStr "http://m/song.mp3")
      (VStr "caption") (VStr "audio") [] = (Normal r, t) /\
    network_calls t = ["http://m/song.mp3"] /\
    ((r = "" /\ logged_errors t = [] /\
      exists m, bot_sends t = [(remoteJid (key owner_msg), m)]) \/
     (r = ("caption" ++ nl ++ nl ++
           "*Failed to send media, here's the URL instead:* " ++
           "http://m/song.mp3")%string /\
      exists e, logged_errors t =
                  [(("Error sending " ++ text_of (VStr "audio") ++ ":")%string,
                    e)])).
Proof.
  apply (relay_always_returns (serving VNull) owner_msg
           (VStr "http://m/song.mp3") (VStr "caption") (VStr "audio")
           "http://m/song.mp3"
           ("caption" ++ nl ++ nl ++
            "*Failed to send media, here's the URL instead:* " ++
            "http://m/song.mp3")%string);
    reflexivity.
Defined.

(** X8.  When the media URL converts to a string, can be fetched, and
    the bot accepts the message, the relay returns the empty string after
    handing the bot one message, for the chat of the command: the bytes
    under the key of the kind, the caption, and the mimetype of the kind
    ([video/mp4], [audio/mpeg], [image/jpeg]). *)
Theorem relay_delivers
    (w : world) (msg : message) (mediaUrl caption : value) (k : media_kind)
    (url_text : string) (b : list N) :
  ToString mediaUrl = Normal url_text ->
  serves_bytes w url_text b ->
  (forall h m, on_bot_send w h (remoteJid (key msg)) m = Normal tt) ->
  exists t,
    _downloadAndSendMedia w msg mediaUrl caption (VStr (kind_name k)) [] =
      (Normal "", t) /\
    bot_sends t =
      [(remoteJid (key msg),
        {| kind := k; buffer := b; caption := caption;
           mimetype := mimetype_of k |})] /\
    logged_errors t = [].
Proof.
  intros Hu Hf Hs.
  unfold _downloadAndSendMedia, try_catch, send_media, fetch,
    bot_sendMessage, console_error, interpolate,
    bind, call, emit, ret, throw, lift.
  rewrite Hu.
  destruct (Hf ([] ++ [Enter_downloadAndSendMedia mediaUrl caption
                         (VStr (kind_name k))])) as [r [E [Hok Hb]]].
  rewrite E, Hok, Hb. cbn [negb].
  destruct k; cbn [kind_name is_string String.eqb Ascii.eqb Bool.eqb];
    rewrite Hs; eexists; repeat split.
Qed.

Lemma relay_delivers_witness :
  exists t,
    _downloadAndSendMedia (serving VNull) owner_msg (VStr "http://m/song.mp3")
      (VStr "caption") (VStr "audio") [] = (Normal "", t) /\
    bot_sends t =
      [(VStr "chat@s.whatsapp.net",
        {| kind := audio; buffer := [1; 2; 3]%N; caption := VStr "caption";
           mimetype := "audio/mpeg" |})] /\
    logged_errors t = [].
Proof.
  apply (relay_delivers (serving VNull) owner_msg (VStr "http://m/song.mp3")
           (VStr "caption") audio "http://m/song.mp3" [1; 2; 3]%N).
  - reflexivity.
  - intros h. eexists. repeat split.
  - reflexivity.
Defined.

(** X9.  When the bot refuses the message, and the caption and the URL
    convert to strings, the relay still returns: it logs the bot's error
    under the label of the kind and gives back the fallback string. *)
Theorem relay_send_failure_falls_back
    (w : world) (msg : message) (mediaUrl caption : value) (k : media_kind)
    (url_text fb : string) (b : list N) (e : exn) :
  ToString mediaUrl = Normal url_text ->
  fallback mediaUrl caption = Normal fb ->
  serves_bytes w url_text b ->
  (forall h m, on_bot_send w h (remoteJid (key msg)) m = Throw e) ->
  exists t,
    _downloadAndSendMedia w msg mediaUrl caption (VStr (kind_name k)) [] =
      (Normal fb, t) /\
    logged_errors t = [(("Error sending " ++ kind_name k ++ ":")%string, e)] /\
    List.length (bot_sends t) = 1%nat.
Proof.
  intros Hu Hfb Hf Hs.
  unfold _downloadAndSendMedia, try_catch, send_media, fetch,
    bot_sendMessage, console_error, interpolate,
    bind, call, emit, ret, throw, lift.
  rewrite Hu, Hfb.
  destruct (Hf ([] ++ [Enter_downloadAndSendMedia mediaUrl caption
                         (VStr (kind_name k))])) as [r [E [Hok Hb]]].
  rewrite E, Hok, Hb. cbn [negb].
  destruct k; cbn [kind_name is_string String.eqb Ascii.eqb Bool.eqb ToString];
    rewrite Hs; eexists; repeat split.
Qed.

Lemma relay_send_failure_witness :
  exists t,
    _downloadAndSendMedia (send_refused VNull (Error "Connection Closed"))
      guest_msg (VStr "http://m/hd.mp4") (VStr "caption") (VStr "video") [] =
      (Normal ("caption" ++ nl ++ nl ++
               "*Failed to send media, here's the URL instead:* " ++
               "http://m/hd.mp4")%string, t) /\
    logged_errors t = [("Error sending video:", Error "Connection Closed")] /\
    List.length (bot_sends t) = 1%nat.
Proof.
  apply (relay_send_failure_falls_back
           (send_refused VNull (Error "Connection Closed")) guest_msg
           (VStr "http://m/hd.mp4") (VStr "caption") video
           "http://m/hd.mp4"
           ("caption" ++ nl ++ nl ++
            "*Failed to send media, here's the URL instead:* " ++
            "http://m/hd.mp4")%string
           [1; 2; 3]%N (Error "Connection Closed")).
  - reflexivity.
  - reflexivity.
  - intros h. eexists. repeat split.
  - reflexivity.
Defined.

End DeliveryFacts.

(* ------------------------------------------------------------------ *)
(** ** The processing notice *)

Module NoticeFacts.
Import Js Run Downloader Scenario Observe Cases StrFacts RunFacts ObserveFacts.
Local Open Scope list_scope.

Lemma sock_free_handlers (w : world) (msg : message) (params : list string)
    (name : string) (h : handler) :
  truthy (fromMe (key msg)) = false ->
  In (name, h) (commands w) ->
  avoids is_sock_send (h msg params).
Proof.
  intros Hg Hin. simpl in Hin.
  repeat (destruct Hin as [Hin|Hin]; [injection Hin as <- <- |]);
    try contradiction;
    open_methods; unfold notify_owner; rewrite Hg; avoid.
Qed.

(** X10.  A command that is not the owner's never reaches
    [bot.sock.sendMessage]: no processing notice, whatever the
    parameters and whatever the world answers. *)
Theorem guests_get_no_notice
    (w : world) (msg : message) (params : list string)
    (name : string) (h : handler) :
  truthy (fromMe (key msg)) = false ->
  In (name, h) (commands w) ->
  sock_sends (snd (h msg params [])) = [].
Proof.
  intros Hg Hin.
  destruct (avoids_spec _ _ [] (sock_free_handlers w msg params name h Hg Hin))
    as [d [E Hd]].
  rewrite E. cbn [snd app]. now apply sends_nil.
Qed.

Lemma guests_get_no_notice_witness :
  sock_sends (snd (downloadTikTok (serving tiktok_reply) guest_msg
                     ["https://tiktok.com/x"] [])) = [].
Proof.
  apply (guests_get_no_notice (serving tiktok_reply) guest_msg
           ["https://tiktok.com/x"] "tiktok"
           (downloadTikTok (serving tiktok_reply))).
  - reflexivity.
  - left. reflexivity.
Defined.

(** With a URL, a handler is its notice followed by the rest. *)
Lemma handler_starts_with_notice (w : world) (msg : message) (url : string)
    (rest : list string) (name : string) (h : handler) :
  url <> "" -> In (name, h) (commands w) ->
  exists body : M string,
    h msg (url :: rest) =
      bind (notify_owner w msg (platform_of name)) (fun _ => body) /\
    avoids (fun _ => false) body.
Proof.
  intros Hurl Hin. simpl in Hin.
  repeat (destruct Hin as [Hin|Hin]; [injection Hin as <- <- |]);
    try contradiction;
    unfold downloadTikTok, downloadInstagram, downloadSoundCloud,
      downloadFacebook, downloadTwitter;
    cbn [param nth_error]; rewrite (truthy_nonempty url Hurl); cbn [negb];
    (eexists; split; [reflexivity|]); open_methods; avoid.
Qed.

(** X11.  For the owner, with a URL, the first thing any handler does is to
    send the processing notice of its platform to the chat of the
    command, as an edit of the command's own message. *)
Theorem owner_notice_comes_first
    (w : world) (msg : message) (url : string) (rest : list string)
    (name : string) (h : handler) :
  url <> "" -> from_owner msg -> In (name, h) (commands w) ->
  exists d,
    snd (h msg (url :: rest) []) =
      SockSendMessage (remoteJid (key msg))
        {| text := "⏳ *Processing " ++ platform_of name ++ " Download...*" ++
                   nl ++ nl ++ "🔄 Working on your request...";
           edit := key msg |} :: d.
Proof.
  intros Hurl Howner Hin.
  destruct (handler_starts_with_notice w msg url rest name h Hurl Hin)
    as [body [-> Hbody]].
  unfold notify_owner. rewrite Howner.
  unfold bind, sock_sendMessage, call. cbn [app].
  destruct (on_sock_send w [] _ _) as [[]|e].
  - destruct (grows_of_avoids _ body [SockSendMessage (remoteJid (key msg))
        {| text := "⏳ *Processing " ++ platform_of name ++ " Download...*" ++
                   nl ++ nl ++ "🔄 Working on your request...";
           edit := key msg |}] Hbody) as [d E].
    exists d. rewrite E. reflexivity.
  - exists []. reflexivity.
Qed.

Lemma owner_notice_comes_first_witness :
  exists d,
    snd (downloadFacebook (serving (facebook_reply [])) owner_msg
           ["https://fb.watch/x"] []) =
      SockSendMessage (VStr "chat@s.whatsapp.net")
        {| text := "⏳ *Processing Facebook Download...*" ++
                   nl ++ nl ++ "🔄 Working on your request...";
           edit := key owner_msg |} :: d.
Proof.
  apply (owner_notice_comes_first (serving (facebook_reply [])) owner_msg
           "https://fb.watch/x" [] "facebook"
           (downloadFacebook (serving (facebook_reply [])))).
  - discriminate.
  - reflexivity.
  - do 4 right. left. reflexivity.
Defined.

(** X12.  When the notice cannot be sent, the handler ends there and raises
    the error of the send: nothing is fetched.  This holds for the
    Facebook and Twitter handlers too, whose [try] starts only after the
    notice. *)
Theorem notice_failure_aborts
    (w : world) (msg : message) (url : string) (rest : list string)
    (e : exn) (name : string) (h : handler) :
  url <> "" -> from_owner msg ->
  (forall t m, on_sock_send w t (remoteJid (key msg)) m = Throw e) ->
  In (name, h) (commands w) ->
  fst (h msg (url :: rest) []) = Throw e /\
  network_calls (snd (h msg (url :: rest) [])) = [] /\
  List.length (snd (h msg (url :: rest) [])) = 1%nat.
Proof.
  intros Hurl Howner Hsend Hin.
  destruct (handler_starts_with_notice w msg url rest name h Hurl Hin)
    as [body [-> _]].
  unfold notify_owner. rewrite Howner.
  unfold bind, sock_sendMessage, call. rewrite Hsend. repeat split.
Qed.

Lemma notice_failure_aborts_witness :
  fst (downloadTwitter
         (notice_refused (twitter_reply "video") (Error "Connection Closed"))
         owner_msg ["https://x.com/i/status/1"] []) =
    Throw (Error "Connection Closed") /\
  network_calls
    (snd (downloadTwitter
            (notice_refused (twitter_reply "video") (Error "Connection Closed"))
            owner_msg ["https://x.com/i/status/1"] [])) = [] /\
  List.length
    (snd (downloadTwitter
            (notice_refused (twitter_reply "video") (Error "Connection Closed"))
            owner_msg ["https://x.com/i/status/1"] [])) = 1%nat.
Proof.
  apply (notice_failure_aborts
           (notice_refused (twitter_reply "video") (Error "Connection Closed"))
           owner_msg "https://x.com/i/status/1" [] (Error "Connection Closed")
           "twitter"
           (downloadTwitter
              (notice_refused (twitter_reply "video")
                 (Error "Connection Closed")))).
  - discriminate.
  - reflexivity.
  - reflexivity.
  - do 3 right. left. reflexivity.
Defined.

End NoticeFacts.

(* ------------------------------------------------------------------ *)
(** ** The handlers on failing and on incomplete replies *)

Module FailureFacts.
Import Js Run Downloader Scenario Observe Cases StrFacts NumFacts RunFacts.
Import ObserveFacts FetchFacts.
Local Open Scope list_scope.

(** X13.  The Facebook and Twitter handlers never raise once the notice
    is through: whatever goes wrong after it, in the API call or in the
    reply, comes back as text. *)
Theorem guarded_handlers_never_raise
    (w : world) (msg : message) (params : list string) (h : handler) :
  notice_ok w msg ->
  In h [downloadFacebook w; downloadTwitter w] ->
  exists s, fst (h msg params []) = Normal s.
Proof.
  intros Hok Hin.
  destruct (notify_run w msg "Facebook" [] Hok) as [d [E _]].
  destruct (notify_run w msg "Twitter" [] Hok) as [d' [E' _]].
  destruct Hin as [<-|[<-|[]]].
  - unfold downloadFacebook. destruct (negb (truthy (param params 0)));
      [eexists; reflexivity|].
    rewrite (bind_run _ _ _ _ _ E). unfold try_catch.
    match goal with
    | |- context [bind ?m ?k ?t] => destruct (bind m k t) as [[s|e] t']
    end; eexists; reflexivity.
  - unfold downloadTwitter. destruct (negb (truthy (param params 0)));
      [eexists; reflexivity|].
    rewrite (bind_run _ _ _ _ _ E'). unfold try_catch.
    match goal with
    | |- context [bind ?m ?k ?t] => destruct (bind m k t) as [[s|e] t']
    end; eexists; reflexivity.
Qed.

Lemma guarded_handlers_never_raise_witness :
  exists s,
    fst (downloadTwitter (refusing 500) owner_msg
           ["https://x.com/i/status/1"] []) = Normal s.
Proof.
  apply (guarded_handlers_never_raise (refusing 500) owner_msg
           ["https://x.com/i/status/1"] (downloadTwitter (refusing 500))).
  - intros _ h m. reflexivity.
  - right. left. reflexivity.
Defined.

Section Refused.
Variables (w : world) (msg : message) (url : string) (rest : list string).
Variable st : Z.
Hypothesis Hurl : url <> "".
Hypothesis Henc : Str.lone_surrogate url = false.
Hypothesis Hok : notice_ok w msg.
Hypothesis Hw : answers_status w st.
Hypothesis Hst : failure_status st.

Ltac refuse ep :=
  match goal with
  | |- context [bind (_fetchDownload w ep (VStr url)) _ ?t] =>
      let request := fresh "request" in
      let Ef := fresh "Ef" in
      destruct (fetchDownload_refused w ep url st t Henc Hw Hst)
        as [request Ef];
      rewrite (bind_raise _ _ _ _ _ Ef)
  end.

Lemma tiktok_refused :
  exists t, downloadTikTok w msg (url :: rest) [] = (Throw (api_error st), t) /\
            relay_calls t = [].
Proof.
  destruct (notify_run w msg "TikTok" [] Hok) as [d [E [[Hr _] _]]].
  unfold downloadTikTok. start_handler Hurl E. refuse "tiktok".
  eexists. split; [reflexivity|]. now rewrite !relay_calls_app, Hr.
Qed.

Lemma instagram_refused :
  exists t, downloadInstagram w msg (url :: rest) [] = (Throw (api_error st), t) /\
            relay_calls t = [].
Proof.
  destruct (notify_run w msg "Instagram" [] Hok) as [d [E [[Hr _] _]]].
  unfold downloadInstagram. start_handler Hurl E.
  cbn [call_includes]. rewrite bind_ret.
  match goal with
  | |- context [bind (_fetchDownload w ?ep (VStr url)) _ ?t] =>
      destruct (fetchDownload_refused w ep url st t Henc Hw Hst)
        as [request Ef];
      rewrite (bind_raise _ _ _ _ _ Ef)
  end.
  eexists. split; [reflexivity|]. now rewrite !relay_calls_app, Hr.
Qed.

Lemma soundcloud_refused :
  exists t, downloadSoundCloud w msg (url :: rest) [] = (Throw (api_error st), t) /\
            relay_calls t = [].
Proof.
  destruct (notify_run w msg "SoundCloud" [] Hok) as [d [E [[Hr _] _]]].
  unfold downloadSoundCloud. start_handler Hurl E. refuse "soundcloud".
  eexists. split; [reflexivity|]. now rewrite !relay_calls_app, Hr.
Qed.

Lemma twitter_refused :
  exists t,
    downloadTwitter w msg (url :: rest) [] =
      (Normal ("❌ Failed to download Twitter media: " ++
               "API request failed with status " ++ Str.dec (Z.to_N st))%string,
       t) /\
    relay_calls t = [].
Proof.
  destruct (notify_run w msg "Twitter" [] Hok) as [d [E [[Hr _] _]]].
  unfold downloadTwitter. start_handler Hurl E. unfold try_catch.
  refuse "twitterv2".
  eexists. split; [reflexivity|]. now rewrite !relay_calls_app, Hr.
Qed.

Lemma facebook_refused :
  exists t,
    downloadFacebook w msg (url :: rest) [] =
      (Normal ("❌ Failed to download Facebook video: " ++
               "API request failed with status " ++ Str.dec (Z.to_N st))%string,
       t) /\
    relay_calls t = [].
Proof.
  destruct (notify_run w msg "Facebook" [] Hok) as [d [E [[Hr _] _]]].
  unfold downloadFacebook. start_handler Hurl E. unfold try_catch.
  refuse "facebook".
  eexists. split; [reflexivity|]. now rewrite !relay_calls_app, Hr.
Qed.

End Refused.

(** X14.  For a target URL that can be encoded: when the API answers
    with a failure status, the TikTok, Instagram and SoundCloud handlers
    raise the error of the fetch client, while the Twitter and Facebook
    handlers return its message after their failure prefix; none of them
    reaches the relay. *)
Theorem api_failure_by_handler
    (w : world) (msg : message) (url : string) (rest : list string) (st : Z) :
  url <> "" -> Str.lone_surrogate url = false -> notice_ok w msg ->
  answers_status w st -> failure_status st ->
  map (fun c => (fst c, fst (snd c msg (url :: rest) []),
                 relay_calls (snd (snd c msg (url :: rest) []))))
      (commands w) =
    [ ("tiktok", Throw (api_error st), []);
      ("instagram", Throw (api_error st), []);
      ("soundcloud", Throw (api_error st), []);
      ("twitter",
       Normal ("❌ Failed to download Twitter media: " ++
               "API request failed with status " ++ Str.dec (Z.to_N st))%string,
       []);
      ("facebook",
       Normal ("❌ Failed to download Facebook video: " ++
               "API request failed with status " ++ Str.dec (Z.to_N st))%string,
       []) ].
Proof.
  intros Hurl Henc Hok Hw Hst.
  destruct (tiktok_refused w msg url rest st Hurl Henc Hok Hw Hst)
    as [t1 [E1 R1]].
  destruct (instagram_refused w msg url rest st Hurl Henc Hok Hw Hst)
    as [t2 [E2 R2]].
  destruct (soundcloud_refused w msg url rest st Hurl Henc Hok Hw Hst)
    as [t3 [E3 R3]].
  destruct (twitter_refused w msg url rest st Hurl Henc Hok Hw Hst)
    as [t4 [E4 R4]].
  destruct (facebook_refused w msg url rest st Hurl Henc Hok Hw Hst)
    as [t5 [E5 R5]].
  unfold commands. cbn [map fst snd].
  rewrite E1, E2, E3, E4, E5. cbn [fst snd].
  rewrite R1, R2, R3, R4, R5. reflexivity.
Qed.

Lemma api_failure_by_handler_witness :
  map (fun c => (fst c, fst (snd c guest_msg ["https://e.x/1"] []),
                 relay_calls (snd (snd c guest_msg ["https://e.x/1"] []))))
      (commands (refusing 503)) =
    [ ("tiktok", Throw (api_error 503), []);
      ("instagram", Throw (api_error 503), []);
      ("soundcloud", Throw (api_error 503), []);
      ("twitter",
       Normal ("❌ Failed to download Twitter media: " ++
               "API request failed with status " ++ Str.dec (Z.to_N 503))%string,
       []);
      ("facebook",
       Normal ("❌ Failed to download Facebook video: " ++
               "API request failed with status " ++ Str.dec (Z.to_N 503))%string,
       []) ].
Proof.
  apply (api_failure_by_handler (refusing 503) guest_msg "https://e.x/1" [] 503).
  - discriminate.
  - reflexivity.
  - discriminate.
  - intros h u. eexists. split; reflexivity.
  - right. simpl. lia.
Defined.

Section NoData.
Variables (w : world) (msg : message) (url : string) (rest : list string).
Variable result : value.
Hypothesis Hurl : url <> "".
Hypothesis Henc : Str.lone_surrogate url = false.
Hypothesis Hok : notice_ok w msg.
Hypothesis Hapi : forall endpoint, api_serves w endpoint url result.
Hypothesis Hdata : get result "data" = Normal VUndefined.

Lemma read_undefined (k : string) (keys : list string) (t : trace) :
  read VUndefined (k :: keys) t =
  (Throw (Error ("Cannot read properties of undefined (reading '" ++ k ++ "')")),
   t).
Proof. reflexivity. Qed.

Lemma tiktok_no_data :
  exists t,
    downloadTikTok w msg (url :: rest) [] =
      (Throw (Error "Cannot read properties of undefined (reading 'author')"),
       t) /\
    relay_calls t = [].
Proof.
  destruct (notify_run w msg "TikTok" [] Hok) as [d [E [[Hr _] _]]].
  unfold downloadTikTok. start_handler Hurl E.
  step_fetch w "tiktok" url Henc (Hapi "tiktok").
  step_read VUndefined.
  rewrite (bind_raise _ _ _ _ _ (read_undefined _ _ _)).
  eexists. split; [reflexivity|]. now rewrite !relay_calls_app, Hr.
Qed.

Lemma instagram_no_data :
  exists t,
    downloadInstagram w msg (url :: rest) [] =
      (Throw (Error "Cannot read properties of undefined (reading 'forEach')"),
       t) /\
    relay_calls t = [].
Proof.
  destruct (notify_run w msg "Instagram" [] Hok) as [d [E [[Hr _] _]]].
  unfold downloadInstagram. start_handler Hurl E.
  cbn [call_includes]. rewrite bind_ret.
  match goal with
  | |- context [bind (_fetchDownload w ?ep (VStr url)) _ _] =>
      step_fetch w ep url Henc (Hapi ep)
  end.
  step_read VUndefined.
  rewrite (bind_raise _ _ _ _ _ (read_undefined _ _ _)).
  eexists. split; [reflexivity|]. now rewrite !relay_calls_app, Hr.
Qed.

Lemma soundcloud_no_data :
  exists t,
    downloadSoundCloud w msg (url :: rest) [] =
      (Throw (Error "Cannot read properties of undefined (reading 'title')"),
       t) /\
    relay_calls t = [].
Proof.
  destruct (notify_run w msg "SoundCloud" [] Hok) as [d [E [[Hr _] _]]].
  unfold downloadSoundCloud. start_handler Hurl E.
  step_fetch w "soundcloud" url Henc (Hapi "soundcloud").
  step_read VUndefined.
  rewrite (bind_raise _ _ _ _ _ (read_undefined _ _ _)).
  eexists. split; [reflexivity|]. now rewrite !relay_calls_app, Hr.
Qed.

Lemma twitter_no_data :
  exists t,
    downloadTwitter w msg (url :: rest) [] =
      (Normal ("❌ Failed to download Twitter media: " ++
               "Cannot read properties of undefined (reading 'media')")%string,
       t) /\
    relay_calls t = [].
Proof.
  destruct (notify_run w msg "Twitter" [] Hok) as [d [E [[Hr _] _]]].
  unfold downloadTwitter. start_handler Hurl E. unfold try_catch.
  step_fetch w "twitterv2" url Henc (Hapi "twitterv2").
  step_read VUndefined.
  rewrite (bind_raise _ _ _ _ _ (read_undefined _ _ _)).
  eexists. split; [reflexivity|]. now rewrite !relay_calls_app, Hr.
Qed.

End NoData.

(** X15.  For a target URL that can be encoded, and a 2xx reply without
    [data]: the TikTok, Instagram and SoundCloud handlers raise the
    TypeError of their first read below [data]; the Twitter handler
    returns that error's message after its failure prefix.  None of them
    reaches the relay. *)
Theorem missing_data_by_handler
    (w : world) (msg : message) (url : string) (rest : list string)
    (result : value) :
  url <> "" -> Str.lone_surrogate url = false -> notice_ok w msg ->
  (forall endpoint, api_serves w endpoint url result) ->
  get result "data" = Normal VUndefined ->
  map (fun c => (fst c, fst (snd c msg (url :: rest) []),
                 relay_calls (snd (snd c msg (url :: rest) []))))
      (firstn 4 (commands w)) =
    [ ("tiktok",
       Throw (Error "Cannot read properties of undefined (reading 'author')"),
       []);
      ("instagram",
       Throw (Error "Cannot read properties of undefined (reading 'forEach')"),
       []);
      ("soundcloud",
       Throw (Error "Cannot read properties of undefined (reading 'title')"),
       []);
      ("twitter",
       Normal ("❌ Failed to download Twitter media: " ++
               "Cannot read properties of undefined (reading 'media')")%string,
       []) ].
Proof.
  intros Hurl Henc Hok Hapi Hdata.
  destruct (tiktok_no_data w msg url rest result Hurl Henc Hok Hapi Hdata)
    as [t1 [E1 R1]].
  destruct (instagram_no_data w msg url rest result Hurl Henc Hok Hapi Hdata)
    as [t2 [E2 R2]].
  destruct (soundcloud_no_data w msg url rest result Hurl Henc Hok Hapi Hdata)
    as [t3 [E3 R3]].
  destruct (twitter_no_data w msg url rest result Hurl Henc Hok Hapi Hdata)
    as [t4 [E4 R4]].
  unfold commands. cbn [map fst snd firstn].
  rewrite E1, E2, E3, E4. cbn [fst snd].
  rewrite R1, R2, R3, R4. reflexivity.
Qed.

Lemma missing_data_by_handler_witness :
  map (fun c => (fst c, fst (snd c guest_msg ["https://e.x/1"] []),
                 relay_calls (snd (snd c guest_msg ["https://e.x/1"] []))))
      (firstn 4 (commands (serving (VObj [("status", VBool false)])))) =
    [ ("tiktok",
       Throw (Error "Cannot read properties of undefined (reading 'author')"),
       []);
      ("instagram",
       Throw (Error "Cannot read properties of undefined (reading 'forEach')"),
       []);
      ("soundcloud",
       Throw (Error "Cannot read properties of undefined (reading 'title')"),
       []);
      ("twitter",
       Normal ("❌ Failed to download Twitter media: " ++
               "Cannot read properties of undefined (reading 'media')")%string,
       []) ].
Proof.
  apply (missing_data_by_handler (serving (VObj [("status", VBool false)]))
           guest_msg "https://e.x/1" [] (VObj [("status", VBool false)])).
  - discriminate.
  - reflexivity.
  - discriminate.
  - intros ep request _ h. eexists. repeat split.
  - reflexivity.
Defined.

End FailureFacts.

(* ------------------------------------------------------------------ *)
(** ** What each handler picks from a reply *)

Module SelectionFacts.
Import Js Run Downloader Scenario Observe Cases StrFacts NumFacts RunFacts.
Import IndexFacts ObserveFacts.
Import HandlerFacts.
Local Open Scope list_scope.


Lemma readable_spec (v : value) (keys : list string) :
  readable v keys = true ->
  exists x, path v keys = Normal x /\ convertible x = true.
Proof.
  unfold readable. destruct (path v keys) as [x|e]; [eauto | discriminate].
Qed.

Lemma interpolate_raises (v : value) (e : exn) (t : trace) :
  ToString v = Throw e -> interpolate v t = (Throw e, t).
Proof. intros H. unfold interpolate, lift. now rewrite H. Qed.

(** A substitution [${v.k1.k2...}] whose value converts, and one through
    the formatter. *)
Ltac step_field H :=
  let x := fresh "x" in
  let Hp := fresh "Hp" in
  let Hc := fresh "Hc" in
  destruct (readable_spec _ _ H) as [x [Hp Hc]];
  rewrite (bind_run _ _ _ _ _ (read_run _ _ _ _ Hp));
  rewrite (bind_run _ _ _ _ _ (interpolate_run _ _ Hc)).

Ltac step_counter H :=
  let x := fresh "x" in
  let Hp := fresh "Hp" in
  let Hc := fresh "Hc" in
  destruct (readable_spec _ _ H) as [x [Hp Hc]];
  rewrite (bind_run _ _ _ _ _ (read_run _ _ _ _ Hp));
  rewrite (bind_run _ _ _ _ _ (interpolate_miles_run _ _ Hc)).

(** *** TikTok *)



(** *** SoundCloud *)

(** X19.  For a target URL that can be encoded and a reply whose title,
    artist, three counters and [download] convert to strings: the
    SoundCloud handler relays [data.download] as audio, under the caption
    built from the title, the artist and the three formatted counters,
    and returns the empty string. *)
Theorem soundcloud_relays_download
    (w : world) (msg : message) (url : string) (rest : list string)
    (result res title author playbacks likes comments download : value) :
  url <> "" -> Str.lone_surrogate url = false -> notice_ok w msg ->
  api_serves w "soundcloud" url result ->
  get result "data" = Normal res ->
  get res "title" = Normal title -> convertible title = true ->
  get res "author" = Normal author -> convertible author = true ->
  get res "playbacks" = Normal playbacks -> convertible playbacks = true ->
  get res "likes" = Normal likes -> convertible likes = true ->
  get res "comments" = Normal comments -> convertible comments = true ->
  get res "download" = Normal download -> convertible download = true ->
  fst (downloadSoundCloud w msg (url :: rest) []) = Normal "" /\
  relay_calls (snd (downloadSoundCloud w msg (url :: rest) [])) =
    [(download,
      VStr (soundcloud_caption title author playbacks likes comments),
      VStr "audio")].
Proof.
  intros Hurl Henc Hok Hapi Hdata Ht Hct Ha Hca Hp Hcp Hl Hcl Hc Hcc Hd Hcd.
  destruct (notify_run w msg "SoundCloud" [] Hok) as [d [E [[Hr _] _]]].
  unfold downloadSoundCloud. start_handler Hurl E.
  step_fetch w "soundcloud" url Henc Hapi.
  step_read res.
  step_read title. step_text Hct.
  step_read author. step_text Hca.
  step_read playbacks. step_miles Hcp.
  step_read likes. step_miles Hcl.
  step_read comments. step_miles Hcc.
  step_read download.
  finish_with_relay Hcd Hr. split; reflexivity.
Qed.

Lemma soundcloud_relays_download_witness :
  fst (downloadSoundCloud (serving soundcloud_reply) guest_msg
         ["https://soundcloud.com/x"] []) = Normal "" /\
  relay_calls (snd (downloadSoundCloud (serving soundcloud_reply) guest_msg
                      ["https://soundcloud.com/x"] [])) =
    [(VStr "http://m/song.mp3",
      VStr (soundcloud_caption (VStr "Song") (VStr "Band") (num 2500000)
              (num 1500) (num 12)),
      VStr "audio")].
Proof.
  apply (soundcloud_relays_download (serving soundcloud_reply) guest_msg
           "https://soundcloud.com/x" [] soundcloud_reply
           (lookup "data" (match soundcloud_reply with
                           | VObj f => f
                           | _ => []
                           end))
           (VStr "Song") (VStr "Band") (num 2500000) (num 1500) (num 12)
           (VStr "http://m/song.mp3"));
    try reflexivity; try discriminate.
  intros request _ h. eexists. repeat split.
Defined.

(** The relay when the fetch of the media fails, from any trace, called
    as the handlers call it: with a caption and a kind that are
    strings. *)
Lemma relay_fetch_fails_run (w : world) (msg : message) (u : value)
    (c kind s : string) (t : trace) :
  ToString u = Normal s -> fetch_fails w s ->
  exists e fb,
    _downloadAndSendMedia w msg u (VStr c) (VStr kind) t =
      (Normal fb,
       t ++ [Enter_downloadAndSendMedia u (VStr c) (VStr kind); Fetch s;
             ConsoleError ("Error sending " ++ kind ++ ":") e;
             Leave_downloadAndSendMedia fb]).
Proof.
  intros Hu Hfail.
  unfold _downloadAndSendMedia, try_catch, send_media, fetch, console_error,
    interpolate, fallback, bind, call, emit, ret, throw, lift.
  rewrite Hu. cbn [ToString and_then].
  specialize (Hfail (t ++ [Enter_downloadAndSendMedia u (VStr c) (VStr kind)])).
  destruct (on_fetch w _ s) as [resp|e].
  - rewrite Hfail. cbn [negb]. do 2 eexists. rewrite <- !app_assoc. reflexivity.
  - do 2 eexists. rewrite <- !app_assoc. reflexivity.
Qed.

(** X20.  For a target URL that can be encoded and a reply whose caption
    fields convert to strings: a SoundCloud reply without a [download]
    field is not reported to the user: the relay is called with
    [undefined], its fetch of the text "undefined" fails, the relay's
    fallback is dropped, and the handler returns the empty string having
    sent no media; the error is only logged. *)
Theorem soundcloud_missing_download_is_silent
    (w : world) (msg : message) (url : string) (rest : list string)
    (result res : value) :
  url <> "" -> Str.lone_surrogate url = false -> notice_ok w msg ->
  api_serves w "soundcloud" url result ->
  get result "data" = Normal res ->
  forallb (readable res) soundcloud_caption_fields = true ->
  get res "download" = Normal VUndefined ->
  fetch_fails w "undefined" ->
  fst (downloadSoundCloud w msg (url :: rest) []) = Normal "" /\
  bot_sends (snd (downloadSoundCloud w msg (url :: rest) [])) = [] /\
  List.length (logged_errors (snd (downloadSoundCloud w msg (url :: rest) [])))
    = 1%nat.
Proof.
  intros Hurl Henc Hok Hapi Hdata Hfields Hd Hfail.
  assert (Hn : exists d, notify_owner w msg "SoundCloud" [] = (Normal tt, [] ++ d) /\
                         bot_sends d = [] /\ logged_errors d = []).
  { unfold notify_owner, sock_sendMessage, call, ret.
    destruct (truthy (fromMe (key msg))) eqn:Ef.
    - rewrite (Hok Ef). eexists. repeat split.
    - exists []. repeat split. }
  destruct Hn as [d [E [Hb Hl]]].
  unfold soundcloud_caption_fields in Hfields. cbn [forallb] in Hfields.
  rewrite !andb_true_iff in Hfields.
  destruct Hfields as (F1 & F2 & F3 & F4 & F5 & _).
  unfold downloadSoundCloud. start_handler Hurl E.
  step_fetch w "soundcloud" url Henc Hapi.
  step_read res.
  step_field F1. step_field F2.
  step_counter F3. step_counter F4. step_counter F5.
  step_read VUndefined.
  match goal with
  | |- context [bind (_downloadAndSendMedia w msg ?u (VStr ?c) (VStr ?k)) _ ?t] =>
      destruct (relay_fetch_fails_run w msg u c k "undefined" t eq_refl Hfail)
        as [e [fb Er]];
      rewrite (bind_run _ _ _ _ _ Er)
  end.
  cbn [ret fst snd]. unfold bot_sends, logged_errors in *.
  rewrite !flat_map_app, Hb, Hl. repeat split.
Qed.

Lemma soundcloud_missing_download_witness :
  fst (downloadSoundCloud
         (media_missing "https://delirius-apiofc.vercel.app/download/soundcloud?url=https%3A%2F%2Fsoundcloud.com%2Fx"
            (VObj [("data", VObj [("title", VStr "Song")])]))
         guest_msg ["https://soundcloud.com/x"] []) = Normal "" /\
  bot_sends
    (snd (downloadSoundCloud
            (media_missing "https://delirius-apiofc.vercel.app/download/soundcloud?url=https%3A%2F%2Fsoundcloud.com%2Fx"
               (VObj [("data", VObj [("title", VStr "Song")])]))
            guest_msg ["https://soundcloud.com/x"] [])) = [] /\
  List.length
    (logged_errors
       (snd (downloadSoundCloud
               (media_missing "https://delirius-apiofc.vercel.app/download/soundcloud?url=https%3A%2F%2Fsoundcloud.com%2Fx"
                  (VObj [("data", VObj [("title", VStr "Song")])]))
               guest_msg ["https://soundcloud.com/x"] []))) = 1%nat.
Proof.
  apply (soundcloud_missing_download_is_silent
           (media_missing "https://delirius-apiofc.vercel.app/download/soundcloud?url=https%3A%2F%2Fsoundcloud.com%2Fx"
              (VObj [("data", VObj [("title", VStr "Song")])]))
           guest_msg "https://soundcloud.com/x" []
           (VObj [("data", VObj [("title", VStr "Song")])])
           (VObj [("title", VStr "Song")]));
    try reflexivity; try discriminate.
  - intros request Hreq h. injection Hreq as <-. eexists. repeat split.
  - intros h. reflexivity.
Defined.

(** *** Facebook *)

(** X21.  For a target URL that can be encoded: a Facebook reply whose
    [urls] is missing, falsy or not an array is refused like an empty
    one: the handler returns the failure text and does not reach the
    relay. *)
Theorem facebook_urls_not_a_list
    (w : world) (msg : message) (url : string) (rest : list string)
    (result urls : value) :
  url <> "" -> Str.lone_surrogate url = false -> notice_ok w msg ->
  api_serves w "facebook" url result ->
  get result "urls" = Normal urls ->
  truthy urls = false \/ isArray urls = false ->
  fst (downloadFacebook w msg (url :: rest) []) =
    Normal "❌ Failed to download Facebook video: Invalid API response: No media URLs found" /\
  relay_calls (snd (downloadFacebook w msg (url :: rest) [])) = [].
Proof.
  intros Hurl Henc Hok Hapi Hurls Hbad.
  destruct (notify_run w msg "Facebook" [] Hok) as [d [E [[Hr _] _]]].
  assert (Hno : forall t, no_urls result t = (Normal true, t)).
  { intros t. unfold no_urls. step_read urls.
    destruct Hbad as [-> | Ha]; [reflexivity|].
    destruct (truthy urls); [|reflexivity]. now rewrite Ha. }
  unfold downloadFacebook. start_handler Hurl E. unfold try_catch.
  step_fetch w "facebook" url Henc Hapi.
  rewrite (bind_run _ _ _ _ _ (Hno _)).
  cbn [throw ret fst snd message_of]. split; [reflexivity|].
  now rewrite !relay_calls_app, Hr.
Qed.

Lemma facebook_urls_not_a_list_witness :
  fst (downloadFacebook (serving (VObj [("urls", VStr "http://m/v.mp4")]))
         guest_msg ["https://fb.watch/x"] []) =
    Normal "❌ Failed to download Facebook video: Invalid API response: No media URLs found" /\
  relay_calls
    (snd (downloadFacebook (serving (VObj [("urls", VStr "http://m/v.mp4")]))
            guest_msg ["https://fb.watch/x"] [])) = [].
Proof.
  apply (facebook_urls_not_a_list
           (serving (VObj [("urls", VStr "http://m/v.mp4")])) guest_msg
           "https://fb.watch/x" [] (VObj [("urls", VStr "http://m/v.mp4")])
           (VStr "http://m/v.mp4"));
    try reflexivity; try discriminate.
  - intros request _ h. eexists. repeat split.
  - right. reflexivity.
Defined.

(** X22.  For a target URL that can be encoded and a title that converts
    to a string: the caption of a Facebook video carries the reply's
    title, and the words "No title available" when the title is missing
    or falsy; with a truthy [hd] in the first entry, one that converts to
    a string, that caption and that URL are what the relay gets. *)
Theorem facebook_caption_title
    (w : world) (msg : message) (url : string) (rest : list string)
    (result first hd title : value) (others : list value) :
  url <> "" -> Str.lone_surrogate url = false -> notice_ok w msg ->
  api_serves w "facebook" url result ->
  get result "urls" = Normal (VArr (first :: others)) ->
  array_length_ok (first :: others) ->
  get first "hd" = Normal hd -> truthy hd = true -> convertible hd = true ->
  get result "title" = Normal title -> convertible title = true ->
  relay_calls (snd (downloadFacebook w msg (url :: rest) [])) =
    [(hd,
      VStr ("╭  ✦ Facebook video Download ✦  ╮" ++ nl ++ nl ++
            "*◦ Title:* " ++
            (if truthy title then text_of title else "No title available")),
      VStr "video")].
Proof.
  intros Hurl Henc Hok Hapi Hurls Hlen Hhd Htruthy Hch Htitle Hct.
  destruct (notify_run w msg "Facebook" [] Hok) as [d [E [[Hr _] _]]].
  assert (Hmedia : forall t, facebook_mediaUrl result t = (Normal hd, t)).
  { intros t.
    destruct (facebook_mediaUrl_run result first hd others t Hurls Hhd)
      as [sd [_ Hm]].
    unfold or_else in Hm. now rewrite Htruthy in Hm. }
  assert (Hto : convertible (or_else title (VStr "No title available")) = true)
    by (unfold or_else; destruct (truthy title); [exact Hct | reflexivity]).
  unfold downloadFacebook. start_handler Hurl E. unfold try_catch.
  step_fetch w "facebook" url Henc Hapi.
  rewrite (bind_run _ _ _ _ _ (no_urls_run result _ _ Hurls Hlen)).
  step_read title. step_text Hto.
  rewrite (bind_run _ _ _ _ _ (Hmedia _)). rewrite Htruthy. cbn [negb].
  finish_with_relay Hch Hr. unfold or_else.
  destruct (truthy title); reflexivity.
Qed.

Lemma facebook_caption_title_witness :
  relay_calls
    (snd (downloadFacebook
            (serving (VObj [("urls", VArr [VObj [("hd", VStr "http://m/hd.mp4")]])]))
            guest_msg ["https://fb.watch/x"] [])) =
    [(VStr "http://m/hd.mp4",
      VStr ("╭  ✦ Facebook video Download ✦  ╮" ++ nl ++ nl ++
            "*◦ Title:* " ++
            (if truthy VUndefined then text_of VUndefined
             else "No title available")),
      VStr "video")].
Proof.
  apply (facebook_caption_title
           (serving (VObj [("urls", VArr [VObj [("hd", VStr "http://m/hd.mp4")]])]))
           guest_msg "https://fb.watch/x" []
           (VObj [("urls", VArr [VObj [("hd", VStr "http://m/hd.mp4")]])])
           (VObj [("hd", VStr "http://m/hd.mp4")])
           (VStr "http://m/hd.mp4") VUndefined []);
    try reflexivity; try discriminate.
  intros request _ h. eexists. repeat split.
Defined.

(** *** Twitter *)

Ltac open_twitter w Hurl E Henc Hapi url data :=
  unfold downloadTwitter; start_handler Hurl E; unfold try_catch;
  step_fetch w "twitterv2" url Henc Hapi;
  step_read data.

(** X23.  For a target URL that can be encoded: when [data.media] is
    falsy, or its first element is, the Twitter handler answers that the
    tweet has no media and does not reach the relay. *)
Theorem twitter_without_media
    (w : world) (msg : message) (url : string) (rest : list string)
    (result data all_media first : value) :
  url <> "" -> Str.lone_surrogate url = false -> notice_ok w msg ->
  api_serves w "twitterv2" url result ->
  get result "data" = Normal data ->
  get data "media" = Normal all_media ->
  truthy all_media = false \/
  (get all_media "0" = Normal first /\ truthy first = false) ->
  fst (downloadTwitter w msg (url :: rest) []) =
    Normal "This tweet does not contain any media." /\
  relay_calls (snd (downloadTwitter w msg (url :: rest) [])) = [].
Proof.
  intros Hurl Henc Hok Hapi Hdata Hall Hnone.
  destruct (notify_run w msg "Twitter" [] Hok) as [d [E [[Hr _] _]]].
  open_twitter w Hurl E Henc Hapi url data. step_read all_media.
  destruct (truthy all_media) eqn:Ea; cbn [negb].
  - destruct Hnone as [Hf | [H0 Hf]]; [discriminate|].
    rewrite (bind_run _ _ _ _ first)
      by (apply read_run; now rewrite (path_cons _ _ _ _ Hall), path_one).
    rewrite Hf. cbn [negb ret fst snd]. split; [reflexivity|].
    now rewrite !relay_calls_app, Hr.
  - cbn [ret fst snd]. split; [reflexivity|].
    now rewrite !relay_calls_app, Hr.
Qed.

Lemma twitter_without_media_witness :
  fst (downloadTwitter (serving (twitter_reply_with (VArr []))) guest_msg
         ["https://x.com/i/status/1"] []) =
    Normal "This tweet does not contain any media." /\
  relay_calls
    (snd (downloadTwitter (serving (twitter_reply_with (VArr []))) guest_msg
            ["https://x.com/i/status/1"] [])) = [].
Proof.
  apply (twitter_without_media (serving (twitter_reply_with (VArr [])))
           guest_msg "https://x.com/i/status/1" []
           (twitter_reply_with (VArr []))
           (lookup "data" (match twitter_reply_with (VArr []) with
                           | VObj f => f
                           | _ => []
                           end))
           (VArr []) VUndefined);
    try reflexivity; try discriminate.
  - intros request _ h. eexists. repeat split.
  - right. split; reflexivity.
Defined.

(** An array-like value with a first element is truthy. *)
Lemma truthy_of_first (all_media media : value) :
  get all_media "0" = Normal media -> truthy media = true ->
  truthy all_media = true.
Proof.
  intros Hfirst Hmedia.
  destruct all_media; try discriminate; try reflexivity.
  - simpl in Hfirst. injection Hfirst as <-. discriminate.
  - simpl in Hfirst. injection Hfirst as <-. discriminate.
  - simpl. destruct (s =? "")%string eqn:Es; [|reflexivity].
    apply String.eqb_eq in Es. subst s. simpl in Hfirst.
    injection Hfirst as <-. discriminate.
Qed.

(** The handler from the reading of [data.media] to the reading of
    [data.author.username]. *)
Ltac to_author all_media Hall media Hfirst Hmedia Huser :=
  step_read all_media;
  rewrite (truthy_of_first all_media media Hfirst Hmedia); cbn [negb];
  rewrite (bind_run _ _ _ _ media)
    by (apply read_run; now rewrite (path_cons _ _ _ _ Hall), path_one);
  rewrite Hmedia; cbn [negb];
  rewrite (bind_run _ _ _ _ _ (read_run _ _ _ _ Huser)).

(** The caption, up to the reading of [media.type]. *)
Ltac to_choice Hcu description view Hcv favorite Hcf retweet Hcr type :=
  step_text Hcu;
  step_read (VStr description); cbn [call_split_head]; rewrite bind_ret;
  step_read view; step_miles Hcv;
  step_read favorite; step_miles Hcf;
  step_read retweet; step_miles Hcr;
  step_read type.

Lemma photo_check_run (media image : value) (t : trace) :
  get media "image" = Normal image ->
  bind (read media ["image"]) (fun image => ret (truthy image)) t =
  (Normal (truthy image), t).
Proof. intros H. step_read image. reflexivity. Qed.

(** X24.  For a target URL that can be encoded, and an author name, three
    counters and an image URL that convert to strings: for a photo the
    handler relays [media.image] as an image, under the caption built
    from the author, the description cut at its first link and the three
    formatted counters, and returns the empty string. *)
Theorem twitter_relays_photo
    (w : world) (msg : message) (url : string) (rest : list string)
    (result data all_media media username view favorite retweet image : value)
    (description : string) :
  url <> "" -> Str.lone_surrogate url = false -> notice_ok w msg ->
  api_serves w "twitterv2" url result ->
  get result "data" = Normal data ->
  get data "media" = Normal all_media ->
  get all_media "0" = Normal media ->
  truthy media = true ->
  path data ["author"; "username"] = Normal username ->
  convertible username = true ->
  get data "description" = Normal (VStr description) ->
  get data "view" = Normal view -> convertible view = true ->
  get data "favorite" = Normal favorite -> convertible favorite = true ->
  get data "retweet" = Normal retweet -> convertible retweet = true ->
  get media "type" = Normal (VStr "photo") ->
  get media "image" = Normal image ->
  truthy image = true -> convertible image = true ->
  fst (downloadTwitter w msg (url :: rest) []) = Normal "" /\
  relay_calls (snd (downloadTwitter w msg (url :: rest) [])) =
    [(image,
      VStr (twitter_caption username description view favorite retweet),
      VStr "image")].
Proof.
  intros Hurl Henc Hok Hapi Hdata Hall Hfirst Hmedia Huser Hcu Hdesc
    Hview Hcv Hfav Hcf Hret Hcr Htype Himage Htruthy Hci.
  destruct (notify_run w msg "Twitter" [] Hok) as [d [E [[Hr _] _]]].
  open_twitter w Hurl E Henc Hapi url data.
  to_author all_media Hall media Hfirst Hmedia Huser.
  to_choice Hcu description view Hcv favorite Hcf retweet Hcr (VStr "photo").
  change (is_string (VStr "photo") "video") with false. cbv iota.
  rewrite bind_ret.
  change (is_string (VStr "photo") "photo") with true. cbv iota.
  rewrite (bind_run _ _ _ _ _ (photo_check_run media image _ Himage)).
  rewrite Htruthy. step_read image.
  finish_with_relay Hci Hr. split; reflexivity.
Qed.

Lemma twitter_relays_photo_witness :
  fst (downloadTwitter (serving (twitter_reply_with (VArr [twitter_photo])))
         guest_msg ["https://x.com/i/status/1"] []) = Normal "" /\
  relay_calls
    (snd (downloadTwitter (serving (twitter_reply_with (VArr [twitter_photo])))
            guest_msg ["https://x.com/i/status/1"] [])) =
    [(VStr "http://m/p.jpg",
      VStr (twitter_caption (VStr "u") "hello https://t.co/x" (num 1500)
              (num 20) (num 3)),
      VStr "image")].
Proof.
  apply (twitter_relays_photo
           (serving (twitter_reply_with (VArr [twitter_photo]))) guest_msg
           "https://x.com/i/status/1" []
           (twitter_reply_with (VArr [twitter_photo]))
           (lookup "data"
              (match twitter_reply_with (VArr [twitter_photo]) with
               | VObj f => f
               | _ => []
               end))
           (VArr [twitter_photo]) twitter_photo (VStr "u") (num 1500)
           (num 20) (num 3) (VStr "http://m/p.jpg") "hello https://t.co/x");
    try reflexivity; try discriminate.
  intros request _ h. eexists. repeat split.
Defined.

Lemma has_videos_none (media videos : value) (t : trace) :
  get media "videos" = Normal videos ->
  truthy videos = false \/ videos = VArr [] ->
  has_videos media t = (Normal false, t).
Proof.
  intros H Hnone. unfold has_videos. step_read videos.
  destruct Hnone as [-> | ->]; [reflexivity|].
  cbn [truthy].
  rewrite (bind_run _ _ t t (VNum (Num.of_nat 0)))
    by (apply read_run; rewrite (path_cons _ _ _ _ H), path_one; reflexivity).
  reflexivity.
Qed.

(** X25.  For a target URL that can be encoded, and an author name and
    three counters that convert to strings, what the handler does not
    relay: a media element whose type is none of [video], [photo] and
    [gif], a photo whose [image] is falsy, a video or gif whose [videos]
    is falsy or empty.  Each gets the "unsupported" answer and the relay
    is not reached. *)
Theorem twitter_unsupported_media
    (w : world) (msg : message) (url : string) (rest : list string)
    (result data all_media media username view favorite retweet type extra
     : value)
    (description : string) :
  url <> "" -> Str.lone_surrogate url = false -> notice_ok w msg ->
  api_serves w "twitterv2" url result ->
  get result "data" = Normal data ->
  get data "media" = Normal all_media ->
  get all_media "0" = Normal media ->
  truthy media = true ->
  path data ["author"; "username"] = Normal username ->
  convertible username = true ->
  get data "description" = Normal (VStr description) ->
  get data "view" = Normal view -> convertible view = true ->
  get data "favorite" = Normal favorite -> convertible favorite = true ->
  get data "retweet" = Normal retweet -> convertible retweet = true ->
  get media "type" = Normal type ->
  (is_string type "video" = false /\ is_string type "photo" = false /\
   is_string type "gif" = false) \/
  (type = VStr "photo" /\ get media "image" = Normal extra /\
   truthy extra = false) \/
  ((type = VStr "video" \/ type = VStr "gif") /\
   get media "videos" = Normal extra /\
   (truthy extra = false \/ extra = VArr [])) ->
  fst (downloadTwitter w msg (url :: rest) []) =
    Normal "Unsupported media type or media not available." /\
  relay_calls (snd (downloadTwitter w msg (url :: rest) [])) = [].
Proof.
  intros Hurl Henc Hok Hapi Hdata Hall Hfirst Hmedia Huser Hcu Hdesc
    Hview Hcv Hfav Hcf Hret Hcr Htype Hcase.
  destruct (notify_run w msg "Twitter" [] Hok) as [d [E [[Hr _] _]]].
  open_twitter w Hurl E Henc Hapi url data.
  to_author all_media Hall media Hfirst Hmedia Huser.
  to_choice Hcu description view Hcv favorite Hcf retweet Hcr type.
  destruct Hcase as [[Hv [Hp Hg]] | [[-> [Hi Hf]] | [Hty [Hvs Hnone]]]].
  - rewrite Hv, Hp, Hg. cbv iota. rewrite !bind_ret. cbn [ret fst snd].
    split; [reflexivity|]. now rewrite !relay_calls_app, Hr.
  - change (is_string (VStr "photo") "video") with false.
    change (is_string (VStr "photo") "photo") with true.
    change (is_string (VStr "photo") "gif") with false. cbv iota.
    rewrite bind_ret.
    rewrite (bind_run _ _ _ _ _ (photo_check_run media extra _ Hi)).
    rewrite Hf, bind_ret. cbn [ret fst snd].
    split; [reflexivity|]. now rewrite !relay_calls_app, Hr.
  - destruct Hty as [-> | ->].
    + change (is_string (VStr "video") "video") with true.
      change (is_string (VStr "video") "photo") with false.
      change (is_string (VStr "video") "gif") with false. cbv iota.
      rewrite (bind_run _ _ _ _ _ (has_videos_none media extra _ Hvs Hnone)).
      rewrite !bind_ret. cbn [ret fst snd].
      split; [reflexivity|]. now rewrite !relay_calls_app, Hr.
    + change (is_string (VStr "gif") "video") with false.
      change (is_string (VStr "gif") "photo") with false.
      change (is_string (VStr "gif") "gif") with true. cbv iota.
      rewrite !bind_ret.
      rewrite (bind_run _ _ _ _ _ (has_videos_none media extra _ Hvs Hnone)).
      cbn [ret fst snd].
      split; [reflexivity|]. now rewrite !relay_calls_app, Hr.
Qed.

Lemma twitter_unsupported_media_witness :
  fst (downloadTwitter
         (serving (twitter_reply_with
                     (VArr [VObj [("type", VStr "video"); ("videos", VArr [])]])))
         guest_msg ["https://x.com/i/status/1"] []) =
    Normal "Unsupported media type or media not available." /\
  relay_calls
    (snd (downloadTwitter
            (serving (twitter_reply_with
                        (VArr [VObj [("type", VStr "video");
                                     ("videos", VArr [])]])))
            guest_msg ["https://x.com/i/status/1"] [])) = [].
Proof.
  apply (twitter_unsupported_media
           (serving (twitter_reply_with
                       (VArr [VObj [("type", VStr "video");
                                    ("videos", VArr [])]])))
           guest_msg "https://x.com/i/status/1" []
           (twitter_reply_with
              (VArr [VObj [("type", VStr "video"); ("videos", VArr [])]]))
           (lookup "data"
              (match twitter_reply_with
                       (VArr [VObj [("type", VStr "video");
                                    ("videos", VArr [])]]) with
               | VObj f => f
               | _ => []
               end))
           (VArr [VObj [("type", VStr "video"); ("videos", VArr [])]])
           (VObj [("type", VStr "video"); ("videos", VArr [])])
           (VStr "u") (num 1500) (num 20) (num 3)
           (VStr "video") (VArr []) "hello https://t.co/x");
    try reflexivity; try discriminate.
  - intros request _ h. eexists. repeat split.
  - right. right. split; [left; reflexivity|]. split; [reflexivity|].
    right. reflexivity.
Defined.

Lemma split_head_raises (description : value) :
  (forall s, description <> VStr s) ->
  exists e, forall t, call_split_head description "https://" t = (Throw e, t).
Proof.
  intros H. destruct description; try (eexists; intros t; reflexivity).
  now destruct (H s).
Qed.

(** X26.  The caption comes before the choice of the media: when
    [data.description] is not a string, the handler returns a failure
    text and relays nothing, even for a tweet that has media. *)
Theorem twitter_needs_description
    (w : world) (msg : message) (url : string) (rest : list string)
    (result data all_media media username description : value) :
  url <> "" -> notice_ok w msg ->
  api_serves w "twitterv2" url result ->
  get result "data" = Normal data ->
  get data "media" = Normal all_media ->
  get all_media "0" = Normal media ->
  truthy media = true ->
  path data ["author"; "username"] = Normal username ->
  get data "description" = Normal description ->
  (forall s, description <> VStr s) ->
  (exists reason,
     fst (downloadTwitter w msg (url :: rest) []) =
       Normal ("❌ Failed to download Twitter media: " ++ reason)%string) /\
  relay_calls (snd (downloadTwitter w msg (url :: rest) [])) = [].
Proof.
  intros Hurl Hok Hapi Hdata Hall Hfirst Hmedia Huser Hdesc Hnot.
  destruct (notify_run w msg "Twitter" [] Hok) as [d [E [[Hr _] _]]].
  destruct (split_head_raises description Hnot) as [e He].
  destruct (Str.lone_surrogate url) eqn:Henc.
  - (* the target cannot be encoded: the request is never made *)
    unfold downloadTwitter. start_handler Hurl E. unfold try_catch.
    rewrite (bind_raise _ _ _ _ _
               (fetchDownload_malformed w "twitterv2" (VStr url) url _ _
                  eq_refl (api_url_malformed "twitterv2" url Henc))).
    cbn [ret fst snd]. split; [eexists; reflexivity|].
    now rewrite !relay_calls_app, Hr.
  - open_twitter w Hurl E Henc Hapi url data.
    to_author all_media Hall media Hfirst Hmedia Huser.
    destruct (ToString username) as [name|e'] eqn:Hname.
    + rewrite (bind_run _ _ _ _ _
                 (interpolate_run _ _ (proj1 (convertible_of_text _ _ Hname)))).
      step_read description.
      rewrite (bind_raise _ _ _ _ _ (He _)). cbn [ret fst snd].
      split; [eexists; reflexivity|]. now rewrite !relay_calls_app, Hr.
    + rewrite (bind_raise _ _ _ _ _ (interpolate_raises _ _ _ Hname)).
      cbn [ret fst snd].
      split; [eexists; reflexivity|]. now rewrite !relay_calls_app, Hr.
Qed.

Lemma twitter_needs_description_witness :
  (exists reason,
     fst (downloadTwitter
            (serving (VObj [("data", VObj [
               ("author", VObj [("username", VStr "u")]);
               ("media", VArr [twitter_photo])])]))
            guest_msg ["https://x.com/i/status/1"] []) =
       Normal ("❌ Failed to download Twitter media: " ++ reason)%string) /\
  relay_calls
    (snd (downloadTwitter
            (serving (VObj [("data", VObj [
               ("author", VObj [("username", VStr "u")]);
               ("media", VArr [twitter_photo])])]))
            guest_msg ["https://x.com/i/status/1"] [])) = [].
Proof.
  apply (twitter_needs_description
           (serving (VObj [("data", VObj [
              ("author", VObj [("username", VStr "u")]);
              ("media", VArr [twitter_photo])])]))
           guest_msg "https://x.com/i/status/1" []
           (VObj [("data", VObj [
              ("author", VObj [("username", VStr "u")]);
              ("media", VArr [twitter_photo])])])
           (VObj [("author", VObj [("username", VStr "u")]);
                  ("media", VArr [twitter_photo])])
           (VArr [twitter_photo]) twitter_photo (VStr "u") VUndefined);
    try reflexivity; try discriminate.
  intros request _ h. eexists. repeat split.
Defined.

(** *** Instagram *)

(** X17.  The Instagram handler never delivers media: in every world and for
    every message and parameter list it leaves the relay alone, hands
    nothing to [bot.sendMessage] and logs nothing. *)
Theorem instagram_never_relays
    (w : world) (msg : message) (params : list string) :
  relay_calls (snd (downloadInstagram w msg params [])) = [] /\
  bot_sends (snd (downloadInstagram w msg params [])) = [] /\
  logged_errors (snd (downloadInstagram w msg params [])) = [].
Proof.
  assert (H : avoids is_delivery (downloadInstagram w msg params)).
  { open_methods. unfold notify_owner, sock_sendMessage. avoid. }
  destruct (avoids_spec _ _ [] H) as [d [E Hd]].
  rewrite E. cbn [snd app]. now apply delivery_nil.
Qed.

Lemma entry_gets (item type url : value) :
  entry_of item = Some (type, url) ->
  get item "type" = Normal type /\ get item "url" = Normal url.
Proof.
  unfold entry_of.
  destruct (get item "type"); [|discriminate].
  destruct (get item "url"); [|discriminate].
  intros H. injection H as -> ->. auto.
Qed.

(** The loop of the listing, in closed form. *)
Lemma instagram_lines_listing (items : list value)
    (entries : list (value * value)) (index : nat) (text : string) :
  map entry_of items = map Some entries ->
  forallb entry_converts entries = true ->
  (Z.of_nat (index + List.length items) < 2 ^ 32)%Z ->
  instagram_lines items index text = Normal (text ++ listing entries index)%string.
Proof.
  revert entries index text.
  induction items as [|item items IH];
    intros [|[type url] entries] index text H Hconv Hb; try discriminate.
  - simpl. now rewrite append_nil_r.
  - cbn [map] in H. injection H as Hitem H.
    destruct (entry_gets _ _ _ Hitem) as [Ht Hu].
    cbn [forallb] in Hconv. unfold entry_converts at 1 in Hconv.
    cbn [fst snd] in Hconv. rewrite !andb_true_iff in Hconv.
    destruct Hconv as [[Hc1 Hc2] Hconv].
    cbn [instagram_lines]. rewrite Ht. cbn [and_then].
    rewrite (text_of_spec _ Hc1). cbn [and_then].
    rewrite Hu. cbn [and_then].
    rewrite (text_of_spec _ Hc2). cbn [and_then].
    rewrite label_of_index by (cbn [List.length] in Hb; lia).
    rewrite (IH entries (S index));
      [| exact H | exact Hconv | cbn [List.length] in Hb; lia].
    f_equal. cbn [listing]. now rewrite !append_assoc.
Qed.

(** X18.  For a target URL that can be encoded: when [data] is an array
    whose items can be read, with types and URLs that convert to strings,
    the Instagram handler returns the heading followed by one line per
    item, in the order of the reply, labelled 1, 2, 3, ... with the
    item's type and URL. *)
Theorem instagram_lists_media
    (w : world) (msg : message) (url : string) (rest : list string)
    (result : value) (items : list value) (entries : list (value * value)) :
  url <> "" -> Str.lone_surrogate url = false -> notice_ok w msg ->
  (forall endpoint, api_serves w endpoint url result) ->
  get result "data" = Normal (VArr items) ->
  array_length_ok items ->
  map entry_of items = map Some entries ->
  forallb entry_converts entries = true ->
  fst (downloadInstagram w msg (url :: rest) []) =
    Normal ("*亗 I N S T A G R A M*" ++ nl ++ nl ++ listing entries 0)%string.
Proof.
  intros Hurl Henc Hok Hapi Hdata Hlen Hitems Hconv.
  destruct (notify_run w msg "Instagram" [] Hok) as [d [E _]].
  unfold downloadInstagram. start_handler Hurl E.
  cbn [call_includes]. rewrite bind_ret.
  match goal with
  | |- context [bind (_fetchDownload w ?ep (VStr url)) _ _] =>
      step_fetch w ep url Henc (Hapi ep)
  end.
  step_read (VArr items). unfold lift.
  rewrite (instagram_lines_listing items entries 0 _ Hitems Hconv)
    by (unfold array_length_ok in Hlen; simpl; lia).
  cbn [fst]. now rewrite !append_assoc.
Qed.

Lemma instagram_lists_media_witness :
  fst (downloadInstagram (serving instagram_reply) guest_msg
         ["https://instagram.com/p/1"] []) =
    Normal ("*亗 I N S T A G R A M*" ++ nl ++ nl ++
            listing [(VStr "image", VStr "http://m/1.jpg");
                     (VStr "video", VStr "http://m/2.mp4")] 0)%string.
Proof.
  apply (instagram_lists_media (serving instagram_reply) guest_msg
           "https://instagram.com/p/1" [] instagram_reply
           [VObj [("type", VStr "image"); ("url", VStr "http://m/1.jpg")];
            VObj [("type", VStr "video"); ("url", VStr "http://m/2.mp4")]]
           [(VStr "image", VStr "http://m/1.jpg");
            (VStr "video", VStr "http://m/2.mp4")]);
    try reflexivity; try discriminate.
  intros ep request _ h. eexists. repeat split.
Defined.

End SelectionFacts.
